(** * Change-detection monitors of script-dumping-ground

    A shallow embedding of the three polling monitors
    ([Band Tour Monitor/band_tour_monitor.py],
    [Monitoring/hurricanes_monitor.py], [Monitoring/comic_events_monitor.py])
    together with the fragment of Python they run on: JSON-shaped values,
    the built-in operations the scripts apply to them, exceptions, and the
    mutable monitor object threaded through a state-and-exception monad.

    What the model leaves out.  JSON numbers are integers (no floating
    point).  Characters are 8-bit and [str.lower] folds A-Z only.  The
    file system and the network appear through the outcome of the one
    read, the one write and the one request each method makes.  [print]
    and [Path.exists] always succeed.  The text of the Telegram message is
    not built: [run] returns the list the message is rendered from. *)

From Stdlib Require Import ZArith List String Ascii Bool DecimalString.
Import ListNotations.

Set Warnings "-register-all".

#[local] Open Scope string_scope.
#[local] Open Scope Z_scope.

(* ================================================================== *)
(** ** Python values *)
(* ================================================================== *)

Module Py.

(** Hashable scalars, i.e. what can be a dictionary key. *)
Inductive key :=
| KNone
| KBool (b : bool)
| KInt (z : Z)
| KStr (s : string).

(** What [json.loads] returns, and what the monitors build from it.
    A dictionary keeps its insertion order. *)
Inductive value :=
| VNone
| VBool (b : bool)
| VInt (z : Z)
| VStr (s : string)
| VList (l : list value)
| VDict (d : list (key * value)).

(** The exception classes that occur; all derive from [Exception]. *)
Inductive exn :=
| AttributeError
| TypeError
| KeyError
| IndexError
| OSError
| ValueError.

Inductive result (A : Type) :=
| Ok (a : A)
| Raise (e : exn).
Arguments Ok {A} a.
Arguments Raise {A} e.

(** *** Keys *)

Definition key_num (k : key) : option Z :=
  match k with
  | KBool b => Some (Z.b2z b)
  | KInt z => Some z
  | _ => None
  end.

(** [k1 == k2] on hashable scalars: [True == 1] and [False == 0]. *)
Definition key_eqb (k1 k2 : key) : bool :=
  match k1, k2 with
  | KNone, KNone => true
  | KStr a, KStr b => String.eqb a b
  | _, _ =>
      match key_num k1, key_num k2 with
      | Some a, Some b => Z.eqb a b
      | _, _ => false
      end
  end.

(** Keys that compare equal share a normal form: booleans count as 0 and 1. *)
Definition key_norm (k : key) : key :=
  match k with
  | KBool b => KInt (Z.b2z b)
  | _ => k
  end.

(** [hash(v)] succeeds exactly on the scalars. *)
Definition hashable (v : value) : option key :=
  match v with
  | VNone => Some KNone
  | VBool b => Some (KBool b)
  | VInt z => Some (KInt z)
  | VStr s => Some (KStr s)
  | VList _ | VDict _ => None
  end.

Definition value_of_key (k : key) : value :=
  match k with
  | KNone => VNone
  | KBool b => VBool b
  | KInt z => VInt z
  | KStr s => VStr s
  end.

(** *** Dictionaries *)

Definition dict := list (key * value).

Fixpoint dict_get (d : dict) (k : key) : option value :=
  match d with
  | [] => None
  | (k', v) :: d' => if key_eqb k k' then Some v else dict_get d' k
  end.

(** [d[k] = v]: an existing key keeps its position (and its key object),
    a new key goes to the end. *)
Fixpoint dict_set (d : dict) (k : key) (v : value) : dict :=
  match d with
  | [] => [(k, v)]
  | (k', v') :: d' =>
      if key_eqb k k' then (k', v) :: d' else (k', v') :: dict_set d' k v
  end.

Definition dict_mem (d : dict) (k : key) : bool :=
  match dict_get d k with Some _ => true | None => false end.

(** Number of entries stored under [k]. *)
Definition dict_count (d : dict) (k : key) : nat :=
  List.length (filter (fun p => key_eqb k (fst p)) d).

(** *** Strings *)

(** A text is modelled by the sequence of its characters, each a code
    point below 256.  Of these, [str.lower] changes A-Z and the
    upper-case letters from 192 to 222 (215, the multiplication sign,
    is not one). *)
Definition lower_char (c : ascii) : ascii :=
  let n := nat_of_ascii c in
  if ((Nat.leb 65 n && Nat.leb n 90)
      || (Nat.leb 192 n && Nat.leb n 222 && negb (Nat.eqb n 215)))%bool
  then ascii_of_nat (n + 32) else c.

(** [s.lower()] *)
Fixpoint lower (s : string) : string :=
  match s with
  | EmptyString => EmptyString
  | String c t => String (lower_char c) (lower t)
  end.

(** [needle in hay] on two strings. *)
Fixpoint str_contains (needle hay : string) : bool :=
  (String.prefix needle hay
   || match hay with
      | EmptyString => false
      | String _ t => str_contains needle t
      end)%bool.

Fixpoint join (sep : string) (l : list string) : string :=
  match l with
  | [] => EmptyString
  | [s] => s
  | s :: t => s ++ sep ++ join sep t
  end.

Definition decimal (z : Z) : string := NilZero.string_of_int (Z.to_int z).

Definition hex_digit (n : nat) : ascii :=
  nth n ["0"; "1"; "2"; "3"; "4"; "5"; "6"; "7";
         "8"; "9"; "a"; "b"; "c"; "d"; "e"; "f"]%char "0"%char.

Fixpoint has_char (c : ascii) (s : string) : bool :=
  match s with
  | EmptyString => false
  | String c' t => (Ascii.eqb c c' || has_char c t)%bool
  end.

Definition backslash : ascii := ascii_of_nat 92.
Definition squote : ascii := ascii_of_nat 39.
Definition dquote : ascii := ascii_of_nat 34.

Definition escaped (c : ascii) : string := String backslash (String c EmptyString).

(** One character inside [repr(s)]: the quote and the backslash are
    escaped, and so is every character that is not printable: the
    control characters (below 32, and 127 to 159), the no-break space
    (160) and the soft hyphen (173). *)
Definition repr_char (quote c : ascii) : string :=
  let n := nat_of_ascii c in
  if (Ascii.eqb c quote || Ascii.eqb c backslash)%bool then escaped c
  else if Nat.eqb n 9 then escaped "t"
  else if Nat.eqb n 10 then escaped "n"
  else if Nat.eqb n 13 then escaped "r"
  else if (Nat.ltb n 32 || (Nat.leb 127 n && Nat.leb n 160)
           || Nat.eqb n 173)%bool then
    String backslash
      (String "x" (String (hex_digit (n / 16))
                          (String (hex_digit (n mod 16)) EmptyString)))
  else String c EmptyString.

Fixpoint repr_chars (quote : ascii) (s : string) : string :=
  match s with
  | EmptyString => EmptyString
  | String c t => repr_char quote c ++ repr_chars quote t
  end.

(** [repr(s)] of a string: single quotes unless the text has a single
    quote and no double quote. *)
Definition repr_str (s : string) : string :=
  let quote :=
    if (has_char squote s && negb (has_char dquote s))%bool
    then dquote else squote in
  String quote (repr_chars quote s ++ String quote EmptyString).

Definition repr_key (k : key) : string :=
  match k with
  | KNone => "None"
  | KBool true => "True"
  | KBool false => "False"
  | KInt z => decimal z
  | KStr s => repr_str s
  end.

(** [repr(v)] *)
Fixpoint py_repr (v : value) : string :=
  match v with
  | VNone => "None"
  | VBool true => "True"
  | VBool false => "False"
  | VInt z => decimal z
  | VStr s => repr_str s
  | VList l => "[" ++ join ", " (map py_repr l) ++ "]"
  | VDict d =>
      "{" ++ join ", "
               (map (fun p => repr_key (fst p) ++ ": " ++ py_repr (snd p)) d)
          ++ "}"
  end.

(** [str(v)], which is also what an f-string field [{v}] inserts. *)
Definition py_str (v : value) : string :=
  match v with
  | VStr s => s
  | _ => py_repr v
  end.

(** *** Truth, equality, containers *)

(** [bool(v)] *)
Definition py_truthy (v : value) : bool :=
  match v with
  | VNone => false
  | VBool b => b
  | VInt z => negb (Z.eqb z 0)
  | VStr s => negb (String.eqb s EmptyString)
  | VList l => match l with [] => false | _ => true end
  | VDict d => match d with [] => false | _ => true end
  end.

(** [a == b] *)
Fixpoint py_eq (a b : value) : bool :=
  match a, b with
  | VNone, VNone => true
  | VBool x, VBool y => Bool.eqb x y
  | VBool x, VInt y => Z.eqb (Z.b2z x) y
  | VInt x, VBool y => Z.eqb x (Z.b2z y)
  | VInt x, VInt y => Z.eqb x y
  | VStr x, VStr y => String.eqb x y
  | VList x, VList y =>
      (fix go (x y : list value) : bool :=
         match x, y with
         | [], [] => true
         | a' :: x', b' :: y' => (py_eq a' b' && go x' y')%bool
         | _, _ => false
         end) x y
  | VDict x, VDict y =>
      (Nat.eqb (List.length x) (List.length y)
       && (fix go (x : list (key * value)) : bool :=
             match x with
             | [] => true
             | (k, v) :: x' =>
                 (match dict_get y k with
                  | Some w => py_eq v w
                  | None => false
                  end && go x')%bool
             end) x)%bool
  | _, _ => false
  end.

(** [obj.get(name, default)]: only dictionaries have the method. *)
Definition py_get (obj : value) (name : string) (default : value)
  : result value :=
  match obj with
  | VDict d =>
      Ok (match dict_get d (KStr name) with Some v => v | None => default end)
  | _ => Raise AttributeError
  end.

(** [obj[name]] with a string subscript. *)
Definition py_getitem (obj : value) (name : string) : result value :=
  match obj with
  | VDict d =>
      match dict_get d (KStr name) with
      | Some v => Ok v
      | None => Raise KeyError
      end
  | _ => Raise TypeError
  end.

(** [x in container] *)
Definition py_contains (container x : value) : result bool :=
  match container with
  | VDict d =>
      match hashable x with
      | Some k => Ok (dict_mem d k)
      | None => Raise TypeError
      end
  | VList l => Ok (existsb (fun y => py_eq y x) l)
  | VStr s =>
      match x with
      | VStr n => Ok (str_contains n s)
      | _ => Raise TypeError
      end
  | _ => Raise TypeError
  end.

Fixpoint list_set (l : list value) (n : nat) (v : value) : list value :=
  match l, n with
  | [], _ => []
  | _ :: t, O => v :: t
  | h :: t, S n' => h :: list_set t n' v
  end.

(** [container[k] = v] *)
Definition py_setitem (container k v : value) : result value :=
  match container with
  | VDict d =>
      match hashable k with
      | Some k' => Ok (VDict (dict_set d k' v))
      | None => Raise TypeError
      end
  | VList l =>
      match k with
      | VInt _ | VBool _ =>
          let i := match k with VInt z => z | VBool b => Z.b2z b | _ => 0 end in
          let n := Z.of_nat (List.length l) in
          let j := if i <? 0 then i + n else i in
          if ((0 <=? j) && (j <? n))%bool
          then Ok (VList (list_set l (Z.to_nat j) v))
          else Raise IndexError
      | _ => Raise TypeError
      end
  | _ => Raise TypeError
  end.

(** The items a [for] loop draws from [v]. *)
Fixpoint chars (s : string) : list value :=
  match s with
  | EmptyString => []
  | String c t => VStr (String c EmptyString) :: chars t
  end.

Definition py_iter (v : value) : result (list value) :=
  match v with
  | VList l => Ok l
  | VDict d => Ok (map (fun p => value_of_key (fst p)) d)
  | VStr s => Ok (chars s)
  | _ => Raise TypeError
  end.

(** *** The JSON round trip *)

(** How [json.dump] writes a dictionary key. *)
Definition json_key (k : key) : string :=
  match k with
  | KNone => "null"
  | KBool true => "true"
  | KBool false => "false"
  | KInt z => decimal z
  | KStr s => s
  end.

(** [json.load] of what [json.dump] wrote for [v]: every key has become
    a string, and of two entries written under one name the later wins. *)
Fixpoint json_image (v : value) : value :=
  match v with
  | VList l => VList (map json_image l)
  | VDict d =>
      VDict (fold_left
               (fun acc p => dict_set acc (KStr (json_key (fst p)))
                                      (json_image (snd p)))
               d [])
  | _ => v
  end.

(** *** Reading a store and its records *)

(** The mapping part of a store value. *)
Definition store_lookup (store : value) (k : key) : option value :=
  match store with
  | VDict d => dict_get d k
  | _ => None
  end.

(** A field of a tracked item. *)
Definition item_field (item : value) (name : string) : option value :=
  match item with
  | VDict d => dict_get d (KStr name)
  | _ => None
  end.

End Py.

Import Py.

(* ================================================================== *)
(** ** Effects: a state monad with exceptions *)
(* ================================================================== *)

(** A computation over the mutable state [S].  An exception keeps the
    state reached when it was raised: Python does not roll mutations back. *)
Definition M (S A : Type) : Type := S -> result A * S.

Definition ret {S A : Type} (a : A) : M S A := fun s => (Ok a, s).

Definition bind {S A B : Type} (c : M S A) (k : A -> M S B) : M S B :=
  fun s =>
    match c s with
    | (Ok a, s') => k a s'
    | (Raise e, s') => (Raise e, s')
    end.

Definition lift {S A : Type} (r : result A) : M S A := fun s => (r, s).

Definition raise {S A : Type} (e : exn) : M S A := lift (Raise e).

Definition get {S : Type} : M S S := fun s => (Ok s, s).

Definition modify {S : Type} (f : S -> S) : M S unit := fun s => (Ok tt, f s).

(** [try: c  except Exception as e: h e] *)
Definition try_except {S A : Type} (c : M S A) (h : exn -> M S A) : M S A :=
  fun s =>
    match c s with
    | (Ok a, s') => (Ok a, s')
    | (Raise e, s') => h e s'
    end.

(** Sequencing of plain results, for code that touches no state. *)
Definition and_then {A B : Type} (r : result A) (k : A -> result B) : result B :=
  match r with
  | Ok a => k a
  | Raise e => Raise e
  end.

Declare Scope py_scope.
Delimit Scope py_scope with py.
Notation "x <~ r ;; k" := (and_then r (fun x => k))
  (at level 61, r at next level, right associativity) : py_scope.
Notation "x <- c ;; k" := (bind c (fun x => k))
  (at level 61, c at next level, right associativity) : py_scope.
Notation "c ;; k" := (bind c (fun _ => k))
  (at level 61, right associativity) : py_scope.
#[local] Open Scope py_scope.

(** [for x in l: body x] *)
Fixpoint for_each {S A : Type} (body : A -> M S unit) (l : list A) : M S unit :=
  match l with
  | [] => ret tt
  | x :: t => body x ;; for_each body t
  end.

(* ================================================================== *)
(** ** The world outside the process *)
(* ================================================================== *)

(** The persisted document, seen through what reading it does. *)
Inductive document :=
| Missing                (* DATA_FILE.exists() is false *)
| Unreachable (e : exn)  (* DATA_FILE.exists() raises e *)
| Corrupt (e : exn)      (* open() or json.load() raises e *)
| Json (v : value).      (* json.load() returns v *)

(** How writing the document fails. *)
Inductive write_fault :=
| AtOpen (e : exn)       (* open(DATA_FILE, 'w') raises e: nothing is touched *)
| AtDump (e : exn) (cut : document).
                         (* the file is opened, so emptied, then json.dump
                            or the close raises e; [cut] is what is left *)

(** One HTTP exchange, seen through what the [try] block around it does. *)
Inductive response :=
| Failed (e : exn)       (* urlopen, read, decode or json.loads raises e *)
| Payload (v : value).   (* json.loads returns v *)

(** What the monitors print, by kind and by the data the line shows. *)
Inductive message :=
| MsgBanner                                  (* the opening lines of run *)
| MsgChecking (source : string)              (* Checking shows for ... *)
| MsgFetchError (source : string) (e : exn)  (* Error fetching ...: e *)
| MsgNoData                                  (* No schedule data available *)
| MsgNew (item : value)                      (* NEW SHOW / NEW GAME *)
| MsgItemError (e : exn)                     (* Error processing show: e *)
| MsgFound (n : nat)                         (* Found n new ... *)
| MsgNothingNew.                             (* No new ... found *)

(** What a run does that can be observed: output and store operations. *)
Inductive event :=
| Print (m : message)
| StoreLoad
| StoreContains (id : value)
| StoreUpsert (id item : value)
| StoreSave (mapping : value).

Record world := World {
  data_file : document;
  write_error : option write_fault;   (* how the next write fails, if it does *)
  trace : list event;
  stdout_error : value -> option exn
      (* Some e: the line that announces this item has text the output
         stream cannot encode, and print raises e on it *)
}.

(** A world whose output stream takes every line. *)
Definition mkWorld (doc : document) (fault : option write_fault)
    (events : list event) : world :=
  World doc fault events (fun _ => None).

Definition log (ev : event) (w : world) : world :=
  World (data_file w) (write_error w) (trace w ++ [ev]) (stdout_error w).

(** What a write leaves in the file. *)
Definition leave (doc : document) (w : world) : world :=
  World doc (write_error w) (trace w) (stdout_error w).

Definition overwrite (v : value) (w : world) : world := leave (Json v) w.

(** The error a failing write raises, and what it leaves in the file. *)
Definition fault_error (fault : write_fault) : exn :=
  match fault with
  | AtOpen e => e
  | AtDump e _ => e
  end.

Definition fault_leaves (fault : write_fault) (w : world) : world :=
  match fault with
  | AtOpen _ => w
  | AtDump _ cut => leave cut w
  end.

(** Appending several events at once. *)
Definition logs (evs : list event) (w : world) : world :=
  World (data_file w) (write_error w) (trace w ++ evs) (stdout_error w).

Definition is_save (ev : event) : bool :=
  match ev with
  | StoreSave _ => true
  | _ => false
  end.

(** No event of [evs] is a save. *)
Definition no_save (evs : list event) : bool :=
  forallb (fun ev => match ev with StoreSave _ => false | _ => true end) evs.

(** No event of [evs] touches the store: all are output. *)
Definition no_store_op (evs : list event) : bool :=
  forallb (fun ev => match ev with Print _ => true | _ => false end) evs.

(** [w] is [w0] after some more events, none of them a save: the document
    is the one [w0] had. *)
Definition extends_quietly (w0 w : world) : Prop :=
  exists evs, w = logs evs w0 /\ no_save evs = true.

(** [DATA_FILE.exists()]: the test itself raises when the path cannot be
    examined (no permission on a directory of the path, say). *)
Definition doc_exists (d : document) : result bool :=
  match d with
  | Missing => Ok false
  | Unreachable e => Raise e
  | Corrupt _ | Json _ => Ok true
  end.

(** [with open(DATA_FILE, 'r') as f: json.load(f)] *)
Definition read_json (d : document) : result value :=
  match d with
  | Missing => Raise OSError
  | Unreachable e => Raise e
  | Corrupt e => Raise e
  | Json v => Ok v
  end.

(** The body of the [try] in a fetch: request, read, decode, parse. *)
Definition http_get_json (r : response) : result value :=
  match r with
  | Failed e => Raise e
  | Payload v => Ok v
  end.

(* ================================================================== *)
(** ** band_tour_monitor.py *)
(* ================================================================== *)

Module BandTour.

Definition BANDS : list string := ["Metallica"; "Green Day"].

(** The [TourMonitor] object together with the world it acts on. *)
Record TourMonitor := mkMonitor {
  known_shows : value;
  new_shows : list value;
  env : world
}.

Definition on_env (f : world -> world) (s : TourMonitor) : TourMonitor :=
  mkMonitor (known_shows s) (new_shows s) (f (env s)).

Definition emit (ev : event) : M TourMonitor unit := modify (on_env (log ev)).

(** [print].  Lines of fixed text, counts and exception text always go
    through.  The line that announces an item shows text of the payload,
    and the stream raises on text it cannot encode. *)
Definition print (m : message) : M TourMonitor unit :=
  match m with
  | MsgNew item =>
      s <- get ;;
      match stdout_error (env s) item with
      | Some e => raise e
      | None => emit (Print m)
      end
  | _ => emit (Print m)
  end.

Definition load_known_shows : M TourMonitor value :=
  emit StoreLoad ;;
  s <- get ;;
  found <- lift (doc_exists (data_file (env s))) ;;
  if found then
    try_except (lift (read_json (data_file (env s))))
               (fun _ => ret (VDict []))
  else ret (VDict []).

(** [__init__] *)
Definition init : M TourMonitor unit :=
  known <- load_known_shows ;;
  modify (fun s => mkMonitor known [] (env s)).

(** [json.dump] into the reopened file: from then on the document reads
    back as the JSON image of the store.  A failure after the file was
    opened leaves it cut. *)
Definition save_known_shows : M TourMonitor unit :=
  s <- get ;;
  emit (StoreSave (known_shows s)) ;;
  match write_error (env s) with
  | Some (AtOpen e) => raise e
  | Some (AtDump e cut) => modify (on_env (leave cut)) ;; raise e
  | None => modify (on_env (overwrite (json_image (known_shows s))))
  end.

Definition fetch_shows (net : string -> response) (band : string)
  : M TourMonitor (list value) :=
  try_except
    (data <- lift (http_get_json (net band)) ;;
     ret (match data with VList l => l | _ => [] end))
    (fun e => print (MsgFetchError band e) ;; ret []).

Definition nc_indicators : list string :=
  [", nc"; ",nc"; "north carolina"; " nc "; " nc,"].

Definition is_in_north_carolina (venue city region : value) : result bool :=
  let location_text :=
    lower (py_str venue ++ " " ++ py_str city ++ " " ++ py_str region) in
  if existsb (fun indicator => str_contains indicator location_text)
             nc_indicators
  then Ok true
  else if py_truthy region then
    match region with
    | VStr r =>
        Ok (str_contains "nc" (lower r)
            || str_contains "north carolina" (lower r))%bool
    | _ => Raise AttributeError
    end
  else Ok false.

(** [show.get('id') or f"{band}-{show.get('datetime', '')}-{venue_name}"] *)
Definition show_id_of (band : string) (show venue_name : value)
  : result value :=
  match py_get show "id" VNone with
  | Raise e => Raise e
  | Ok id =>
      if py_truthy id then Ok id
      else
        match py_get show "datetime" (VStr EmptyString) with
        | Raise e => Raise e
        | Ok dt =>
            Ok (VStr (band ++ "-" ++ py_str dt ++ "-" ++ py_str venue_name))
        end
  end.

Definition make_show_info (band : string)
    (venue_name city region date url show_id : value) : value :=
  VDict [ (KStr "band", VStr band);
          (KStr "venue", venue_name);
          (KStr "city", city);
          (KStr "region", region);
          (KStr "date", date);
          (KStr "url", url);
          (KStr "show_id", show_id) ].

(** [show_id in self.known_shows] *)
Definition known_contains (show_id : value) : M TourMonitor bool :=
  emit (StoreContains show_id) ;;
  s <- get ;;
  lift (py_contains (known_shows s) show_id).

(** [self.new_shows.append(show_info)] *)
Definition append_new (show_info : value) : M TourMonitor unit :=
  modify (fun s => mkMonitor (known_shows s) (new_shows s ++ [show_info]) (env s)).

(** [self.known_shows[show_id] = show_info] *)
Definition known_upsert (show_id show_info : value) : M TourMonitor unit :=
  emit (StoreUpsert show_id show_info) ;;
  s <- get ;;
  known <- lift (py_setitem (known_shows s) show_id show_info) ;;
  modify (fun s => mkMonitor known (new_shows s) (env s)).

(** The body of the [try] inside the loop of [check_band]. *)
Definition check_show (band : string) (show : value) : M TourMonitor unit :=
  venue_data <- lift (py_get show "venue" (VDict [])) ;;
  venue_name <- lift (py_get venue_data "name" (VStr "Unknown Venue")) ;;
  city <- lift (py_get venue_data "city" (VStr EmptyString)) ;;
  region <- lift (py_get venue_data "region" (VStr EmptyString)) ;;
  country <- lift (py_get venue_data "country" (VStr EmptyString)) ;;
  in_nc <- lift (is_in_north_carolina venue_name city region) ;;
  if negb in_nc then ret tt
  else
    show_id <- lift (show_id_of band show venue_name) ;;
    seen <- known_contains show_id ;;
    if seen then ret tt
    else
      date <- lift (py_get show "datetime" (VStr "TBD")) ;;
      url <- lift (py_get show "url" (VStr EmptyString)) ;;
      let show_info :=
        make_show_info band venue_name city region date url show_id in
      append_new show_info ;;
      known_upsert show_id show_info ;;
      print (MsgNew show_info).

(** One iteration of the loop: the body under its handler. *)
Definition check_show_guarded (band : string) (show : value)
  : M TourMonitor unit :=
  try_except (check_show band show) (fun e => print (MsgItemError e)).

Definition check_band (net : string -> response) (band : string)
  : M TourMonitor unit :=
  print (MsgChecking band) ;;
  shows <- fetch_shows net band ;;
  for_each (check_show_guarded band) shows.

(** [run] returns the message rendered from [new_shows], or [None]; the
    rendering is the notifier's business, so the model returns the list
    it is rendered from. *)
Definition run (net : string -> response) : M TourMonitor (option (list value)) :=
  print MsgBanner ;;
  for_each (check_band net) BANDS ;;
  save_known_shows ;;
  s <- get ;;
  match new_shows s with
  | [] => print MsgNothingNew ;; ret None
  | _ :: _ => print (MsgFound (List.length (new_shows s))) ;;
              ret (Some (new_shows s))
  end.

(** A fresh process: construct the monitor, then run it. *)
Definition blank (w : world) : TourMonitor := mkMonitor VNone [] w.

Definition session (net : string -> response) (w : world)
  : result (option (list value)) * TourMonitor :=
  (init ;; run net) (blank w).

(** *** The loop body seen as a pure function

    The front half of [check_show] reads no state: it applies the
    filter, resolves the identifier and normalizes the record.  The
    definitions below restate the loop over a dictionary store as a
    fold; [check_show_dict] and [loop_on_dict] prove them equal to the
    code above. *)

Inductive verdict :=
| Rejected
| Candidate (show_id show_info : value).

Definition classify (band : string) (show : value) : result verdict :=
  venue_data <~ py_get show "venue" (VDict []) ;;
  venue_name <~ py_get venue_data "name" (VStr "Unknown Venue") ;;
  city <~ py_get venue_data "city" (VStr EmptyString) ;;
  region <~ py_get venue_data "region" (VStr EmptyString) ;;
  in_nc <~ is_in_north_carolina venue_name city region ;;
  if negb in_nc then Ok Rejected
  else
    show_id <~ show_id_of band show venue_name ;;
    date <~ py_get show "datetime" (VStr "TBD") ;;
    url <~ py_get show "url" (VStr EmptyString) ;;
    Ok (Candidate show_id
          (make_show_info band venue_name city region date url show_id)).

(** The back half: the membership test and, for an identifier that is
    new, the three statements that record and announce the item. *)
Definition record_show (show_id show_info : value) : M TourMonitor unit :=
  seen <- known_contains show_id ;;
  if seen then ret tt
  else
    append_new show_info ;;
    known_upsert show_id show_info ;;
    print (MsgNew show_info).

Definition check_show_on_dict (band : string) (show : value) (d : dict)
    (s : TourMonitor) : result unit * TourMonitor :=
  match classify band show with
  | Raise e => (Raise e, s)
  | Ok Rejected => (Ok tt, s)
  | Ok (Candidate id info) =>
      match hashable id with
      | None => (Raise TypeError, on_env (log (StoreContains id)) s)
      | Some k =>
          if dict_mem d k then (Ok tt, on_env (log (StoreContains id)) s)
          else
            let s1 :=
              mkMonitor (VDict (dict_set d k info)) (new_shows s ++ [info])
                (log (StoreUpsert id info)
                   (log (StoreContains id) (env s))) in
            match stdout_error (env s) info with
            | Some e => (Raise e, s1)
            | None => (Ok tt, on_env (log (Print (MsgNew info))) s1)
            end
      end
  end.

(** Store and delta after one candidate. *)
Definition detect_step (band : string) (acc : dict * list value)
    (show : value) : dict * list value :=
  match classify band show with
  | Ok (Candidate id info) =>
      match hashable id with
      | Some k =>
          if dict_mem (fst acc) k then acc
          else (dict_set (fst acc) k info, (snd acc ++ [info])%list)
      | None => acc
      end
  | _ => acc
  end.

(** Store and delta after a batch. *)
Definition detect (band : string) (shows : list value)
    (acc : dict * list value) : dict * list value :=
  fold_left (detect_step band) shows acc.

(** The invariant of everything before the save: the world has only
    gained events, none of them a save. *)
Definition quiet_since (w0 : world) (s : TourMonitor) : Prop :=
  extends_quietly w0 (env s).

(** Two monitors with the same store and the same delta, in worlds that
    differ by what was traced only. *)
Definition alike (s t : TourMonitor) : Prop :=
  known_shows s = known_shows t /\
  new_shows s = new_shows t /\
  data_file (env s) = data_file (env t) /\
  write_error (env s) = write_error (env t) /\
  stdout_error (env s) = stdout_error (env t).

(** The batch [fetch_shows] hands to the loop. *)
Definition shows_of (net : string -> response) (band : string) : list value :=
  match net band with
  | Payload (VList l) => l
  | _ => []
  end.

(** Store and delta after the batches of several bands in turn. *)
Definition detect_bands (net : string -> response) (bands : list string)
    (acc : dict * list value) : dict * list value :=
  fold_left (fun a band => detect band (shows_of net band) a) bands acc.

(** Store and delta after all of [BANDS]. *)
Definition detect_all (net : string -> response) (acc : dict * list value)
  : dict * list value :=
  detect_bands net BANDS acc.

End BandTour.

(* ================================================================== *)
(** ** hurricanes_monitor.py *)
(* ================================================================== *)

Module Hurricanes.

Definition TEAM_NAME : string := "Carolina Hurricanes".

Record HurricanesMonitor := mkMonitor {
  known_games : value;
  new_games : list value;
  env : world
}.

Definition on_env (f : world -> world) (s : HurricanesMonitor)
  : HurricanesMonitor :=
  mkMonitor (known_games s) (new_games s) (f (env s)).

Definition emit (ev : event) : M HurricanesMonitor unit :=
  modify (on_env (log ev)).

(** [print], as in the band monitor: only the line that announces a
    game shows text of the payload and can be refused by the stream. *)
Definition print (m : message) : M HurricanesMonitor unit :=
  match m with
  | MsgNew item =>
      s <- get ;;
      match stdout_error (env s) item with
      | Some e => raise e
      | None => emit (Print m)
      end
  | _ => emit (Print m)
  end.

Definition load_known_games : M HurricanesMonitor value :=
  emit StoreLoad ;;
  s <- get ;;
  found <- lift (doc_exists (data_file (env s))) ;;
  if found then
    try_except (lift (read_json (data_file (env s))))
               (fun _ => ret (VDict []))
  else ret (VDict []).

Definition init : M HurricanesMonitor unit :=
  known <- load_known_games ;;
  modify (fun s => mkMonitor known [] (env s)).

Definition save_known_games : M HurricanesMonitor unit :=
  s <- get ;;
  emit (StoreSave (known_games s)) ;;
  match write_error (env s) with
  | Some (AtOpen e) => raise e
  | Some (AtDump e cut) => modify (on_env (leave cut)) ;; raise e
  | None => modify (on_env (overwrite (json_image (known_games s))))
  end.

(** Returns the parsed payload, or [None] after reporting the error. *)
Definition fetch_schedule (net : response) : M HurricanesMonitor value :=
  try_except (lift (http_get_json net))
             (fun e => print (MsgFetchError TEAM_NAME e) ;; ret VNone).

Definition known_contains (game_id : value) : M HurricanesMonitor bool :=
  emit (StoreContains game_id) ;;
  s <- get ;;
  lift (py_contains (known_games s) game_id).

Definition append_new (game_info : value) : M HurricanesMonitor unit :=
  modify (fun s => mkMonitor (known_games s) (new_games s ++ [game_info]) (env s)).

Definition known_upsert (game_id game_info : value) : M HurricanesMonitor unit :=
  emit (StoreUpsert game_id game_info) ;;
  s <- get ;;
  known <- lift (py_setitem (known_games s) game_id game_info) ;;
  modify (fun s => mkMonitor known (new_games s) (env s)).

(** [game['teams'][side]['team']['name']] *)
Definition team_name (game : value) (side : string) : result value :=
  match py_getitem game "teams" with
  | Raise e => Raise e
  | Ok teams =>
      match py_getitem teams side with
      | Raise e => Raise e
      | Ok entry =>
          match py_getitem entry "team" with
          | Raise e => Raise e
          | Ok team => py_getitem team "name"
          end
      end
  end.

Definition make_game_info
    (game_id date game_time opponent location venue home_team away_team : value)
  : value :=
  VDict [ (KStr "game_id", game_id);
          (KStr "date", date);
          (KStr "time", game_time);
          (KStr "opponent", opponent);
          (KStr "location", location);
          (KStr "venue", venue);
          (KStr "home_team", home_team);
          (KStr "away_team", away_team) ].

(** The body of the inner loop of [check_games]. *)
Definition check_game (date game : value) : M HurricanesMonitor unit :=
  pk <- lift (py_getitem game "gamePk") ;;
  let game_id := VStr (py_str pk) in
  seen <- known_contains game_id ;;
  if seen then ret tt
  else
    home_team <- lift (team_name game "home") ;;
    away_team <- lift (team_name game "away") ;;
    venue_data <- lift (py_get game "venue" (VDict [])) ;;
    venue <- lift (py_get venue_data "name" (VStr "TBD")) ;;
    game_time <- lift (py_get game "gameDate" (VStr "TBD")) ;;
    let is_home := py_eq home_team (VStr TEAM_NAME) in
    let opponent := if is_home then away_team else home_team in
    let location := VStr (if is_home then "Home" else "Away") in
    let game_info :=
      make_game_info game_id date game_time opponent location venue
                     home_team away_team in
    append_new game_info ;;
    known_upsert game_id game_info ;;
    print (MsgNew game_info).

(** The body of the outer loop of [check_games]. *)
Definition check_date (date_info : value) : M HurricanesMonitor unit :=
  date <- lift (py_getitem date_info "date") ;;
  games <- lift (py_getitem date_info "games") ;;
  games <- lift (py_iter games) ;;
  for_each (check_game date) games.

(** [not schedule or 'dates' not in schedule] *)
Definition no_schedule (schedule : value) : result bool :=
  if negb (py_truthy schedule) then Ok true
  else
    match py_contains schedule (VStr "dates") with
    | Raise e => Raise e
    | Ok b => Ok (negb b)
    end.

Definition check_games (net : response) : M HurricanesMonitor unit :=
  schedule <- fetch_schedule net ;;
  absent <- lift (no_schedule schedule) ;;
  if absent then print MsgNoData
  else
    dates <- lift (py_getitem schedule "dates") ;;
    dates <- lift (py_iter dates) ;;
    for_each check_date dates.

Definition run (net : response) : M HurricanesMonitor (option (list value)) :=
  print MsgBanner ;;
  check_games net ;;
  s <- get ;;
  match new_games s with
  | _ :: _ =>
      print (MsgFound (List.length (new_games s))) ;;
      save_known_games ;;
      ret (Some (new_games s))
  | [] => print MsgNothingNew ;; ret None
  end.

Definition blank (w : world) : HurricanesMonitor := mkMonitor VNone [] w.

Definition session (net : response) (w : world)
  : result (option (list value)) * HurricanesMonitor :=
  (init ;; run net) (blank w).

(** *** The loop body seen as a pure function *)

(** Everything [check_game] computes after the membership test. *)
Definition game_info_of (date game game_id : value) : result value :=
  home_team <~ team_name game "home" ;;
  away_team <~ team_name game "away" ;;
  venue_data <~ py_get game "venue" (VDict []) ;;
  venue <~ py_get venue_data "name" (VStr "TBD") ;;
  game_time <~ py_get game "gameDate" (VStr "TBD") ;;
  let is_home := py_eq home_team (VStr TEAM_NAME) in
  let opponent := if is_home then away_team else home_team in
  let location := VStr (if is_home then "Home" else "Away") in
  Ok (make_game_info game_id date game_time opponent location venue
                     home_team away_team).

Definition quiet_since (w0 : world) (s : HurricanesMonitor) : Prop :=
  extends_quietly w0 (env s).

(** Relative to a store [d0] and a delta [n0]: the store is a dictionary
    that still maps every key of [d0] to the record [d0] had, and every
    item the delta gained carries an identifier [d0] did not have. *)
Definition grown_from (d0 : dict) (n0 : list value) (s : HurricanesMonitor)
  : Prop :=
  exists d,
    known_games s = VDict d /\
    (forall k rec, dict_get d0 k = Some rec -> dict_get d k = Some rec) /\
    (forall item,
        In item (new_games s) ->
        In item n0 \/
        exists gid,
          item_field item "game_id" = Some (VStr gid) /\
          dict_get d0 (KStr gid) = None).

Definition check_game_on_dict (date game : value) (d : dict)
    (s : HurricanesMonitor) : result unit * HurricanesMonitor :=
  match py_getitem game "gamePk" with
  | Raise e => (Raise e, s)
  | Ok pk =>
      let game_id := VStr (py_str pk) in
      let s1 := on_env (log (StoreContains game_id)) s in
      if dict_mem d (KStr (py_str pk)) then (Ok tt, s1)
      else
        match game_info_of date game game_id with
        | Raise e => (Raise e, s1)
        | Ok info =>
            let s2 :=
              mkMonitor (VDict (dict_set d (KStr (py_str pk)) info))
                (new_games s ++ [info])
                (log (StoreUpsert game_id info) (env s1)) in
            match stdout_error (env s) info with
            | Some e => (Raise e, s2)
            | None => (Ok tt, on_env (log (Print (MsgNew info))) s2)
            end
        end
  end.

End Hurricanes.

(* ================================================================== *)
(** ** comic_events_monitor.py *)
(* ================================================================== *)

Module ComicEvents.

Definition LOCATIONS : list string :=
  ["NC"; "North Carolina"; "Raleigh"; "Charlotte"; "Durham"; "Greensboro";
   "Asheville"; "Wilmington"].

Record ComicEventsMonitor := mkMonitor {
  known_events : value;
  new_events : list value;
  env : world
}.

Definition on_env (f : world -> world) (s : ComicEventsMonitor)
  : ComicEventsMonitor :=
  mkMonitor (known_events s) (new_events s) (f (env s)).

Definition emit (ev : event) : M ComicEventsMonitor unit :=
  modify (on_env (log ev)).

Definition load_known_events : M ComicEventsMonitor value :=
  emit StoreLoad ;;
  s <- get ;;
  found <- lift (doc_exists (data_file (env s))) ;;
  if found then
    try_except (lift (read_json (data_file (env s))))
               (fun _ => ret (VDict []))
  else ret (VDict []).

(** [any(loc.lower() in location_lower for loc in LOCATIONS)] *)
Definition is_nc_event (event_location : string) : bool :=
  let location_lower := lower event_location in
  existsb (fun loc => str_contains (lower loc) location_lower) LOCATIONS.

End ComicEvents.

(* ================================================================== *)
(** ** Vocabulary of the statements *)
(* ================================================================== *)

(** The store a monitor holds once it is constructed, given the document
    on disk; [VNone] when the constructor did not finish. *)
Definition loaded (d : document) : value :=
  match d with
  | Json v => v
  | Missing | Corrupt _ => VDict []
  | Unreachable _ => VNone
  end.

(** [c] keeps [I] true whether it returns or raises. *)
Definition preserves {S A : Type} (I : S -> Prop) (c : M S A) : Prop :=
  forall s, I s -> I (snd (c s)).

(** [c] never raises. *)
Definition returns {S A : Type} (c : M S A) : Prop :=
  forall s, exists a, fst (c s) = Ok a.


(** [l1] is [l2] with some elements left out, the order kept. *)
Inductive subseq {A : Type} : list A -> list A -> Prop :=
| subseq_nil : subseq [] []
| subseq_skip (x : A) (l1 l2 : list A) : subseq l1 l2 -> subseq l1 (x :: l2)
| subseq_take (x : A) (l1 l2 : list A) :
    subseq l1 l2 -> subseq (x :: l1) (x :: l2).

(** *** Values as [json.load] returns them *)

Definition text_keys (d : dict) : bool :=
  forallb (fun p => match fst p with KStr _ => true | _ => false end) d.

Fixpoint distinct_keys (d : dict) : bool :=
  match d with
  | [] => true
  | (k, _) :: t => (negb (dict_mem t k) && distinct_keys t)%bool
  end.

(** Every object has text keys, no two of them equal, at every depth. *)
Fixpoint json_wf (v : value) : bool :=
  match v with
  | VList l => forallb json_wf l
  | VDict d =>
      (text_keys d && distinct_keys d
       && forallb (fun p => json_wf (snd p)) d)%bool
  | _ => true
  end.

Module BandView.
Import BandTour.

(** The records the candidates of a batch normalize to, in batch order:
    one for each candidate that passes the filter. *)
Definition candidate_infos (band : string) (shows : list value) : list value :=
  flat_map (fun show =>
              match classify band show with
              | Ok (Candidate _ info) => [info]
              | _ => []
              end) shows.

(** The same over the batches of several bands in turn. *)
Definition all_candidate_infos (net : string -> response)
    (bands : list string) : list value :=
  flat_map (fun band => candidate_infos band (shows_of net band)) bands.

(** [item] is what some candidate of [band]'s batch normalizes to, and
    [k] is the key its identifier hashes to. *)
Definition recorded_from (net : string -> response) (band : string)
    (k : key) (item : value) : Prop :=
  exists show id,
    In show (shows_of net band) /\
    classify band show = Ok (Candidate id item) /\
    hashable id = Some k.

End BandView.

Module GamesView.
Import Hurricanes.

(** Every game of the list carries a [gamePk] whose text is a key of [d]. *)
Definition games_known (d : dict) (games : list value) : Prop :=
  forall game,
    In game games ->
    exists pk,
      py_getitem game "gamePk" = Ok pk /\
      dict_mem d (KStr (py_str pk)) = true.

(** Every entry of the list has a date and an iterable of games, all of
    them known to [d]. *)
Definition dates_known (d : dict) (dates : list value) : Prop :=
  forall date_info,
    In date_info dates ->
    exists date games_value games,
      py_getitem date_info "date" = Ok date /\
      py_getitem date_info "games" = Ok games_value /\
      py_iter games_value = Ok games /\
      games_known d games.

End GamesView.

(* ================================================================== *)
(** ** comic_events_monitor.py, the rest *)
(* ================================================================== *)

Module ComicRun.
Import ComicEvents.

Definition KEYWORDS : list string :=
  ["comic"; "comicon"; "comic con"; "graphic novel"; "anime"; "cosplay";
   "marvel"; "dc comics"].

(** [any(keyword in text for keyword in KEYWORDS)] *)
Definition is_comic_related (event_title event_description : string) : bool :=
  let text := lower (event_title ++ " " ++ event_description) in
  existsb (fun keyword => str_contains keyword text) KEYWORDS.

(** One entry of [major_cons]. *)
Record convention := mkCon {
  name : string;
  location : string;
  venue : string;
  typical_month : string;
  url : string
}.

Definition major_cons : list convention :=
  [ mkCon "Heroes Convention" "Charlotte, NC" "Charlotte Convention Center"
          "June" "https://heroesonline.com/heroescon/";
    mkCon "Animazement" "Raleigh, NC" "Raleigh Convention Center"
          "May" "https://www.animazement.org/";
    mkCon "Supercon" "Raleigh, NC" "Raleigh Convention Center"
          "July" "https://www.raleighsupercon.com/";
    mkCon "Oak City Comicon" "Raleigh, NC" "NC State Fairgrounds"
          "October" EmptyString;
    mkCon "Charlotte Comicon" "Charlotte, NC"
          "Hilton Charlotte University Place"
          "Various" "http://www.charlottecomicon.com/" ].

(** What [datetime.now()] gives while the loop of [check_manual_events]
    is at the convention number [i]: the year when the identifier is
    built, the month name when the season is tested. *)
Record clock := mkClock {
  year_at : nat -> Z;
  month_at : nat -> string
}.

(** [print]: every line of this monitor is fixed text or text of the
    script's own table of conventions. *)
Definition print (m : message) : M ComicEventsMonitor unit := emit (Print m).

(** [con_id not in self.known_events], read positively *)
Definition known_contains (con_id : value) : M ComicEventsMonitor bool :=
  emit (StoreContains con_id) ;;
  s <- get ;;
  lift (py_contains (known_events s) con_id).

Definition append_new (event : value) : M ComicEventsMonitor unit :=
  modify (fun s => mkMonitor (known_events s) (new_events s ++ [event]) (env s)).

Definition known_upsert (con_id event : value) : M ComicEventsMonitor unit :=
  emit (StoreUpsert con_id event) ;;
  s <- get ;;
  known <- lift (py_setitem (known_events s) con_id event) ;;
  modify (fun s => mkMonitor known (new_events s) (env s)).

(** [f"{con['name']}-{datetime.now().year}"] *)
Definition con_id_of (con : convention) (year : Z) : string :=
  name con ++ "-" ++ decimal year.

Definition make_event (con : convention) (con_id : string) : value :=
  VDict [ (KStr "id", VStr con_id);
          (KStr "name", VStr (name con));
          (KStr "location", VStr (location con));
          (KStr "venue", VStr (venue con));
          (KStr "url", VStr (url con));
          (KStr "date", VStr "TBD");
          (KStr "source", VStr "Convention Tracker") ].

(** [con['typical_month'] == current_month or con['typical_month'] == 'Various'] *)
Definition in_season (con : convention) (current_month : string) : bool :=
  (String.eqb (typical_month con) current_month
   || String.eqb (typical_month con) "Various")%bool.

(** The body of the loop of [check_manual_events], at convention [i]. *)
Definition check_con (now : clock) (i : nat) (con : convention)
  : M ComicEventsMonitor unit :=
  let con_id := con_id_of con (year_at now i) in
  seen <- known_contains (VStr con_id) ;;
  if seen then ret tt
  else
    let event := make_event con con_id in
    let current_month := month_at now i in
    if in_season con current_month then
      append_new event ;;
      known_upsert (VStr con_id) event ;;
      print (MsgNew event)
    else ret tt.

(** [for con in cons], keeping count of the position for the clock. *)
Fixpoint check_cons (now : clock) (i : nat) (cons : list convention)
  : M ComicEventsMonitor unit :=
  match cons with
  | [] => ret tt
  | con :: rest => check_con now i con ;; check_cons now (S i) rest
  end.

Definition check_manual_events (now : clock) : M ComicEventsMonitor unit :=
  check_cons now 0 major_cons.

Definition check_local_comic_shops : M ComicEventsMonitor unit :=
  print (MsgChecking "local comic shops").

Definition save_known_events : M ComicEventsMonitor unit :=
  s <- get ;;
  emit (StoreSave (known_events s)) ;;
  match write_error (env s) with
  | Some (AtOpen e) => raise e
  | Some (AtDump e cut) => modify (on_env (leave cut)) ;; raise e
  | None => modify (on_env (overwrite (json_image (known_events s))))
  end.

Definition run (now : clock) : M ComicEventsMonitor (option (list value)) :=
  print MsgBanner ;;
  check_manual_events now ;;
  check_local_comic_shops ;;
  save_known_events ;;
  s <- get ;;
  match new_events s with
  | _ :: _ => print (MsgFound (List.length (new_events s))) ;;
              ret (Some (new_events s))
  | [] => print MsgNothingNew ;; ret None
  end.

(** [__init__] *)
Definition init : M ComicEventsMonitor unit :=
  known <- load_known_events ;;
  modify (fun s => mkMonitor known [] (env s)).

Definition blank (w : world) : ComicEventsMonitor := mkMonitor VNone [] w.

Definition session (now : clock) (w : world)
  : result (option (list value)) * ComicEventsMonitor :=
  (init ;; run now) (blank w).

(** A clock that shows one year and one month all through a run. *)
Definition steady (year : Z) (month : string) : clock :=
  mkClock (fun _ => year) (fun _ => month).

(** The conventions a run in [month] of [year] examines and finds both
    in season and not yet in the store [d]. *)
Definition fresh_cons (d : dict) (year : Z) (month : string)
    (cons : list convention) : list convention :=
  filter (fun con =>
            (in_season con month
             && negb (dict_mem d (KStr (con_id_of con year))))%bool) cons.

Definition con_entry (year : Z) (con : convention) : key * value :=
  (KStr (con_id_of con year), make_event con (con_id_of con year)).

End ComicRun.

(* ================================================================== *)
(** ** band_tour_monitor.py: the Telegram notifier *)
(* ================================================================== *)

Module Telegram.

(** What the notifier prints, by kind and by the data the lines show. *)
Inductive notice :=
| NotConfigured                    (* credentials not set, and what to set *)
| Unsent (message : value)         (* the message that would have been sent *)
| Sent                             (* Telegram message sent successfully! *)
| ApiError (result : value)        (* Telegram API error: result *)
| SendFailed (e : exn)             (* Failed to send Telegram message: e *)
| ConfigSaved (token chat_id : string).

Inductive action :=
| Say (n : notice)
| Post (url : string) (data : value).   (* urlopen of the POST request *)

(** What the notifier touches outside the process. *)
Record host := Host {
  environ : list (string * string);      (* os.environ *)
  config_file : document;                (* ~/.band_tour_config.json *)
  config_write_error : option write_fault;
                                         (* how writing config_file fails *)
  api : string -> value -> response;     (* the exchange, by URL and posted data *)
  actions : list action;
  message_error : value -> option exn
      (* Some e: the message has text the output stream cannot encode,
         and print(message) raises e *)
}.

(** A host whose output stream takes every message. *)
Definition mkHost (vars : list (string * string)) (doc : document)
    (fault : option write_fault) (bot : string -> value -> response)
    (done : list action) : host :=
  Host vars doc fault bot done (fun _ => None).

Definition act (a : action) : M host unit :=
  modify (fun h => Host (environ h) (config_file h) (config_write_error h)
                        (api h) (actions h ++ [a]) (message_error h)).

(** [print] of a line of fixed text, or of text read from the keyboard
    or made by [repr]. *)
Definition say (n : notice) : M host unit := act (Say n).

(** [print(message)] *)
Definition show (message : value) : M host unit :=
  h <- get ;;
  match message_error h message with
  | Some e => raise e
  | None => say (Unsent message)
  end.

(** [os.environ.get(name)] *)
Fixpoint env_get (e : list (string * string)) (name : string) : option string :=
  match e with
  | [] => None
  | (n, v) :: t => if String.eqb n name then Some v else env_get t name
  end.

Fixpoint env_set (e : list (string * string)) (name v : string)
  : list (string * string) :=
  match e with
  | [] => [(name, v)]
  | (n, v') :: t =>
      if String.eqb n name then (n, v) :: t else (n, v') :: env_set t name v
  end.

Definition nul : ascii := ascii_of_nat 0.

(** [os.environ[name] = v]: refused with [TypeError] when [v] is not
    text and with [ValueError] when the text has a null byte. *)
Definition putenv (name : string) (v : value) : M host unit :=
  match v with
  | VStr t =>
      if has_char nul t then raise ValueError
      else modify (fun h => Host (env_set (environ h) name t) (config_file h)
                                 (config_write_error h) (api h) (actions h)
                                 (message_error h))
  | _ => raise TypeError
  end.

(** [arg or os.environ.get(name)] *)
Definition or_environ (arg : value) (name : string) : M host value :=
  if py_truthy arg then ret arg
  else
    h <- get ;;
    ret (match env_get (environ h) name with
         | Some t => VStr t
         | None => VNone
         end).

Definition send_url (bot_token : value) : string :=
  "https://api.telegram.org/bot" ++ py_str bot_token ++ "/sendMessage".

Definition send_data (message chat_id : value) : value :=
  VDict [ (KStr "chat_id", chat_id);
          (KStr "text", message);
          (KStr "parse_mode", VStr "Markdown");
          (KStr "disable_web_page_preview", VBool false) ].

Definition send_telegram_message (message bot_token chat_id : value)
  : M host bool :=
  bot_token <- or_environ bot_token "TELEGRAM_BOT_TOKEN" ;;
  chat_id <- or_environ chat_id "TELEGRAM_CHAT_ID" ;;
  if (negb (py_truthy bot_token) || negb (py_truthy chat_id))%bool then
    say NotConfigured ;;
    show message ;;
    ret false
  else
    try_except
      (let url := send_url bot_token in
       let data := send_data message chat_id in
       act (Post url data) ;;
       h <- get ;;
       result <- lift (http_get_json (api h url data)) ;;
       ok <- lift (py_get result "ok" VNone) ;;
       if py_truthy ok then say Sent ;; ret true
       else say (ApiError result) ;; ret false)
      (fun e => say (SendFailed e) ;; ret false).

Definition load_telegram_config : M host bool :=
  h <- get ;;
  found <- lift (doc_exists (config_file h)) ;;
  if found then
    try_except
      (config <- lift (read_json (config_file h)) ;;
       bot_token <- lift (py_get config "bot_token" (VStr EmptyString)) ;;
       putenv "TELEGRAM_BOT_TOKEN" bot_token ;;
       chat_id <- lift (py_get config "chat_id" (VStr EmptyString)) ;;
       putenv "TELEGRAM_CHAT_ID" chat_id ;;
       ret true)
      (fun _ => ret false)
  else ret false.

Definition with_config (doc : document) (h : host) : host :=
  Host (environ h) doc (config_write_error h) (api h) (actions h)
       (message_error h).

(** [setup_telegram] from the point where both answers have been read
    and stripped: [token] and [chat_id] are those two texts. *)
Definition setup_telegram (token chat_id : string) : M host unit :=
  h <- get ;;
  match config_write_error h with
  | Some (AtOpen e) => raise e
  | Some (AtDump e cut) => modify (with_config cut) ;; raise e
  | None =>
      modify (with_config
                (Json (json_image
                         (VDict [ (KStr "bot_token", VStr token);
                                  (KStr "chat_id", VStr chat_id) ])))) ;;
      say (ConfigSaved token chat_id)
  end.

(** [main]: the configuration is loaded, then the message goes out with
    no credentials passed. *)
Definition load_then_send (message : value) : M host bool :=
  load_telegram_config ;;
  send_telegram_message message VNone VNone.

(** The requests among some actions. *)
Definition posts (l : list action) : list (string * value) :=
  flat_map (fun a => match a with Post url data => [(url, data)] | Say _ => [] end) l.

(** The credential a call works with. *)
Definition credential (arg : value) (h : host) (name : string) : value :=
  if py_truthy arg then arg
  else match env_get (environ h) name with
       | Some t => VStr t
       | None => VNone
       end.

(** The exchange answers with an object whose [ok] is true. *)
Definition accepted (r : response) : bool :=
  match r with
  | Payload (VDict d) =>
      match dict_get d (KStr "ok") with
      | Some ok => py_truthy ok
      | None => false
      end
  | _ => false
  end.

(** The text [load_telegram_config] can put in the environment for the
    field [name] of the configuration object [c]: the field when it is
    text without a null byte, the empty text when it is absent. *)
Definition config_text (c : dict) (name : string) : option string :=
  match dict_get c (KStr name) with
  | None => Some EmptyString
  | Some (VStr t) => if has_char nul t then None else Some t
  | Some _ => None
  end.

(** Both credentials are there. *)
Definition configured (bot_token chat_id : value) : bool :=
  (py_truthy bot_token && py_truthy chat_id)%bool.

Definition with_actions (h : host) (l : list action) : host :=
  Host (environ h) (config_file h) (config_write_error h) (api h)
       (actions h ++ l) (message_error h).

Definition with_environ (h : host) (e : list (string * string)) : host :=
  Host e (config_file h) (config_write_error h) (api h) (actions h)
       (message_error h).

(** What the exchange leads to, once both credentials are there: the
    value returned and the line printed. *)
Definition outcome (r : response) : bool * notice :=
  match r with
  | Failed e => (false, SendFailed e)
  | Payload result =>
      match py_get result "ok" VNone with
      | Raise e => (false, SendFailed e)
      | Ok ok => if py_truthy ok then (true, Sent) else (false, ApiError result)
      end
  end.

End Telegram.

(* ================================================================== *)
(** ** Facts about dictionaries *)
(* ================================================================== *)

Section Dictionaries.

Lemma key_eqb_norm (a b : key) :
  key_eqb a b = true <-> key_norm a = key_norm b.
Proof.
  destruct a as [|x|x|x], b as [|y|y|y]; cbn; split; intros H;
    try discriminate; try reflexivity;
    try (apply Z.eqb_eq in H; congruence);
    try (apply Z.eqb_eq; congruence);
    try (apply String.eqb_eq in H; congruence);
    try (apply String.eqb_eq; congruence).
Qed.

Lemma key_eqb_refl (k : key) : key_eqb k k = true.
Proof. apply key_eqb_norm; reflexivity. Qed.

Lemma key_eqb_sym (a b : key) : key_eqb a b = key_eqb b a.
Proof.
  destruct (key_eqb a b) eqn:E, (key_eqb b a) eqn:E'; try reflexivity.
  - apply key_eqb_norm in E. symmetry in E. apply key_eqb_norm in E. congruence.
  - apply key_eqb_norm in E'. symmetry in E'. apply key_eqb_norm in E'. congruence.
Qed.

Lemma key_eqb_trans (a b c : key) :
  key_eqb a b = true -> key_eqb b c = true -> key_eqb a c = true.
Proof.
  rewrite !key_eqb_norm. congruence.
Qed.

Lemma key_eqb_cong (a b c : key) :
  key_eqb a b = true -> key_eqb a c = key_eqb b c.
Proof.
  intros H. destruct (key_eqb b c) eqn:E.
  - eapply key_eqb_trans; eassumption.
  - destruct (key_eqb a c) eqn:E'; [|reflexivity].
    rewrite key_eqb_sym in H.
    rewrite (key_eqb_trans _ _ _ H E') in E. discriminate.
Qed.

Lemma dict_get_cong (d : dict) (a b : key) :
  key_eqb a b = true -> dict_get d a = dict_get d b.
Proof.
  intros H. induction d as [|[k v] d IH]; cbn; [reflexivity|].
  rewrite (key_eqb_cong _ _ _ H), IH. reflexivity.
Qed.

Lemma dict_get_set_same (d : dict) (k : key) (v : value) :
  dict_get (dict_set d k v) k = Some v.
Proof.
  induction d as [|[k' v'] d IH]; cbn.
  - rewrite key_eqb_refl. reflexivity.
  - destruct (key_eqb k k') eqn:E; cbn; rewrite E; [reflexivity|exact IH].
Qed.

Lemma dict_get_set_other (d : dict) (k k' : key) (v : value) :
  key_eqb k' k = false -> dict_get (dict_set d k v) k' = dict_get d k'.
Proof.
  intros H. induction d as [|[k0 v0] d IH]; cbn.
  - rewrite H. reflexivity.
  - destruct (key_eqb k k0) eqn:E; cbn.
    + destruct (key_eqb k' k0) eqn:E'; [|reflexivity].
      rewrite key_eqb_sym in E.
      rewrite (key_eqb_trans _ _ _ E' E) in H. discriminate.
    + rewrite IH. reflexivity.
Qed.

(** Writing under an absent key leaves every present entry as it was. *)
Lemma dict_set_frame (d : dict) (k k' : key) (v v' : value) :
  dict_get d k = None -> dict_get d k' = Some v' ->
  dict_get (dict_set d k v) k' = Some v'.
Proof.
  intros Hnew Hold. rewrite dict_get_set_other; [exact Hold|].
  destruct (key_eqb k' k) eqn:E; [|reflexivity].
  rewrite (dict_get_cong d _ _ E) in Hold. congruence.
Qed.

Lemma dict_set_new (d : dict) (k : key) (v : value) :
  dict_get d k = None -> dict_set d k v = (d ++ [(k, v)])%list.
Proof.
  induction d as [|[k' v'] d IH]; cbn; [reflexivity|].
  destruct (key_eqb k k'); [discriminate|].
  intros H. rewrite IH by exact H. reflexivity.
Qed.

Lemma dict_count_absent (d : dict) (k : key) :
  dict_get d k = None -> dict_count d k = 0%nat.
Proof.
  unfold dict_count. induction d as [|[k' v'] d IH]; cbn; [reflexivity|].
  destruct (key_eqb k k'); [discriminate|exact IH].
Qed.

Lemma dict_count_set_new (d : dict) (k : key) (v : value) :
  dict_get d k = None -> dict_count (dict_set d k v) k = 1%nat.
Proof.
  intros H. rewrite dict_set_new by exact H.
  unfold dict_count. rewrite filter_app, length_app.
  fold (dict_count d k). rewrite dict_count_absent by exact H.
  cbn. rewrite key_eqb_refl. reflexivity.
Qed.

Lemma dict_mem_get (d : dict) (k : key) :
  dict_mem d k = false <-> dict_get d k = None.
Proof.
  unfold dict_mem. destruct (dict_get d k); split; congruence.
Qed.

Lemma dict_mem_set (d : dict) (k k' : key) (v : value) :
  dict_mem d k' = true -> dict_mem (dict_set d k v) k' = true.
Proof.
  unfold dict_mem. intros H.
  destruct (key_eqb k' k) eqn:E.
  - rewrite (dict_get_cong _ _ _ E), dict_get_set_same. reflexivity.
  - rewrite dict_get_set_other by exact E. exact H.
Qed.

Lemma dict_mem_set_same (d : dict) (k : key) (v : value) :
  dict_mem (dict_set d k v) k = true.
Proof. unfold dict_mem. rewrite dict_get_set_same. reflexivity. Qed.

End Dictionaries.

(* ================================================================== *)
(** ** Facts about the monad *)
(* ================================================================== *)

Section Monad.

Context {S : Type}.

Lemma preserves_ret {A} (I : S -> Prop) (a : A) : preserves I (ret a).
Proof. intros s H. exact H. Qed.

Lemma preserves_lift {A} (I : S -> Prop) (r : result A) : preserves I (lift r).
Proof. intros s H. exact H. Qed.

Lemma preserves_get (I : S -> Prop) : preserves I get.
Proof. intros s H. exact H. Qed.

Lemma preserves_modify (I : S -> Prop) (f : S -> S) :
  (forall s, I s -> I (f s)) -> preserves I (modify f).
Proof. intros Hf s H. apply Hf, H. Qed.

Lemma preserves_bind {A B} (I : S -> Prop) (c : M S A) (k : A -> M S B) :
  preserves I c -> (forall a, preserves I (k a)) -> preserves I (bind c k).
Proof.
  intros Hc Hk s H. unfold bind. specialize (Hc s H).
  destruct (c s) as [[a|e] s']; cbn in *; [apply Hk, Hc|exact Hc].
Qed.

Lemma preserves_try_except {A} (I : S -> Prop) (c : M S A) (h : exn -> M S A) :
  preserves I c -> (forall e, preserves I (h e)) -> preserves I (try_except c h).
Proof.
  intros Hc Hh s H. unfold try_except. specialize (Hc s H).
  destruct (c s) as [[a|e] s']; cbn in *; [exact Hc|apply Hh, Hc].
Qed.

Lemma preserves_for_each {A} (I : S -> Prop) (body : A -> M S unit) (l : list A) :
  (forall x, preserves I (body x)) -> preserves I (for_each body l).
Proof.
  intros Hb. induction l as [|x t IH]; cbn [for_each].
  - apply preserves_ret.
  - apply preserves_bind; [apply Hb|intros _; exact IH].
Qed.

Lemma returns_ret {A} (a : A) : returns (S:=S) (ret a).
Proof. intros s. exists a. reflexivity. Qed.

Lemma returns_modify (f : S -> S) : returns (modify f).
Proof. intros s. exists tt. reflexivity. Qed.

Lemma returns_bind {A B} (c : M S A) (k : A -> M S B) :
  returns c -> (forall a, returns (k a)) -> returns (bind c k).
Proof.
  intros Hc Hk s. unfold bind. destruct (Hc s) as [a Ha].
  destruct (c s) as [[a'|e] s']; cbn in Ha; [apply Hk|discriminate].
Qed.

Lemma returns_try_except {A} (c : M S A) (h : exn -> M S A) :
  (forall e, returns (h e)) -> returns (try_except c h).
Proof.
  intros Hh s. unfold try_except.
  destruct (c s) as [[a|e] s']; [exists a; reflexivity|apply Hh].
Qed.

Lemma returns_for_each {A} (body : A -> M S unit) (l : list A) :
  (forall x, returns (body x)) -> returns (for_each body l).
Proof.
  intros Hb. induction l as [|x t IH]; cbn [for_each].
  - apply returns_ret.
  - apply returns_bind; [apply Hb|intros _; exact IH].
Qed.

(** A loop whose body returns unfolds one iteration at a time. *)
Lemma for_each_cons_ok {A} (body : A -> M S unit) (x : A) (t : list A) (s s' : S) :
  body x s = (Ok tt, s') -> for_each body (x :: t) s = for_each body t s'.
Proof. intros H. cbn [for_each]. unfold bind. rewrite H. reflexivity. Qed.

Lemma for_each_app_ok {A} (body : A -> M S unit) (l1 l2 : list A) (s s' : S) :
  for_each body l1 s = (Ok tt, s') ->
  for_each body (l1 ++ l2) s = for_each body l2 s'.
Proof.
  revert s. induction l1 as [|x t IH]; intros s H; cbn [for_each app] in *.
  - unfold ret in H. congruence.
  - unfold bind in *. destruct (body x s) as [[[]|e] s1]; [|discriminate].
    apply IH, H.
Qed.

End Monad.

Section Worlds.

Lemma logs_nil (w : world) : logs [] w = w.
Proof. destruct w; unfold logs; cbn. rewrite app_nil_r. reflexivity. Qed.

Lemma log_logs (ev : event) (evs : list event) (w : world) :
  log ev (logs evs w) = logs (evs ++ [ev]) w.
Proof. unfold log, logs; cbn. rewrite app_assoc. reflexivity. Qed.

Lemma logs_logs (evs1 evs2 : list event) (w : world) :
  logs evs2 (logs evs1 w) = logs (evs1 ++ evs2) w.
Proof. unfold logs; cbn. rewrite app_assoc. reflexivity. Qed.

Lemma log_as_logs (ev : event) (w : world) : log ev w = logs [ev] w.
Proof. reflexivity. Qed.

Lemma no_save_app (a b : list event) :
  no_save (a ++ b) = (no_save a && no_save b)%bool.
Proof. apply forallb_app. Qed.

Lemma no_store_op_no_save (evs : list event) :
  no_store_op evs = true -> no_save evs = true.
Proof.
  unfold no_store_op, no_save. rewrite !forallb_forall.
  intros H ev Hin. specialize (H ev Hin). destruct ev; congruence.
Qed.

Lemma extends_quietly_refl (w : world) : extends_quietly w w.
Proof. exists []. rewrite logs_nil. split; reflexivity. Qed.

Lemma extends_quietly_log (w0 w : world) (ev : event) :
  is_save ev = false -> extends_quietly w0 w -> extends_quietly w0 (log ev w).
Proof.
  intros Hev (evs & -> & Hq). exists (evs ++ [ev])%list. split.
  - apply log_logs.
  - rewrite no_save_app, Hq. destruct ev; try discriminate; reflexivity.
Qed.

Lemma extends_quietly_trans (w0 w1 w2 : world) :
  extends_quietly w0 w1 -> extends_quietly w1 w2 -> extends_quietly w0 w2.
Proof.
  intros (e1 & -> & H1) (e2 & -> & H2). exists (e1 ++ e2)%list. split.
  - apply logs_logs.
  - rewrite no_save_app, H1, H2. reflexivity.
Qed.

Lemma extends_quietly_file (w0 w : world) :
  extends_quietly w0 w ->
  data_file w = data_file w0 /\ write_error w = write_error w0.
Proof. intros (evs & -> & _). split; reflexivity. Qed.

End Worlds.

(* ================================================================== *)
(** ** The band monitor's loop *)
(* ================================================================== *)

Module BandFacts.
Import BandTour.

(** The loop body is the front half, then the back half: the candidate
    is read, filtered and identified without a look at the state. *)
Lemma check_show_classified (band : string) (show : value) (s : TourMonitor) :
  check_show band show s =
    match classify band show with
    | Raise e => (Raise e, s)
    | Ok Rejected => (Ok tt, s)
    | Ok (Candidate id info) => record_show id info s
    end.
Proof.
  unfold check_show, classify, record_show.
  destruct show as [| | | | |fields]; try reflexivity.
  cbn [py_get and_then bind lift].
  set (vd := match dict_get fields (KStr "venue") with
             | Some v => v
             | None => VDict []
             end).
  destruct vd as [| | | | |vf]; try reflexivity.
  cbn [py_get and_then bind lift].
  destruct (is_in_north_carolina _ _ _) as [[|]|e]; cbn [negb and_then];
    try reflexivity.
  unfold show_id_of. cbn [py_get].
  set (idv := match dict_get fields (KStr "id") with
              | Some v => v
              | None => VNone
              end).
  match goal with
  | |- context [lift (if py_truthy idv then Ok idv else Ok ?alt)] =>
      replace (if py_truthy idv then Ok idv else Ok alt)
        with (Ok (A:=value) (if py_truthy idv then idv else alt))
        by (destruct (py_truthy idv); reflexivity);
      set (sid := if py_truthy idv then idv else alt)
  end.
  cbn [and_then bind lift]. clearbody sid.
  unfold bind, lift.
  destruct (known_contains sid s) as [[[|]|e] s1]; reflexivity.
Qed.

(** The back half over a dictionary store. *)
Lemma record_show_dict (id info : value) (d : dict) (s : TourMonitor) :
  known_shows s = VDict d ->
  record_show id info s =
    match hashable id with
    | None => (Raise TypeError, on_env (log (StoreContains id)) s)
    | Some k =>
        if dict_mem d k then (Ok tt, on_env (log (StoreContains id)) s)
        else
          let s1 :=
            mkMonitor (VDict (dict_set d k info)) (new_shows s ++ [info])
              (log (StoreUpsert id info) (log (StoreContains id) (env s))) in
          match stdout_error (env s) info with
          | Some e => (Raise e, s1)
          | None => (Ok tt, on_env (log (Print (MsgNew info))) s1)
          end
    end.
Proof.
  intros Hk.
  unfold record_show, known_contains, append_new, known_upsert, print, emit,
    modify, get, bind, lift, ret, raise.
  cbn [known_shows on_env new_shows env].
  rewrite Hk. cbn [py_contains].
  destruct (hashable id) as [k|] eqn:Hh; [|reflexivity].
  destruct (dict_mem d k); [reflexivity|].
  cbn [known_shows new_shows env on_env fst snd]. rewrite Hk. cbn [py_setitem].
  rewrite Hh. cbn [env log stdout_error lift on_env known_shows new_shows].
  destruct (stdout_error (env s) info); reflexivity.
Qed.

(** On a dictionary store the loop body is [check_show_on_dict]. *)
Lemma check_show_dict (band : string) (show : value) (d : dict) (s : TourMonitor) :
  known_shows s = VDict d ->
  check_show band show s = check_show_on_dict band show d s.
Proof.
  intros Hk. rewrite check_show_classified. unfold check_show_on_dict.
  destruct (classify band show) as [[|id info]|e]; try reflexivity.
  apply record_show_dict, Hk.
Qed.

(** One guarded iteration over a dictionary store is one [detect_step]. *)
Lemma guarded_on_dict (band : string) (show : value) (d : dict) (s : TourMonitor) :
  known_shows s = VDict d ->
  exists evs,
    no_save evs = true /\
    check_show_guarded band show s =
      (Ok tt,
       mkMonitor (VDict (fst (detect_step band (d, new_shows s) show)))
                 (snd (detect_step band (d, new_shows s) show))
                 (logs evs (env s))).
Proof.
  intros Hk. unfold check_show_guarded, try_except.
  rewrite (check_show_dict band show d s Hk).
  unfold check_show_on_dict, detect_step. cbn [fst snd].
  destruct s as [known news w]. cbn in Hk. subst known.
  destruct (classify band show) as [[|id info]|e].
  - exists []. rewrite logs_nil. split; reflexivity.
  - destruct (hashable id) as [k|].
    + destruct (dict_mem d k).
      * exists [StoreContains id]. split; reflexivity.
      * cbn [env new_shows]. destruct (stdout_error w info) as [e|].
        -- exists [StoreContains id; StoreUpsert id info; Print (MsgItemError e)].
           split; [reflexivity|]. unfold print, emit, modify, on_env.
           cbn [fst snd env known_shows new_shows].
           rewrite !log_as_logs, !logs_logs. reflexivity.
        -- exists [StoreContains id; StoreUpsert id info; Print (MsgNew info)].
           split; [reflexivity|]. unfold on_env.
           cbn [fst snd env known_shows new_shows].
           rewrite !log_as_logs, !logs_logs. reflexivity.
    + exists [StoreContains id; Print (MsgItemError TypeError)].
      split; [reflexivity|]. unfold print, emit, modify, on_env. cbn.
      rewrite !log_as_logs, !logs_logs. reflexivity.
  - exists [Print (MsgItemError e)]. split; reflexivity.
Qed.

(** The whole loop over a dictionary store is [detect]. *)
Lemma loop_on_dict (band : string) (shows : list value) :
  forall (d : dict) (s : TourMonitor),
    known_shows s = VDict d ->
    exists evs,
      no_save evs = true /\
      for_each (check_show_guarded band) shows s =
        (Ok tt,
         mkMonitor (VDict (fst (detect band shows (d, new_shows s))))
                   (snd (detect band shows (d, new_shows s)))
                   (logs evs (env s))).
Proof.
  induction shows as [|show rest IH]; intros d s Hk.
  - exists []. rewrite logs_nil. split; [reflexivity|].
    destruct s; cbn in *. subst. reflexivity.
  - destruct (guarded_on_dict band show d s Hk) as (e1 & Hq1 & H1).
    rewrite (for_each_cons_ok _ _ _ _ _ H1).
    match goal with
    | |- context [for_each _ _ ?s1] =>
        destruct (IH _ s1 eq_refl) as (e2 & Hq2 & H2)
    end.
    rewrite H2. cbn [known_shows new_shows env].
    exists (e1 ++ e2)%list. split.
    + rewrite no_save_app, Hq1, Hq2. reflexivity.
    + rewrite logs_logs. unfold detect. cbn [fold_left].
      rewrite <- surjective_pairing. reflexivity.
Qed.

Lemma fetch_shows_spec (net : string -> response) (band : string) (s : TourMonitor) :
  fetch_shows net band s =
    (Ok (shows_of net band),
     match net band with
     | Failed e => on_env (log (Print (MsgFetchError band e))) s
     | Payload _ => s
     end).
Proof.
  unfold fetch_shows, shows_of, try_except, bind, lift, ret, print, emit, modify.
  destruct (net band) as [e|v]; cbn; [reflexivity|].
  destruct v; reflexivity.
Qed.

Lemma check_band_on_dict (net : string -> response) (band : string)
    (d : dict) (s : TourMonitor) :
  known_shows s = VDict d ->
  exists evs,
    no_save evs = true /\
    check_band net band s =
      (Ok tt,
       mkMonitor (VDict (fst (detect band (shows_of net band) (d, new_shows s))))
                 (snd (detect band (shows_of net band) (d, new_shows s)))
                 (logs evs (env s))).
Proof.
  intros Hk. unfold check_band, print, emit, modify.
  unfold bind at 1 2. cbn [fst snd].
  rewrite fetch_shows_spec.
  set (s1 := match net band with
             | Failed e => _
             | Payload _ => _
             end).
  assert (Hs1 : exists e0, no_save e0 = true /\ known_shows s1 = VDict d /\
                           new_shows s1 = new_shows s /\ env s1 = logs e0 (env s)).
  { subst s1. destruct (net band) as [e|v].
    - exists [Print (MsgChecking band); Print (MsgFetchError band e)].
      cbn. rewrite !log_as_logs, !logs_logs. auto.
    - exists [Print (MsgChecking band)]. cbn. auto. }
  destruct Hs1 as (e0 & Hq0 & Hk1 & Hn1 & He1).
  destruct (loop_on_dict band (shows_of net band) d s1 Hk1) as (e1 & Hq1 & H1).
  rewrite H1, Hn1, He1, logs_logs.
  exists (e0 ++ e1)%list. rewrite no_save_app, Hq0, Hq1. auto.
Qed.

Lemma checks_on_dict (net : string -> response) (bands : list string) :
  forall (d : dict) (s : TourMonitor),
    known_shows s = VDict d ->
    exists evs,
      no_save evs = true /\
      for_each (check_band net) bands s =
        (Ok tt,
         let acc := fold_left (fun a band => detect band (shows_of net band) a)
                              bands (d, new_shows s) in
         mkMonitor (VDict (fst acc)) (snd acc) (logs evs (env s))).
Proof.
  induction bands as [|band rest IH]; intros d s Hk.
  - exists []. rewrite logs_nil. split; [reflexivity|].
    destruct s; cbn in *. subst. reflexivity.
  - destruct (check_band_on_dict net band d s Hk) as (e1 & Hq1 & H1).
    rewrite (for_each_cons_ok _ _ _ _ _ H1).
    match goal with
    | |- context [for_each _ _ ?s1] =>
        destruct (IH _ s1 eq_refl) as (e2 & Hq2 & H2)
    end.
    rewrite H2. cbn [known_shows new_shows env].
    exists (e1 ++ e2)%list. split.
    + rewrite no_save_app, Hq1, Hq2. reflexivity.
    + rewrite logs_logs. cbn [fold_left].
      rewrite <- surjective_pairing. reflexivity.
Qed.

End BandFacts.

(** *** Whatever the store holds *)

Module BandAny.
Import BandTour.

Lemma emit_quiet (w0 : world) (ev : event) :
  is_save ev = false -> preserves (quiet_since w0) (emit ev).
Proof.
  intros Hev. apply preserves_modify. intros s H.
  apply extends_quietly_log; assumption.
Qed.

Lemma fields_quiet (w0 : world) (f : TourMonitor -> TourMonitor) :
  (forall s, env (f s) = env s) -> preserves (quiet_since w0) (modify f).
Proof.
  intros Hf. apply preserves_modify. intros s H.
  unfold quiet_since. rewrite Hf. exact H.
Qed.

Ltac quiet :=
  repeat first
    [ apply preserves_ret
    | apply preserves_lift
    | apply preserves_get
    | apply emit_quiet; reflexivity
    | apply fields_quiet; intros ?; reflexivity
    | apply preserves_bind; [|intros ?]
    | apply preserves_try_except; [|intros ?]
    | apply preserves_for_each; intros ?
    | match goal with
      | |- preserves _ (if ?b then _ else _) => destruct b
      | |- preserves _ (match stdout_error ?w ?v with _ => _ end) =>
          destruct (stdout_error w v)
      | |- preserves _ (raise _) => apply preserves_lift
      end ].

Lemma check_show_quiet (w0 : world) (band : string) (show : value) :
  preserves (quiet_since w0) (check_show band show).
Proof.
  unfold check_show, known_contains, append_new, known_upsert, print. quiet.
Qed.

Lemma check_band_quiet (w0 : world) (net : string -> response) (band : string) :
  preserves (quiet_since w0) (check_band net band).
Proof.
  unfold check_band, fetch_shows, check_show_guarded, print. quiet.
Qed.

Lemma check_show_guarded_returns (band : string) (show : value) :
  returns (check_show_guarded band show).
Proof.
  apply returns_try_except. intros e s. exists tt. reflexivity.
Qed.

Lemma check_band_returns (net : string -> response) (band : string) :
  returns (check_band net band).
Proof.
  unfold check_band.
  apply returns_bind; [intros s; exists tt; reflexivity|intros _].
  apply returns_bind.
  - intros s. rewrite BandFacts.fetch_shows_spec. eexists. reflexivity.
  - intros shows. apply returns_for_each. apply check_show_guarded_returns.
Qed.

(** All of [BANDS] checked: the run is still going and nothing was saved. *)
Lemma checks_any (net : string -> response) (bands : list string) (s : TourMonitor) :
  exists s',
    for_each (check_band net) bands s = (Ok tt, s') /\
    extends_quietly (env s) (env s').
Proof.
  pose proof (returns_for_each (check_band net) bands
                (check_band_returns net) s) as [[] Hr].
  pose proof (preserves_for_each (quiet_since (env s)) (check_band net) bands
                (check_band_quiet (env s) net) s
                (extends_quietly_refl _)) as Hq.
  destruct (for_each (check_band net) bands s) as [r s']. cbn in *. subst r.
  exists s'. split; [reflexivity|exact Hq].
Qed.

End BandAny.

(** *** The fold [detect] *)

Module Detect.
Import BandTour.

(** A tracked item records the identifier it is stored under. *)
Lemma classify_show_id (band : string) (show id info : value) :
  classify band show = Ok (Candidate id info) ->
  item_field info "show_id" = Some id.
Proof.
  unfold classify, and_then.
  destruct (py_get show "venue" _) as [vd|]; [|discriminate].
  destruct (py_get vd "name" _) as [vn|]; [|discriminate].
  destruct (py_get vd "city" _) as [c|]; [|discriminate].
  destruct (py_get vd "region" _) as [r|]; [|discriminate].
  destruct (is_in_north_carolina vn c r) as [[|]|]; cbn [negb]; try discriminate.
  destruct (show_id_of band show vn) as [sid|]; [|discriminate].
  destruct (py_get show "datetime" _) as [dt|]; [|discriminate].
  destruct (py_get show "url" _) as [u|]; [|discriminate].
  intros H. injection H as <- <-. reflexivity.
Qed.

Lemma detect_step_cases (band : string) (d : dict) (n : list value) (show : value) :
  detect_step band (d, n) show = (d, n) \/
  exists id info k,
    classify band show = Ok (Candidate id info) /\
    hashable id = Some k /\ dict_get d k = None /\
    detect_step band (d, n) show = (dict_set d k info, (n ++ [info])%list).
Proof.
  unfold detect_step. cbn [fst snd].
  destruct (classify band show) as [[|id info]|e]; auto.
  destruct (hashable id) as [k|] eqn:Hh; auto.
  destruct (dict_mem d k) eqn:Hm; auto.
  right. exists id, info, k. rewrite dict_mem_get in Hm. auto.
Qed.

(** Entries already stored stay as they are. *)
Lemma detect_frame (band : string) (shows : list value) :
  forall (d : dict) (n : list value) (k : key) (rec : value),
    dict_get d k = Some rec ->
    dict_get (fst (detect band shows (d, n))) k = Some rec.
Proof.
  unfold detect. induction shows as [|show rest IH]; intros d n k rec H.
  - exact H.
  - cbn [fold_left].
    destruct (detect_step_cases band d n show)
      as [->|(id & info & k' & _ & _ & Hnew & ->)].
    + apply IH, H.
    + apply IH. apply dict_set_frame; assumption.
Qed.

Lemma detect_mem_mono (band : string) (shows : list value)
    (d : dict) (n : list value) (k : key) :
  dict_mem d k = true -> dict_mem (fst (detect band shows (d, n))) k = true.
Proof.
  unfold dict_mem at 1. destruct (dict_get d k) as [rec|] eqn:H; [|discriminate].
  intros _. unfold dict_mem. rewrite (detect_frame band shows d n k rec H).
  reflexivity.
Qed.

(** Whatever the delta gained was a candidate whose identifier the store
    did not have to begin with. *)
Lemma detect_new (band : string) (shows : list value) :
  forall (d : dict) (n : list value) (item : value),
    In item (snd (detect band shows (d, n))) ->
    In item n \/
    exists show id k,
      In show shows /\ classify band show = Ok (Candidate id item) /\
      hashable id = Some k /\ dict_get d k = None.
Proof.
  unfold detect. induction shows as [|show rest IH]; intros d n item H.
  - left. exact H.
  - cbn [fold_left] in H.
    destruct (detect_step_cases band d n show)
      as [E|(id & info & k & Hc & Hh & Hnew & E)]; rewrite E in H.
    + destruct (IH _ _ _ H) as [?|(sh & id & k & Hin & ?)]; [left; assumption|].
      right. exists sh, id, k. split; [right; exact Hin|assumption].
    + destruct (IH _ _ _ H) as [Hn|(sh & id' & k' & Hin & Hc' & Hh' & Hnew')].
      * apply in_app_or in Hn. destruct Hn as [?|[<-|[]]]; [left; assumption|].
        right. exists show, id, k. cbn. auto.
      * right. exists sh, id', k'. split; [right; exact Hin|].
        split; [exact Hc'|]. split; [exact Hh'|].
        destruct (dict_get d k') as [rec|] eqn:Hd; [|reflexivity].
        rewrite (dict_set_frame d k k' info rec Hnew Hd) in Hnew'. discriminate.
Qed.

(** Every candidate of the batch is stored once the batch is done. *)
Lemma detect_mem (band : string) (shows : list value) :
  forall (d : dict) (n : list value) (show id info : value) (k : key),
    In show shows -> classify band show = Ok (Candidate id info) ->
    hashable id = Some k ->
    dict_mem (fst (detect band shows (d, n))) k = true.
Proof.
  induction shows as [|sh rest IH]; intros d n show id info k Hin Hc Hh; [destruct Hin|].
  unfold detect. cbn [fold_left]. fold (detect band rest).
  destruct Hin as [->|Hin].
  - unfold detect_step. rewrite Hc, Hh. cbn [fst snd].
    destruct (dict_mem d k) eqn:Hm.
    + apply detect_mem_mono, Hm.
    + apply detect_mem_mono, dict_mem_set_same.
  - destruct (detect_step band (d, n) sh) as [d1 n1]. eapply IH; eassumption.
Qed.

(** A batch whose candidates are all stored changes nothing. *)
Lemma detect_fixed (band : string) (shows : list value) (d : dict) (n : list value) :
  (forall show id info k,
      In show shows -> classify band show = Ok (Candidate id info) ->
      hashable id = Some k -> dict_mem d k = true) ->
  detect band shows (d, n) = (d, n).
Proof.
  unfold detect. induction shows as [|sh rest IH]; intros H; [reflexivity|].
  cbn [fold_left].
  assert (E : detect_step band (d, n) sh = (d, n)).
  { unfold detect_step. cbn [fst snd].
    destruct (classify band sh) as [[|id info]|e] eqn:Hc; try reflexivity.
    destruct (hashable id) as [k|] eqn:Hh; [|reflexivity].
    rewrite (H sh id info k (or_introl eq_refl) Hc Hh). reflexivity. }
  rewrite E. apply IH. intros show id info k Hin. apply H. right. exact Hin.
Qed.

End Detect.

(** *** A whole run *)

Module BandRun.
Import BandTour.

(** [run] is: banner, the loop over [BANDS], the save, the report. *)
Lemma run_spec (net : string -> response) (s : TourMonitor) :
  exists s1,
    for_each (check_band net) BANDS (on_env (log (Print MsgBanner)) s)
      = (Ok tt, s1) /\
    extends_quietly (env s) (env s1) /\
    run net s =
      match write_error (env s1) with
      | Some (AtOpen e) =>
          (Raise e, on_env (log (StoreSave (known_shows s1))) s1)
      | Some (AtDump e cut) =>
          (Raise e,
           on_env (leave cut) (on_env (log (StoreSave (known_shows s1))) s1))
      | None =>
          (Ok match new_shows s1 with
              | [] => None
              | _ :: _ => Some (new_shows s1)
              end,
           mkMonitor (known_shows s1) (new_shows s1)
             (log (Print match new_shows s1 with
                         | [] => MsgNothingNew
                         | _ :: _ => MsgFound (List.length (new_shows s1))
                         end)
                (overwrite (json_image (known_shows s1))
                   (log (StoreSave (known_shows s1)) (env s1)))))
      end.
Proof.
  destruct (BandAny.checks_any net BANDS (on_env (log (Print MsgBanner)) s))
    as (s1 & Hloop & Hq).
  exists s1. split; [exact Hloop|]. split.
  - eapply extends_quietly_trans; [|exact Hq].
    apply extends_quietly_log; [reflexivity|apply extends_quietly_refl].
  - unfold run, print, emit, modify. unfold bind at 1 2. cbn [fst snd].
    rewrite Hloop. clear Hloop Hq. destruct s1 as [known news [doc werr tr out]].
    unfold save_known_shows, emit, modify, get, bind, raise, lift.
    cbn [env on_env write_error log known_shows new_shows].
    destruct werr as [[e|e cut]|]; [reflexivity|reflexivity|].
    destruct news; reflexivity.
Qed.

(** Loading returns unless the existence test raises. *)
Lemma load_shows_spec (s : TourMonitor) :
  load_known_shows s =
    (match data_file (env s) with
     | Unreachable e => Raise e
     | doc => Ok (loaded doc)
     end,
     on_env (log StoreLoad) s).
Proof.
  unfold load_known_shows, emit, modify, get, bind, try_except, lift, ret.
  cbn [env on_env log data_file].
  destruct (data_file (env s)); reflexivity.
Qed.

(** [__init__] leaves the loaded store and an empty delta. *)
Lemma init_spec (s : TourMonitor) :
  init s =
    match data_file (env s) with
    | Unreachable e => (Raise e, on_env (log StoreLoad) s)
    | doc => (Ok tt, mkMonitor (loaded doc) [] (log StoreLoad (env s)))
    end.
Proof.
  unfold init, bind. rewrite load_shows_spec.
  destruct (data_file (env s)); reflexivity.
Qed.

(** A process whose document can be examined is a run from the loaded
    store. *)
Lemma session_spec (net : string -> response) (w : world) :
  session net w =
    match data_file w with
    | Unreachable e => (Raise e, mkMonitor VNone [] (log StoreLoad w))
    | doc => run net (mkMonitor (loaded doc) [] (log StoreLoad w))
    end.
Proof.
  unfold session, bind. rewrite init_spec. cbn [blank env].
  destruct (data_file w); reflexivity.
Qed.

Lemma session_loaded (net : string -> response) (w : world) (d : dict) :
  loaded (data_file w) = VDict d ->
  session net w = run net (mkMonitor (VDict d) [] (log StoreLoad w)).
Proof.
  intros H. rewrite session_spec.
  destruct (data_file w); cbn [loaded] in H; try discriminate;
    rewrite <- H; reflexivity.
Qed.

End BandRun.

(** *** The fold over all of [BANDS] *)

Module DetectAll.
Import BandTour.

Lemma bands_frame (net : string -> response) (bands : list string) :
  forall (d : dict) (n : list value) (k : key) (rec : value),
    dict_get d k = Some rec ->
    dict_get (fst (detect_bands net bands (d, n))) k = Some rec.
Proof.
  unfold detect_bands. induction bands as [|band rest IH]; intros d n k rec H; [exact H|].
  cbn [fold_left].
  pose proof (Detect.detect_frame band (shows_of net band) d n k rec H) as H1.
  destruct (detect band (shows_of net band) (d, n)) as [d1 n1].
  apply IH, H1.
Qed.

Lemma bands_new (net : string -> response) (bands : list string) :
  forall (d : dict) (n : list value) (item : value),
    In item (snd (detect_bands net bands (d, n))) ->
    In item n \/
    exists band show id k,
      In band bands /\ In show (shows_of net band) /\
      classify band show = Ok (Candidate id item) /\
      hashable id = Some k /\ dict_get d k = None.
Proof.
  unfold detect_bands. induction bands as [|band rest IH]; intros d n item H;
    [left; exact H|].
  cbn [fold_left] in H.
  pose proof (Detect.detect_frame band (shows_of net band) d n) as Hf.
  pose proof (Detect.detect_new band (shows_of net band) d n) as Hn.
  destruct (detect band (shows_of net band) (d, n)) as [d1 n1].
  cbn [fst snd] in *.
  destruct (IH _ _ _ H) as [H1|(b & sh & id & k & Hb & Hs & Hc & Hh & Hd)].
  - destruct (Hn _ H1) as [?|(sh & id & k & Hs & Hc & Hh & Hd)];
      [left; assumption|].
    right. exists band, sh, id, k. cbn. auto.
  - right. exists b, sh, id, k. split; [right; exact Hb|].
    repeat (split; [assumption|]).
    destruct (dict_get d k) as [rec|] eqn:E; [|reflexivity].
    rewrite (Hf _ _ E) in Hd. discriminate.
Qed.

Lemma bands_mem_mono (net : string -> response) (bands : list string)
    (d : dict) (n : list value) (k : key) :
  dict_mem d k = true -> dict_mem (fst (detect_bands net bands (d, n))) k = true.
Proof.
  unfold dict_mem at 1. destruct (dict_get d k) as [rec|] eqn:H; [|discriminate].
  intros _. unfold dict_mem. rewrite (bands_frame net bands d n k rec H).
  reflexivity.
Qed.

Lemma bands_mem (net : string -> response) (bands : list string) :
  forall (d : dict) (n : list value) (band : string) (show id info : value)
         (k : key),
    In band bands -> In show (shows_of net band) ->
    classify band show = Ok (Candidate id info) -> hashable id = Some k ->
    dict_mem (fst (detect_bands net bands (d, n))) k = true.
Proof.
  induction bands as [|b rest IH]; intros d n band show id info k Hb Hs Hc Hh;
    [destruct Hb|].
  unfold detect_bands. cbn [fold_left]. fold (detect_bands net rest).
  destruct Hb as [->|Hb].
  - pose proof (Detect.detect_mem band (shows_of net band) d n show id info k
                  Hs Hc Hh) as Hm.
    destruct (detect band (shows_of net band) (d, n)) as [d1 n1].
    apply bands_mem_mono, Hm.
  - destruct (detect b (shows_of net b) (d, n)) as [d1 n1].
    eapply IH; eassumption.
Qed.

Lemma bands_fixed (net : string -> response) (bands : list string)
    (d : dict) (n : list value) :
  (forall band show id info k,
      In band bands -> In show (shows_of net band) ->
      classify band show = Ok (Candidate id info) ->
      hashable id = Some k -> dict_mem d k = true) ->
  detect_bands net bands (d, n) = (d, n).
Proof.
  unfold detect_bands. induction bands as [|b rest IH]; intros H; [reflexivity|].
  cbn [fold_left]. rewrite Detect.detect_fixed.
  - apply IH. intros band show id info k Hb. apply H. right. exact Hb.
  - intros show id info k. apply (H b). left. reflexivity.
Qed.

(** A run over a dictionary store: what it leaves in the monitor. *)
Lemma run_on_dict (net : string -> response) (d : dict) (s : TourMonitor) :
  known_shows s = VDict d ->
  known_shows (snd (run net s)) = VDict (fst (detect_all net (d, new_shows s))) /\
  new_shows (snd (run net s)) = snd (detect_all net (d, new_shows s)).
Proof.
  intros Hk.
  destruct (BandRun.run_spec net s) as (s1 & Hloop & _ & Hrun).
  destruct (BandFacts.checks_on_dict net BANDS d
              (on_env (log (Print MsgBanner)) s) Hk) as (evs & _ & H).
  rewrite H in Hloop. injection Hloop as <-.
  rewrite Hrun. cbn [known_shows new_shows env on_env].
  change (fold_left _ BANDS (d, new_shows s))
    with (detect_all net (d, new_shows s)).
  destruct (write_error _) as [[e|e cut]|]; split; reflexivity.
Qed.

End DetectAll.

(** *** The trace of a run *)

Module BandTrace.
Import BandTour.

(** Every run invokes the save once, after the loop, and only prints
    afterwards; if the run returns, the document is the saved mapping. *)
Lemma run_trace (net : string -> response) (s : TourMonitor) :
  exists pre post,
    trace (env (snd (run net s)))
      = (trace (env s) ++ pre ++ StoreSave (known_shows (snd (run net s))) :: post)%list /\
    no_save pre = true /\
    no_store_op post = true /\
    (forall r, fst (run net s) = Ok r ->
               write_error (env s) = None /\
               data_file (env (snd (run net s)))
                 = Json (json_image (known_shows (snd (run net s)))) /\
               r = match new_shows (snd (run net s)) with
                   | [] => None
                   | _ :: _ => Some (new_shows (snd (run net s)))
                   end).
Proof.
  destruct (BandRun.run_spec net s) as (s1 & _ & (evs & Henv & Hq) & Hrun).
  rewrite Hrun. destruct s1 as [known news w1]. cbn [env] in Henv. subst w1.
  cbn [env write_error logs known_shows].
  destruct (write_error (env s)) as [[e|e cut]|].
  - exists evs, []. cbn [snd fst known_shows env on_env log logs trace].
    rewrite <- app_assoc.
    split; [reflexivity|]. split; [assumption|]. split; [reflexivity|].
    intros r H. discriminate.
  - exists evs, []. cbn [snd fst known_shows env on_env log leave logs trace].
    rewrite <- app_assoc.
    split; [reflexivity|]. split; [assumption|]. split; [reflexivity|].
    intros r H. discriminate.
  - exists evs, [Print match news with
                       | [] => MsgNothingNew
                       | _ :: _ => MsgFound (List.length news)
                       end].
    cbn [snd fst known_shows new_shows env log overwrite leave logs trace
         data_file].
    rewrite <- !app_assoc.
    split; [reflexivity|]. split; [assumption|]. split; [reflexivity|].
    intros r H. injection H as <-. auto.
Qed.

End BandTrace.

(** *** A candidate on which the body raises *)

Module BandErrors.
Import BandTour.

(** A candidate that cannot be read is left before anything is touched. *)
Lemma unreadable_is_left (band : string) (bad : value) (e : exn)
    (s : TourMonitor) :
  classify band bad = Raise e -> check_show band bad s = (Raise e, s).
Proof. intros H. rewrite BandFacts.check_show_classified, H. reflexivity. Qed.

Lemma alike_refl (s : TourMonitor) : alike s s.
Proof. repeat split. Qed.

Lemma alike_log (s t : TourMonitor) (ev : event) :
  alike s t -> alike (on_env (log ev) s) t.
Proof. intros (H1 & H2 & H3 & H4 & H5). repeat split; assumption. Qed.

(** Nothing in the loop body reads the trace. *)
Lemma record_show_alike (id info : value) (s t : TourMonitor) :
  alike s t ->
  fst (record_show id info s) = fst (record_show id info t) /\
  alike (snd (record_show id info s)) (snd (record_show id info t)).
Proof.
  intros (Hk & Hn & Hd & Hw & Ho).
  unfold record_show, known_contains, append_new, known_upsert, print, emit,
    modify, get, bind, lift, ret, raise.
  cbn [known_shows on_env new_shows env fst snd].
  rewrite <- Hk.
  destruct (py_contains (known_shows s) id) as [[|]|e]; cbn [fst snd];
    [repeat split; assumption| |repeat split; assumption].
  cbn [known_shows on_env new_shows env fst snd]. rewrite <- Hk, <- Hn.
  destruct (py_setitem (known_shows s) id info) as [known|e]; cbn [fst snd].
  - cbn [env log stdout_error lift on_env known_shows new_shows].
    rewrite <- Ho.
    destruct (stdout_error (env s) info); cbn [fst snd];
      repeat split; assumption.
  - repeat split; assumption.
Qed.

Lemma guarded_alike (band : string) (show : value) (s t : TourMonitor) :
  alike s t ->
  alike (snd (check_show_guarded band show s))
        (snd (check_show_guarded band show t)).
Proof.
  intros H. unfold check_show_guarded, try_except.
  rewrite !BandFacts.check_show_classified.
  destruct (classify band show) as [[|id info]|e]; cbn [fst snd].
  - exact H.
  - destruct (record_show_alike id info s t H) as [Hr Ha].
    destruct (record_show id info s) as [[[]|e] s1],
             (record_show id info t) as [[[]|e'] t1];
      cbn [fst snd] in *; try discriminate; [exact Ha|].
    destruct Ha as (H1 & H2 & H3 & H4 & H5). repeat split; assumption.
  - destruct H as (H1 & H2 & H3 & H4 & H5). repeat split; assumption.
Qed.

Lemma loop_alike (band : string) (shows : list value) :
  forall s t : TourMonitor,
    alike s t ->
    alike (snd (for_each (check_show_guarded band) shows s))
          (snd (for_each (check_show_guarded band) shows t)).
Proof.
  induction shows as [|show rest IH]; intros s t H; [exact H|].
  cbn [for_each]. unfold bind.
  pose proof (guarded_alike band show s t H) as H1.
  destruct (BandAny.check_show_guarded_returns band show s) as [[] Hs].
  destruct (BandAny.check_show_guarded_returns band show t) as [[] Ht].
  destruct (check_show_guarded band show s) as [rs s1],
           (check_show_guarded band show t) as [rt t1].
  cbn [fst snd] in *. subst rs rt. apply IH, H1.
Qed.

Lemma loop_returns (band : string) (shows : list value) (s : TourMonitor) :
  for_each (check_show_guarded band) shows s
    = (Ok tt, snd (for_each (check_show_guarded band) shows s)).
Proof.
  destruct (returns_for_each (check_show_guarded band) shows
              (BandAny.check_show_guarded_returns band) s) as [[] H].
  destruct (for_each (check_show_guarded band) shows s) as [r s1].
  cbn [fst snd] in *. subst r. reflexivity.
Qed.

Lemma loop_keeps_trace (band : string) (shows : list value) (s : TourMonitor)
    (ev : event) :
  In ev (trace (env s)) ->
  In ev (trace (env (snd (for_each (check_show_guarded band) shows s)))).
Proof.
  intros Hin.
  assert (Hq : preserves (quiet_since (env s))
                 (for_each (check_show_guarded band) shows)).
  { apply preserves_for_each. intros show. unfold check_show_guarded.
    apply preserves_try_except; [apply BandAny.check_show_quiet|].
    intros e. unfold print. apply BandAny.emit_quiet. reflexivity. }
  destruct (Hq s (extends_quietly_refl _)) as (evs & -> & _).
  cbn [logs trace]. apply in_or_app. left. exact Hin.
Qed.

(** With or without an unreadable candidate in it, a batch leaves the
    same store and the same delta, whatever the store is; with it, the
    error is on record. *)
Lemma batch_with_unreadable (band : string) (before after : list value)
    (bad : value) (s : TourMonitor) (e : exn) :
  classify band bad = Raise e ->
  let with_bad :=
    snd (for_each (check_show_guarded band) (before ++ bad :: after) s) in
  let without :=
    snd (for_each (check_show_guarded band) (before ++ after) s) in
  known_shows with_bad = known_shows without /\
  new_shows with_bad = new_shows without /\
  In (Print (MsgItemError e)) (trace (env with_bad)).
Proof.
  intros Hbad with_bad without. subst with_bad without.
  pose proof (loop_returns band before s) as H1.
  set (s_mid := snd (for_each (check_show_guarded band) before s)) in *.
  set (s_bad := on_env (log (Print (MsgItemError e))) s_mid).
  assert (Hg : check_show_guarded band bad s_mid = (Ok tt, s_bad)).
  { unfold check_show_guarded, try_except.
    rewrite (unreadable_is_left band bad e s_mid Hbad). reflexivity. }
  rewrite (for_each_app_ok _ _ _ _ _ H1), (for_each_app_ok _ _ after _ _ H1).
  rewrite (for_each_cons_ok _ _ _ _ _ Hg).
  destruct (loop_alike band after s_bad s_mid
              (alike_log s_mid s_mid _ (alike_refl s_mid)))
    as (Hk & Hn & _).
  split; [exact Hk|]. split; [exact Hn|].
  apply loop_keeps_trace. subst s_bad. cbn [env on_env log trace].
  apply in_or_app. right. left. reflexivity.
Qed.

End BandErrors.

(** *** Two processes in a row *)

Module BandTwice.
Import BandTour.

(** A run that can write returns, and leaves the serialized store on disk. *)
Lemma run_ok (net : string -> response) (s : TourMonitor) :
  write_error (env s) = None ->
  fst (run net s)
    = Ok match new_shows (snd (run net s)) with
         | [] => None
         | _ :: _ => Some (new_shows (snd (run net s)))
         end /\
  data_file (env (snd (run net s)))
    = Json (json_image (known_shows (snd (run net s)))) /\
  write_error (env (snd (run net s))) = None.
Proof.
  intros Hw.
  destruct (BandRun.run_spec net s) as (s1 & _ & Hq & Hrun).
  apply extends_quietly_file in Hq. destruct Hq as [_ Hw1].
  rewrite Hrun, Hw1, Hw. cbn. rewrite Hw1, Hw. repeat split.
Qed.

(** What [json.dump] then [json.load] make of a dictionary. *)
Lemma json_image_dict (d : dict) :
  json_image (VDict d)
    = VDict (fold_left
               (fun acc p => dict_set acc (KStr (json_key (fst p)))
                                      (json_image (snd p)))
               d []).
Proof. reflexivity. Qed.

Lemma restring_mem (d : dict) (t : string) :
  forall acc,
    dict_mem acc (KStr t) = true \/
    (exists p, In p d /\ json_key (fst p) = t) ->
    dict_mem (fold_left
                (fun acc p => dict_set acc (KStr (json_key (fst p)))
                                       (json_image (snd p)))
                d acc) (KStr t) = true.
Proof.
  induction d as [|[k v] d IH]; intros acc H; cbn [fold_left].
  - destruct H as [H|(p & [] & _)]. exact H.
  - apply IH. cbn [fst snd]. destruct H as [H|(p & [<-|Hin] & Hp)].
    + left. apply dict_mem_set, H.
    + left. cbn [fst] in Hp. rewrite Hp. apply dict_mem_set_same.
    + right. exists p. auto.
Qed.

Lemma dict_mem_entry (d : dict) (k : key) :
  dict_mem d k = true -> exists p, In p d /\ key_eqb k (fst p) = true.
Proof.
  unfold dict_mem. induction d as [|[k' v] d IH]; cbn; [discriminate|].
  destruct (key_eqb k k') eqn:E.
  - intros _. exists (k', v). auto.
  - intros H. destruct (IH H) as (p & Hin & Hp). exists p. auto.
Qed.

(** A string identifier in the store is still in the store read back. *)
Lemma saved_string_key (d d' : dict) (t : string) :
  json_image (VDict d) = VDict d' ->
  dict_mem d (KStr t) = true -> dict_mem d' (KStr t) = true.
Proof.
  rewrite json_image_dict. intros H Hm. injection H as <-.
  apply restring_mem. right.
  destruct (dict_mem_entry d _ Hm) as ([k v] & Hin & Hk).
  exists (k, v). split; [exact Hin|].
  destruct k; cbn in Hk; try discriminate.
  apply String.eqb_eq in Hk. subst. reflexivity.
Qed.

(** With string identifiers only, an unchanged source is reported once:
    the second of two processes in a row finds nothing new. *)
Lemma unchanged_source_reports_nothing
    (net : string -> response) (w : world) (d : dict) :
  write_error w = None ->
  loaded (data_file w) = VDict d ->
  (forall band show id info k,
      In band BANDS -> In show (shows_of net band) ->
      classify band show = Ok (Candidate id info) ->
      hashable id = Some k -> exists t, k = KStr t) ->
  let second := session net (env (snd (session net w))) in
  fst second = Ok None /\ new_shows (snd second) = [].
Proof.
  intros Hw Hd Hids second. subst second.
  rewrite (BandRun.session_loaded net w d Hd).
  set (s0 := mkMonitor (VDict d) [] (log StoreLoad w)).
  destruct (run_ok net s0 Hw) as (_ & Hdoc & Hw1).
  destruct (DetectAll.run_on_dict net d s0 eq_refl) as [Hk1 _].
  set (d1 := fst (detect_all net (d, new_shows s0))) in *.
  destruct (json_image (VDict d1)) as [| | | | |d2] eqn:Himg;
    try (rewrite json_image_dict in Himg; discriminate).
  rewrite (BandRun.session_loaded net _ d2)
    by (rewrite Hdoc, Hk1; exact Himg).
  set (s2 := mkMonitor (VDict d2) [] _).
  destruct (run_ok net s2 Hw1) as (Hr2 & _ & _).
  destruct (DetectAll.run_on_dict net d2 s2 eq_refl) as [_ Hn2].
  assert (Hfix : detect_all net (d2, new_shows s2) = (d2, new_shows s2)).
  { apply DetectAll.bands_fixed. intros band show id info k Hb Hs Hc Hh.
    destruct (Hids band show id info k Hb Hs Hc Hh) as [t ->].
    apply (saved_string_key d1 d2 t Himg).
    subst d1. unfold detect_all.
    eapply DetectAll.bands_mem; eassumption. }
  assert (Hn : new_shows (snd (run net s2)) = []).
  { etransitivity; [exact Hn2|]. exact (f_equal snd Hfix). }
  rewrite Hr2, Hn. split; reflexivity.
Qed.

Lemma unchanged_source_example :
  let show :=
    VDict [ (KStr "id", VStr "1002");
            (KStr "venue", VDict [(KStr "region", VStr "NC")]) ] in
  let net := fun _ : string => Payload (VList [show]) in
  let w := mkWorld Missing None [] in
  fst (session net w) <> Ok None /\
  fst (session net (env (snd (session net w)))) = Ok None.
Proof.
  intros show net w. split; [vm_compute; discriminate|].
  apply (unchanged_source_reports_nothing net w []); try reflexivity.
  intros band show0 id info k _ [<-|[]] Hc Hh.
  vm_compute in Hc. injection Hc as <- _. injection Hh as <-.
  eexists. reflexivity.
Qed.

End BandTwice.

(* ================================================================== *)
(** ** The hurricanes monitor's loop *)
(* ================================================================== *)

Module HurricanesFacts.
Import Hurricanes.

(** On a dictionary store the loop body is [check_game_on_dict]. *)
Lemma check_game_dict (date game : value) (d : dict) (s : HurricanesMonitor) :
  known_games s = VDict d ->
  check_game date game s = check_game_on_dict date game d s.
Proof.
  intros Hk. unfold check_game, check_game_on_dict, game_info_of.
  unfold bind at 1. unfold lift at 1.
  destruct (py_getitem game "gamePk") as [pk|e]; [|reflexivity].
  unfold known_contains, emit, modify, get.
  unfold bind at 1 2 3. cbn [fst snd known_games on_env lift].
  rewrite Hk. cbn [py_contains hashable].
  destruct (dict_mem d (KStr (py_str pk))); [reflexivity|].
  unfold bind, lift, and_then.
  destruct (team_name game "home") as [home|e]; [|reflexivity].
  destruct (team_name game "away") as [away|e]; [|reflexivity].
  destruct (py_get game "venue" (VDict [])) as [vd|e]; [|reflexivity].
  destruct (py_get vd "name" (VStr "TBD")) as [venue|e]; [|reflexivity].
  destruct (py_get game "gameDate" (VStr "TBD")) as [time|e]; [|reflexivity].
  unfold append_new, known_upsert, print, emit, modify, get, bind, lift, raise.
  cbn [fst snd known_games new_games env on_env].
  rewrite Hk. cbn [py_setitem hashable fst snd env log stdout_error on_env
                   known_games new_games].
  destruct (stdout_error (env s) _); reflexivity.
Qed.

(** A recorded game carries the identifier it is stored under. *)
Lemma game_info_id (date game game_id info : value) :
  game_info_of date game game_id = Ok info ->
  item_field info "game_id" = Some game_id.
Proof.
  unfold game_info_of, and_then.
  destruct (team_name game "home"); [|discriminate].
  destruct (team_name game "away"); [|discriminate].
  destruct (py_get game "venue" _) as [vd|]; [|discriminate].
  destruct (py_get vd "name" _); [|discriminate].
  destruct (py_get game "gameDate" _); [|discriminate].
  intros H. injection H as <-. reflexivity.
Qed.

(** One game keeps the store growing, whether it returns or raises. *)
Lemma check_game_grows (d0 : dict) (n0 : list value) (date game : value) :
  preserves (grown_from d0 n0) (check_game date game).
Proof.
  intros s (d & Hk & Hframe & Hdelta).
  rewrite (check_game_dict date game d s Hk). unfold check_game_on_dict.
  destruct (py_getitem game "gamePk") as [pk|e]; cbn [snd].
  2: { exists d. auto. }
  destruct (dict_mem d (KStr (py_str pk))) eqn:Hm; cbn [snd].
  { exists d. auto. }
  destruct (game_info_of date game (VStr (py_str pk))) as [info|e] eqn:Hi;
    cbn [snd].
  2: { exists d. auto. }
  rewrite dict_mem_get in Hm.
  exists (dict_set d (KStr (py_str pk)) info).
  split; [destruct (stdout_error (env s) info); reflexivity|].
  assert (Hn : new_games
                 (snd match stdout_error (env s) info with
                      | Some e =>
                          (Raise e,
                           mkMonitor
                             (VDict (dict_set d (KStr (py_str pk)) info))
                             (new_games s ++ [info])
                             (log (StoreUpsert (VStr (py_str pk)) info)
                                (env (on_env
                                        (log (StoreContains (VStr (py_str pk))))
                                        s))))
                      | None =>
                          (Ok tt,
                           on_env (log (Print (MsgNew info)))
                             (mkMonitor
                                (VDict (dict_set d (KStr (py_str pk)) info))
                                (new_games s ++ [info])
                                (log (StoreUpsert (VStr (py_str pk)) info)
                                   (env (on_env
                                           (log (StoreContains
                                                   (VStr (py_str pk))))
                                           s)))))
                      end)
               = (new_games s ++ [info])%list)
    by (destruct (stdout_error (env s) info); reflexivity).
  cbv zeta. rewrite Hn. clear Hn. split.
  - intros k rec H. apply dict_set_frame; [exact Hm|apply Hframe, H].
  - cbn [new_games]. intros item Hin. apply in_app_or in Hin.
    destruct Hin as [Hin|[<-|[]]]; [apply Hdelta, Hin|].
    right. exists (py_str pk). split; [eapply game_info_id, Hi|].
    destruct (dict_get d0 (KStr (py_str pk))) as [rec|] eqn:H0; [|reflexivity].
    rewrite (Hframe _ _ H0) in Hm. discriminate.
Qed.

Ltac keeps_with tac :=
  repeat first
    [ tac
    | apply preserves_ret
    | apply preserves_lift
    | apply preserves_get
    | apply preserves_modify; intros ? ?; assumption
    | apply preserves_bind; [|intros ?]
    | apply preserves_try_except; [|intros ?]
    | apply preserves_for_each; intros ?
    | match goal with
      | |- preserves _ (if ?b then _ else _) => destruct b
      | |- preserves _ (raise _) => apply preserves_lift
      | |- preserves _ (match ?x with _ => _ end) => destruct x
      end ].

Ltac keeps := keeps_with fail.

Lemma check_games_grows (d0 : dict) (n0 : list value) (net : response) :
  preserves (grown_from d0 n0) (check_games net).
Proof.
  unfold check_games, fetch_schedule, check_date, print, emit.
  keeps_with ltac:(apply check_game_grows).
Qed.

Lemma run_grows (d0 : dict) (n0 : list value) (net : response) :
  preserves (grown_from d0 n0) (run net).
Proof.
  unfold run, print, emit.
  apply preserves_bind; [keeps|intros _].
  apply preserves_bind; [apply check_games_grows|intros _].
  apply preserves_bind; [keeps|intros s].
  destruct (new_games s); [keeps|].
  apply preserves_bind; [keeps|intros _].
  apply preserves_bind; [|intros _; keeps].
  unfold save_known_games, emit, raise.
  apply preserves_bind; [keeps|intros s1].
  apply preserves_bind; [keeps|intros _].
  destruct (write_error (env s1)); keeps.
Qed.

Lemma grown_from_refl (d : dict) (s : HurricanesMonitor) :
  known_games s = VDict d -> grown_from d (new_games s) s.
Proof. intros Hk. exists d. auto. Qed.

(** *** Whatever the store holds *)

Lemma games_emit_quiet (w0 : world) (ev : event) :
  is_save ev = false -> preserves (quiet_since w0) (emit ev).
Proof.
  intros Hev. apply preserves_modify. intros s H.
  apply extends_quietly_log; assumption.
Qed.

Lemma games_fields_quiet (w0 : world) (f : HurricanesMonitor -> HurricanesMonitor) :
  (forall s, env (f s) = env s) -> preserves (quiet_since w0) (modify f).
Proof.
  intros Hf. apply preserves_modify. intros s H.
  unfold quiet_since. rewrite Hf. exact H.
Qed.

Ltac quiet :=
  repeat first
    [ apply preserves_ret
    | apply preserves_lift
    | apply preserves_get
    | apply games_emit_quiet; reflexivity
    | apply games_fields_quiet; intros ?; reflexivity
    | apply preserves_bind; [|intros ?]
    | apply preserves_try_except; [|intros ?]
    | apply preserves_for_each; intros ?
    | match goal with
      | |- preserves _ (if ?b then _ else _) => destruct b
      | |- preserves _ (raise _) => apply preserves_lift
      | |- preserves _ (match ?x with _ => _ end) => destruct x
      end ].

Lemma check_games_quiet (w0 : world) (net : response) :
  preserves (quiet_since w0) (check_games net).
Proof.
  unfold check_games, fetch_schedule, check_date, check_game,
    known_contains, append_new, known_upsert, print.
  quiet.
Qed.

End HurricanesFacts.

(** *** A whole run *)

Module HurricanesRun.
Import Hurricanes.

(** [run] is: banner, [check_games], then report and save if the delta
    is not empty. *)
Lemma games_run_spec (net : response) (s : HurricanesMonitor) :
  run net s =
    let (r1, s1) := check_games net (on_env (log (Print MsgBanner)) s) in
    match r1 with
    | Raise e => (Raise e, s1)
    | Ok _ =>
        match new_games s1 with
        | [] => (Ok None, on_env (log (Print MsgNothingNew)) s1)
        | _ :: _ =>
            let s2 :=
              on_env (log (StoreSave (known_games s1)))
                (on_env (log (Print (MsgFound (List.length (new_games s1)))))
                        s1) in
            match write_error (env s1) with
            | Some (AtOpen e) => (Raise e, s2)
            | Some (AtDump e cut) => (Raise e, on_env (leave cut) s2)
            | None =>
                (Ok (Some (new_games s1)),
                 on_env (overwrite (json_image (known_games s1))) s2)
            end
        end
    end.
Proof.
  unfold run, print, emit, modify. unfold bind at 1 2. cbn [fst snd].
  destruct (check_games net (on_env (log (Print MsgBanner)) s))
    as [[[]|e] [known news w1]]; [|reflexivity].
  unfold get, bind. cbn [new_games].
  destruct news as [|g news]; [reflexivity|].
  unfold save_known_games, emit, modify, get, bind, raise, lift, ret.
  cbn [env on_env known_games new_games write_error log].
  destruct (write_error w1) as [[e|e cut]|]; reflexivity.
Qed.


(** A loop stops where its body raises. *)
Lemma for_each_raise {S A : Type} (body : A -> M S unit)
    (before after : list A) (bad : A) (s s1 s2 : S) (e : exn) :
  for_each body before s = (Ok tt, s1) ->
  body bad s1 = (Raise e, s2) ->
  for_each body (before ++ bad :: after)%list s = (Raise e, s2).
Proof.
  intros H1 H2. rewrite (for_each_app_ok _ _ _ _ _ H1).
  cbn [for_each]. unfold bind. rewrite H2. reflexivity.
Qed.

(** An error on one game goes through both loops, [check_games] and
    [run]: none of them has a handler, and nothing is saved on the way. *)
Lemma game_error_ends_run
    (payload dates_value date_info date games_value bad : value)
    (days_before days_after before after : list value)
    (s s1 s2 s3 : HurricanesMonitor) (e : exn) :
  no_schedule payload = Ok false ->
  py_getitem payload "dates" = Ok dates_value ->
  py_iter dates_value = Ok (days_before ++ date_info :: days_after)%list ->
  for_each check_date days_before (on_env (log (Print MsgBanner)) s)
    = (Ok tt, s1) ->
  py_getitem date_info "date" = Ok date ->
  py_getitem date_info "games" = Ok games_value ->
  py_iter games_value = Ok (before ++ bad :: after)%list ->
  for_each (check_game date) before s1 = (Ok tt, s2) ->
  check_game date bad s2 = (Raise e, s3) ->
  check_games (Payload payload) (on_env (log (Print MsgBanner)) s)
    = (Raise e, s3) /\
  run (Payload payload) s = (Raise e, s3) /\
  exists evs, env s3 = logs evs (env s) /\ no_save evs = true.
Proof.
  intros Hno Hdates Hdays Hbefore Hdate Hgames Hlist Hpre Hbad.
  assert (Hday : check_date date_info s1 = (Raise e, s3)).
  { unfold check_date, bind, lift. rewrite Hdate, Hgames, Hlist.
    apply (for_each_raise _ _ _ _ _ _ _ _ Hpre Hbad). }
  assert (Hcheck : check_games (Payload payload)
                     (on_env (log (Print MsgBanner)) s) = (Raise e, s3)).
  { unfold check_games, fetch_schedule, try_except, bind, lift.
    cbn [http_get_json]. rewrite Hno, Hdates, Hdays.
    apply (for_each_raise _ _ _ _ _ _ _ _ Hbefore Hday). }
  split; [exact Hcheck|]. split.
  - rewrite games_run_spec, Hcheck. reflexivity.
  - pose proof (HurricanesFacts.check_games_quiet (env s) (Payload payload)
                  (on_env (log (Print MsgBanner)) s)) as Hq.
    unfold quiet_since in Hq.
    specialize (Hq (extends_quietly_log _ _ (Print MsgBanner) eq_refl
                      (extends_quietly_refl _))).
    rewrite Hcheck in Hq. exact Hq.
Qed.

End HurricanesRun.

(* ================================================================== *)
(** ** The Known-Item Store: loading *)
(* ================================================================== *)

Module Loads.

(** Once the existence test has returned, loading returns: the empty
    mapping for a missing document and for one that cannot be opened or
    parsed, the parsed value otherwise.  The only other effect is the
    load being traced. *)
Lemma load_returns_when_examined :
  (forall s : BandTour.TourMonitor,
      (forall e, data_file (BandTour.env s) <> Unreachable e) ->
      BandTour.load_known_shows s =
        (Ok match data_file (BandTour.env s) with
            | Json v => v
            | _ => VDict []
            end,
         BandTour.on_env (log StoreLoad) s)) /\
  (forall s : Hurricanes.HurricanesMonitor,
      (forall e, data_file (Hurricanes.env s) <> Unreachable e) ->
      Hurricanes.load_known_games s =
        (Ok match data_file (Hurricanes.env s) with
            | Json v => v
            | _ => VDict []
            end,
         Hurricanes.on_env (log StoreLoad) s)) /\
  (forall s : ComicEvents.ComicEventsMonitor,
      (forall e, data_file (ComicEvents.env s) <> Unreachable e) ->
      ComicEvents.load_known_events s =
        (Ok match data_file (ComicEvents.env s) with
            | Json v => v
            | _ => VDict []
            end,
         ComicEvents.on_env (log StoreLoad) s)).
Proof.
  repeat split; intros s H.
  - unfold BandTour.load_known_shows, BandTour.emit, modify, get, bind,
      try_except, lift, ret.
    cbn [BandTour.env BandTour.on_env log data_file].
    destruct (data_file (BandTour.env s)) as [|e| |];
      try reflexivity; destruct (H e eq_refl).
  - unfold Hurricanes.load_known_games, Hurricanes.emit, modify, get, bind,
      try_except, lift, ret.
    cbn [Hurricanes.env Hurricanes.on_env log data_file].
    destruct (data_file (Hurricanes.env s)) as [|e| |];
      try reflexivity; destruct (H e eq_refl).
  - unfold ComicEvents.load_known_events, ComicEvents.emit, modify, get, bind,
      try_except, lift, ret.
    cbn [ComicEvents.env ComicEvents.on_env log data_file].
    destruct (data_file (ComicEvents.env s)) as [|e| |];
      try reflexivity; destruct (H e eq_refl).
Qed.

End Loads.

(** C2 does not hold of the code.  In each of the three load methods the
    existence test comes before the [try], so an error of the test itself
    (the path cannot be examined: no permission on a directory of the
    path, a name too long) is not caught: the load raises it, and so does
    the constructor of the monitor, instead of returning the empty
    mapping. *)
Theorem load_raises_when_existence_test_raises :
  let w := mkWorld (Unreachable OSError) None [] in
  BandTour.load_known_shows (BandTour.blank w)
    = (Raise OSError, BandTour.blank (log StoreLoad w)) /\
  Hurricanes.load_known_games (Hurricanes.blank w)
    = (Raise OSError, Hurricanes.blank (log StoreLoad w)) /\
  ComicEvents.load_known_events (ComicEvents.mkMonitor VNone [] w)
    = (Raise OSError, ComicEvents.mkMonitor VNone [] (log StoreLoad w)) /\
  fst (BandTour.session (fun _ => Payload (VList [])) w) = Raise OSError /\
  fst (Hurricanes.session (Payload (VDict [])) w) = Raise OSError.
Proof. repeat split. Qed.

(* ================================================================== *)
(** ** The location predicates *)
(* ================================================================== *)

(** C8.  PNC Arena, Raleigh, NC is in North Carolina for the band
    monitor; the same venue and city with region SC is not. *)
Theorem pnc_arena_scenario :
  BandTour.is_in_north_carolina (VStr "PNC Arena") (VStr "Raleigh") (VStr "NC")
    = Ok true /\
  BandTour.is_in_north_carolina (VStr "PNC Arena") (VStr "Raleigh") (VStr "SC")
    = Ok false.
Proof. split; vm_compute; reflexivity. Qed.

(** C10.  Both location predicates accept text that merely contains the
    letters "nc": the comic monitor for any location string whose lower
    case contains "nc", as "Cincinnati, OH" does; the band monitor for any
    region string whose lower case contains "nc", as "Valencia" does,
    whatever the venue and city. *)
Theorem nc_substring_is_accepted :
  (forall location : string,
      str_contains "nc" (lower location) = true ->
      ComicEvents.is_nc_event location = true) /\
  ComicEvents.is_nc_event "Cincinnati, OH" = true /\
  (forall (venue city : value) (region : string),
      str_contains "nc" (lower region) = true ->
      BandTour.is_in_north_carolina venue city (VStr region) = Ok true) /\
  BandTour.is_in_north_carolina (VStr "Mestalla") (VStr "Valencia")
    (VStr "Valencia") = Ok true.
Proof.
  split; [|split; [|split]].
  - intros location H. unfold ComicEvents.is_nc_event, ComicEvents.LOCATIONS.
    cbn [existsb]. change (lower "NC") with "nc". rewrite H. reflexivity.
  - vm_compute. reflexivity.
  - intros venue city region H. unfold BandTour.is_in_north_carolina.
    destruct (existsb _ BandTour.nc_indicators); [reflexivity|].
    destruct region as [|c r]; [discriminate|].
    cbn [py_truthy String.eqb negb]. rewrite H. reflexivity.
  - vm_compute. reflexivity.
Qed.

Lemma nc_substring_is_accepted_witness :
  ComicEvents.is_nc_event "Cincinnati, OH" = true /\
  BandTour.is_in_north_carolina (VStr "Great American Ball Park")
    (VStr "Cincinnati") (VStr "Cincinnati, OH") = Ok true.
Proof.
  split.
  - apply (proj1 nc_substring_is_accepted). vm_compute. reflexivity.
  - apply (proj1 (proj2 (proj2 nc_substring_is_accepted))).
    vm_compute. reflexivity.
Defined.

(* ================================================================== *)
(** ** The Change Detector *)
(* ================================================================== *)

(** C5.  A batch made of one candidate twice, where the candidate passes
    the filter and resolves to an identifier the store does not hold,
    yields a delta of exactly one item, and the store ends with exactly
    one entry under that identifier, holding that item. *)
Theorem duplicate_in_batch_reported_once :
  forall (net : string -> response) (band : string) (show id info : value)
         (k : key) (d : dict) (s : BandTour.TourMonitor),
    net band = Payload (VList [show; show]) ->
    BandTour.classify band show = Ok (BandTour.Candidate id info) ->
    hashable id = Some k ->
    BandTour.known_shows s = VDict d ->
    dict_mem d k = false ->
    BandTour.new_shows s = [] ->
    exists s' d',
      BandTour.check_band net band s = (Ok tt, s') /\
      BandTour.new_shows s' = [info] /\
      List.length (BandTour.new_shows s') = 1%nat /\
      BandTour.known_shows s' = VDict d' /\
      dict_count d' k = 1%nat /\
      dict_get d' k = Some info.
Proof.
  intros net band show id info k d s Hnet Hc Hh Hk Hm Hn.
  destruct (BandFacts.check_band_on_dict net band d s Hk) as (evs & _ & H).
  unfold BandTour.shows_of in H. rewrite Hnet, Hn in H.
  unfold BandTour.detect in H. cbn [fold_left] in H.
  assert (E1 : BandTour.detect_step band (d, []) show
               = (dict_set d k info, [info])).
  { unfold BandTour.detect_step. rewrite Hc, Hh. cbn [fst snd]. rewrite Hm.
    reflexivity. }
  assert (E2 : BandTour.detect_step band (dict_set d k info, [info]) show
               = (dict_set d k info, [info])).
  { unfold BandTour.detect_step. rewrite Hc, Hh. cbn [fst snd].
    rewrite dict_mem_set_same. reflexivity. }
  rewrite E1, E2 in H. cbn [fst snd] in H.
  eexists. exists (dict_set d k info). split; [exact H|].
  cbn [BandTour.new_shows BandTour.known_shows].
  repeat split.
  - apply dict_count_set_new. apply dict_mem_get, Hm.
  - apply dict_get_set_same.
Qed.

Lemma duplicate_in_batch_reported_once_witness :
  let show :=
    VDict [ (KStr "id", VStr "X-2024-01-01");
            (KStr "datetime", VStr "2024-01-01T20:00:00");
            (KStr "venue", VDict [ (KStr "name", VStr "PNC Arena");
                                   (KStr "city", VStr "Raleigh");
                                   (KStr "region", VStr "NC") ]) ] in
  let net := fun _ : string => Payload (VList [show; show]) in
  let s := BandTour.mkMonitor (VDict []) [] (mkWorld Missing None []) in
  exists s' d',
    BandTour.check_band net "Metallica" s = (Ok tt, s') /\
    List.length (BandTour.new_shows s') = 1%nat /\
    BandTour.known_shows s' = VDict d' /\
    dict_count d' (KStr "X-2024-01-01") = 1%nat.
Proof.
  intros show net s.
  destruct (duplicate_in_batch_reported_once net "Metallica" show
              (VStr "X-2024-01-01")
              (BandTour.make_show_info "Metallica" (VStr "PNC Arena")
                 (VStr "Raleigh") (VStr "NC") (VStr "2024-01-01T20:00:00")
                 (VStr EmptyString) (VStr "X-2024-01-01"))
              (KStr "X-2024-01-01") [] s
              eq_refl eq_refl eq_refl eq_refl eq_refl eq_refl)
    as (s' & d' & H1 & _ & H2 & H3 & H4 & _).
  exists s', d'. auto.
Defined.

Module StoreKeeps.

(** In memory nothing is rewritten: whatever the store maps an identifier
    to when it is loaded, the mapping handed to the one save of the run
    still maps that identifier to the same record. *)
Lemma memory_keeps_entries :
  forall (net : string -> response) (w : world) (k : key) (rec : value),
    store_lookup (loaded (data_file w)) k = Some rec ->
    exists mapping pre post,
      trace (BandTour.env (snd (BandTour.session net w)))
        = (trace w ++ pre ++ StoreSave mapping :: post)%list /\
      no_save pre = true /\
      no_save post = true /\
      store_lookup mapping k = Some rec.
Proof.
  intros net w k rec Hrec.
  destruct (loaded (data_file w)) as [| | | | |d] eqn:Hl; try discriminate.
  rewrite (BandRun.session_loaded net w d Hl).
  set (s0 := BandTour.mkMonitor (VDict d) [] (log StoreLoad w)).
  destruct (BandTrace.run_trace net s0) as (pre & post & Htr & Hpre & Hpost & _).
  exists (BandTour.known_shows (snd (BandTour.run net s0))), (StoreLoad :: pre), post.
  split; [|split; [|split]].
  - rewrite Htr. subst s0. cbn [BandTour.env log trace].
    rewrite <- !app_assoc. reflexivity.
  - exact Hpre.
  - apply no_store_op_no_save, Hpost.
  - destruct (DetectAll.run_on_dict net d s0 eq_refl) as [-> _].
    cbn [store_lookup] in *. unfold BandTour.detect_all.
    apply DetectAll.bands_frame, Hrec.
Qed.

End StoreKeeps.

(** C9 does not hold of the code.  The store holds a record under the
    text "7"; a show whose [id] is the JSON number 7 is new to the store
    and is recorded under the number 7.  In memory both entries stand,
    but the save writes both keys as the text "7", and the document read
    back maps "7" to the new record: the stored entry has been
    rewritten. *)
Theorem integer_id_rewrites_stored_entry :
  let old := VDict [(KStr "venue", VStr "Red Hat Amphitheater")] in
  let show :=
    VDict [ (KStr "id", VInt 7);
            (KStr "datetime", VStr "2025-06-01T19:00:00");
            (KStr "venue", VDict [ (KStr "name", VStr "PNC Arena");
                                   (KStr "city", VStr "Raleigh");
                                   (KStr "region", VStr "NC") ]) ] in
  let net := fun band : string =>
    if String.eqb band "Metallica" then Payload (VList [show])
    else Payload (VList []) in
  let info :=
    BandTour.make_show_info "Metallica" (VStr "PNC Arena") (VStr "Raleigh")
      (VStr "NC") (VStr "2025-06-01T19:00:00") (VStr EmptyString) (VInt 7) in
  let w := mkWorld (Json (VDict [(KStr "7", old)])) None [] in
  let after := BandTour.session net w in
  store_lookup (loaded (data_file w)) (KStr "7") = Some old /\
  fst after = Ok (Some [info]) /\
  BandTour.known_shows (snd after) = VDict [(KStr "7", old); (KInt 7, info)] /\
  data_file (BandTour.env (snd after)) = Json (VDict [(KStr "7", info)]) /\
  store_lookup (loaded (data_file (BandTour.env (snd after)))) (KStr "7")
    = Some info /\
  info <> old.
Proof. vm_compute. repeat split. discriminate. Qed.

(** C6.  An identifier the store already holds stays mapped to the record
    it had, no item of the delta carries it, and a candidate resolving to
    it leaves both store and delta as they were, whatever attributes the
    candidate has; in the band monitor and in the hurricanes monitor. *)
Theorem known_identifier_is_skipped :
  (forall (net : string -> response) (s : BandTour.TourMonitor) (d : dict)
          (id : value) (k : key) (rec : value),
      BandTour.known_shows s = VDict d ->
      BandTour.new_shows s = [] ->
      hashable id = Some k ->
      dict_get d k = Some rec ->
      store_lookup (BandTour.known_shows (snd (BandTour.run net s))) k
        = Some rec /\
      (forall item,
          In item (BandTour.new_shows (snd (BandTour.run net s))) ->
          item_field item "show_id" <> Some id) /\
      (forall band show info,
          BandTour.classify band show = Ok (BandTour.Candidate id info) ->
          BandTour.check_show band show s
            = (Ok tt, BandTour.on_env (log (StoreContains id)) s))) /\
  (forall (net : response) (s : Hurricanes.HurricanesMonitor) (d : dict)
          (gid : string) (rec : value),
      Hurricanes.known_games s = VDict d ->
      Hurricanes.new_games s = [] ->
      dict_get d (KStr gid) = Some rec ->
      store_lookup (Hurricanes.known_games (snd (Hurricanes.run net s)))
                   (KStr gid) = Some rec /\
      (forall item,
          In item (Hurricanes.new_games (snd (Hurricanes.run net s))) ->
          item_field item "game_id" <> Some (VStr gid)) /\
      (forall date game pk,
          py_getitem game "gamePk" = Ok pk ->
          py_str pk = gid ->
          Hurricanes.check_game date game s
            = (Ok tt, Hurricanes.on_env (log (StoreContains (VStr gid))) s))).
Proof.
  split.
  - intros net s d id k rec Hk Hn Hh Hrec.
    destruct (DetectAll.run_on_dict net d s Hk) as [Hk' Hn'].
    rewrite Hk', Hn', Hn. unfold BandTour.detect_all. cbn [store_lookup].
    split; [|split].
    + apply DetectAll.bands_frame, Hrec.
    + intros item Hin Hfield.
      destruct (DetectAll.bands_new net _ _ _ _ Hin)
        as [[]|(band & show & id' & k' & _ & _ & Hc & Hh' & Hd)].
      rewrite (Detect.classify_show_id _ _ _ _ Hc) in Hfield.
      injection Hfield as ->. congruence.
    + intros band show info Hc.
      rewrite (BandFacts.check_show_dict band show d s Hk).
      unfold BandTour.check_show_on_dict. rewrite Hc, Hh.
      unfold dict_mem. rewrite Hrec. reflexivity.
  - intros net s d gid rec Hk Hn Hrec.
    pose proof (HurricanesFacts.run_grows d [] net s) as H.
    rewrite <- Hn in H at 1.
    specialize (H (HurricanesFacts.grown_from_refl d s Hk)).
    destruct H as (d' & Hk' & Hframe & Hdelta).
    rewrite Hk'. cbn [store_lookup]. split; [|split].
    + apply Hframe, Hrec.
    + intros item Hin Hfield.
      destruct (Hdelta item Hin) as [[]|(gid' & Hf & Hd)].
      rewrite Hf in Hfield. injection Hfield as ->. congruence.
    + intros date game pk Hpk <-.
      rewrite (HurricanesFacts.check_game_dict date game d s Hk).
      unfold Hurricanes.check_game_on_dict. rewrite Hpk.
      unfold dict_mem. rewrite Hrec. reflexivity.
Qed.

Lemma known_identifier_is_skipped_witness :
  let old := VDict [(KStr "venue", VStr "Red Hat Amphitheater")] in
  let show :=
    VDict [ (KStr "id", VStr "1001");
            (KStr "datetime", VStr "2025-06-01T19:00:00");
            (KStr "venue", VDict [ (KStr "name", VStr "PNC Arena");
                                   (KStr "region", VStr "NC") ]) ] in
  let game :=
    VDict [ (KStr "gamePk", VInt 2024020001);
            (KStr "teams",
             VDict [ (KStr "home",
                      VDict [(KStr "team",
                              VDict [(KStr "name", VStr "Carolina Hurricanes")])]);
                     (KStr "away",
                      VDict [(KStr "team",
                              VDict [(KStr "name", VStr "Boston Bruins")])]) ]) ] in
  let schedule :=
    VDict [(KStr "dates",
            VList [VDict [ (KStr "date", VStr "2024-10-11");
                           (KStr "games", VList [game]) ]])] in
  let w := mkWorld Missing None [] in
  let band_s := BandTour.mkMonitor (VDict [(KStr "1001", old)]) [] w in
  let puck_s :=
    Hurricanes.mkMonitor (VDict [(KStr "2024020001", old)]) [] w in
  (store_lookup
     (BandTour.known_shows
        (snd (BandTour.run (fun _ => Payload (VList [show])) band_s)))
     (KStr "1001") = Some old /\
   BandTour.new_shows
     (snd (BandTour.run (fun _ => Payload (VList [show])) band_s)) = []) /\
  (store_lookup
     (Hurricanes.known_games (snd (Hurricanes.run (Payload schedule) puck_s)))
     (KStr "2024020001") = Some old /\
   Hurricanes.new_games (snd (Hurricanes.run (Payload schedule) puck_s)) = []).
Proof.
  intros old show game schedule w band_s puck_s. split.
  - split; [|vm_compute; reflexivity].
    exact (proj1 (proj1 known_identifier_is_skipped
                    (fun _ => Payload (VList [show])) band_s
                    [(KStr "1001", old)] (VStr "1001") (KStr "1001") old
                    eq_refl eq_refl eq_refl eq_refl)).
  - split; [|vm_compute; reflexivity].
    exact (proj1 (proj2 known_identifier_is_skipped
                    (Payload schedule) puck_s
                    [(KStr "2024020001", old)] "2024020001" old
                    eq_refl eq_refl eq_refl)).
Defined.

(* ================================================================== *)
(** ** Saving *)
(* ================================================================== *)




(* ================================================================== *)
(** ** Fetching *)
(* ================================================================== *)

(** C7, as the code has it.  When the request or the parsing of its
    answer raises, neither fetch raises and each prints the error.  The
    band monitor's fetch returns the empty list, and [check_band] then
    only prints.  The hurricanes monitor's fetch returns [None], and
    [check_games] then only prints.  Store, delta and document stay as
    they were, and the caller goes on. *)
Theorem failed_fetch_yields_no_candidates :
  (forall (net : string -> response) (band : string) (e : exn)
          (s : BandTour.TourMonitor),
      net band = Failed e ->
      BandTour.fetch_shows net band s
        = (Ok [], BandTour.on_env (log (Print (MsgFetchError band e))) s) /\
      BandTour.check_band net band s
        = (Ok tt,
           BandTour.on_env
             (logs [Print (MsgChecking band); Print (MsgFetchError band e)]) s)) /\
  (forall (e : exn) (s : Hurricanes.HurricanesMonitor),
      Hurricanes.fetch_schedule (Failed e) s
        = (Ok VNone,
           Hurricanes.on_env
             (log (Print (MsgFetchError Hurricanes.TEAM_NAME e))) s) /\
      Hurricanes.check_games (Failed e) s
        = (Ok tt,
           Hurricanes.on_env
             (logs [Print (MsgFetchError Hurricanes.TEAM_NAME e);
                    Print MsgNoData]) s)).
Proof.
  split.
  - intros net band e s Hnet. split.
    + rewrite BandFacts.fetch_shows_spec. unfold BandTour.shows_of.
      rewrite Hnet. reflexivity.
    + unfold BandTour.check_band, BandTour.print, BandTour.emit, modify.
      unfold bind at 1 2. cbn [fst snd].
      rewrite BandFacts.fetch_shows_spec. unfold BandTour.shows_of.
      rewrite Hnet. cbn [for_each ret].
      unfold BandTour.on_env. cbn [BandTour.env BandTour.known_shows BandTour.new_shows].
      rewrite !log_as_logs, logs_logs. reflexivity.
  - intros e s. split; [reflexivity|].
    unfold Hurricanes.check_games, Hurricanes.fetch_schedule, try_except,
      Hurricanes.print, Hurricanes.emit, modify, bind, lift, ret.
    cbn. unfold Hurricanes.on_env.
    cbn [Hurricanes.env Hurricanes.known_games Hurricanes.new_games].
    rewrite !log_as_logs, logs_logs. reflexivity.
Qed.

Lemma failed_fetch_yields_no_candidates_witness :
  let net := fun _ : string => Failed OSError in
  let s := BandTour.mkMonitor (VDict []) [] (mkWorld Missing None []) in
  BandTour.fetch_shows net "Metallica" s
    = (Ok [], BandTour.on_env (log (Print (MsgFetchError "Metallica" OSError))) s).
Proof.
  intros net s.
  exact (proj1 (proj1 failed_fetch_yields_no_candidates net "Metallica" OSError s
                  eq_refl)).
Defined.

(** C7 as stated fails on the hurricanes monitor: after a failed request
    its fetch returns [None], which is not a sequence. *)
Lemma failed_schedule_fetch_returns_none :
  let s := Hurricanes.mkMonitor (VDict []) [] (mkWorld Missing None []) in
  fst (Hurricanes.fetch_schedule (Failed OSError) s) = Ok VNone /\
  fst (Hurricanes.fetch_schedule (Failed OSError) s) <> Ok (VList []) /\
  py_iter VNone = Raise TypeError.
Proof. cbn. repeat split. discriminate. Qed.

(* ================================================================== *)
(** ** Errors inside the loop *)
(* ================================================================== *)

(** C3, as the code has it.  In the band monitor an error raised while
    one candidate is processed ends the processing of that candidate
    only: neither a band's loop nor the loop over the bands ever raises;
    the handler prints the error and the loop goes on with the rest of
    the batch.  A candidate that cannot be read (the error is raised
    while it is read, filtered and identified) is skipped: the body
    raises before it has touched anything, and the batch leaves the
    store and the delta it would have left without that candidate,
    whatever the store holds.  The hurricanes monitor has no handler: an
    error on one game ends both loops, [check_games] and [run] with that
    error, at the state reached when it was raised; the games and the
    dates after it are not looked at, and nothing is saved. *)
Theorem malformed_candidate_is_skipped :
  (forall (net : string -> response) (band : string),
      returns (BandTour.check_band net band)) /\
  (forall net : string -> response,
      returns (for_each (BandTour.check_band net) BandTour.BANDS)) /\
  (forall (band : string) (bad : value) (rest : list value)
          (s s1 : BandTour.TourMonitor) (e : exn),
      BandTour.check_show band bad s = (Raise e, s1) ->
      for_each (BandTour.check_show_guarded band) (bad :: rest) s
        = for_each (BandTour.check_show_guarded band) rest
            (BandTour.on_env (log (Print (MsgItemError e))) s1)) /\
  (forall (band : string) (before after : list value) (bad : value)
          (s : BandTour.TourMonitor) (e : exn),
      BandTour.classify band bad = Raise e ->
      (forall s', BandTour.check_show band bad s' = (Raise e, s')) /\
      let with_bad :=
        snd (for_each (BandTour.check_show_guarded band)
                      (before ++ bad :: after)%list s) in
      let without :=
        snd (for_each (BandTour.check_show_guarded band) (before ++ after)%list s) in
      BandTour.known_shows with_bad = BandTour.known_shows without /\
      BandTour.new_shows with_bad = BandTour.new_shows without /\
      In (Print (MsgItemError e)) (trace (BandTour.env with_bad))) /\
  (forall (payload dates_value date_info date games_value bad : value)
          (days_before days_after before after : list value)
          (s s1 s2 s3 : Hurricanes.HurricanesMonitor) (e : exn),
      Hurricanes.no_schedule payload = Ok false ->
      py_getitem payload "dates" = Ok dates_value ->
      py_iter dates_value = Ok (days_before ++ date_info :: days_after)%list ->
      for_each Hurricanes.check_date days_before
        (Hurricanes.on_env (log (Print MsgBanner)) s) = (Ok tt, s1) ->
      py_getitem date_info "date" = Ok date ->
      py_getitem date_info "games" = Ok games_value ->
      py_iter games_value = Ok (before ++ bad :: after)%list ->
      for_each (Hurricanes.check_game date) before s1 = (Ok tt, s2) ->
      Hurricanes.check_game date bad s2 = (Raise e, s3) ->
      Hurricanes.check_games (Payload payload)
        (Hurricanes.on_env (log (Print MsgBanner)) s) = (Raise e, s3) /\
      Hurricanes.run (Payload payload) s = (Raise e, s3) /\
      exists evs,
        Hurricanes.env s3 = logs evs (Hurricanes.env s) /\
        no_save evs = true).
Proof.
  split; [|split; [|split; [|split]]].
  - apply BandAny.check_band_returns.
  - intros net. apply returns_for_each. apply BandAny.check_band_returns.
  - intros band bad rest s s1 e H. apply for_each_cons_ok.
    unfold BandTour.check_show_guarded, try_except. rewrite H. reflexivity.
  - intros band before after bad s e Hbad. split.
    + intros s'. apply BandErrors.unreadable_is_left, Hbad.
    + apply BandErrors.batch_with_unreadable, Hbad.
  - apply HurricanesRun.game_error_ends_run.
Qed.

Lemma malformed_candidate_is_skipped_witness :
  let good :=
    VDict [ (KStr "id", VStr "1002");
            (KStr "venue", VDict [(KStr "region", VStr "NC")]) ] in
  let bad := VStr "not an event" in
  let s := BandTour.mkMonitor (VList []) [] (mkWorld Missing None []) in
  let with_bad :=
    snd (for_each (BandTour.check_show_guarded "Metallica") ([] ++ bad :: [good])%list s) in
  let without :=
    snd (for_each (BandTour.check_show_guarded "Metallica") ([] ++ [good])%list s) in
  let game := VDict [(KStr "gamePk", VInt 2024020001)] in
  let day :=
    VDict [(KStr "date", VStr "2024-10-11"); (KStr "games", VList [game; game])] in
  let t := Hurricanes.mkMonitor (VDict []) [] (mkWorld Missing None []) in
  (BandTour.known_shows with_bad = BandTour.known_shows without /\
   BandTour.new_shows with_bad = BandTour.new_shows without /\
   In (Print (MsgItemError AttributeError)) (trace (BandTour.env with_bad))) /\
  fst (Hurricanes.run (Payload (VDict [(KStr "dates", VList [day; day])])) t)
    = Raise KeyError.
Proof.
  intros good bad s with_bad without game day t. split.
  - exact (proj2 (proj1 (proj2 (proj2 (proj2 malformed_candidate_is_skipped)))
                    "Metallica" [] [good] bad s AttributeError eq_refl)).
  - destruct (proj2 (proj2 (proj2 (proj2 malformed_candidate_is_skipped)))
                (VDict [(KStr "dates", VList [day; day])])
                (VList [day; day]) day (VStr "2024-10-11")
                (VList [game; game]) game [] [day] [] [game]
                t _ _ _ KeyError
                eq_refl eq_refl eq_refl eq_refl eq_refl eq_refl eq_refl
                eq_refl eq_refl) as (_ & H & _).
    rewrite H. reflexivity.
Defined.

(** C3 as stated fails on the hurricanes monitor: a game without its
    expected fields ends the run with [KeyError], and the well-formed game
    after it, which alone would have been reported, is never looked at. *)
Lemma hurricanes_batch_aborts_on_bad_game :
  let good :=
    VDict [ (KStr "gamePk", VInt 2024020001);
            (KStr "teams",
             VDict [ (KStr "home",
                      VDict [(KStr "team",
                              VDict [(KStr "name", VStr "Carolina Hurricanes")])]);
                     (KStr "away",
                      VDict [(KStr "team",
                              VDict [(KStr "name", VStr "Boston Bruins")])]) ]) ] in
  let bad := VDict [] in
  let schedule := fun games =>
    Payload (VDict [(KStr "dates",
                     VList [VDict [ (KStr "date", VStr "2024-10-11");
                                    (KStr "games", VList games) ]])]) in
  let w := mkWorld Missing None [] in
  fst (Hurricanes.session (schedule [bad; good]) w) = Raise KeyError /\
  Hurricanes.new_games (snd (Hurricanes.session (schedule [bad; good]) w)) = [] /\
  List.length
    (Hurricanes.new_games (snd (Hurricanes.session (schedule [good]) w))) = 1%nat.
Proof. vm_compute. repeat split. Qed.

(* ================================================================== *)
(** ** Two runs in a row *)
(* ================================================================== *)

(** C1 does not hold of the code.  A show whose [id] is a JSON number is
    stored under that number; the save writes the key as text; the next
    process, reading the text key back, does not find the number in the
    store and reports the same show again. *)
Theorem integer_id_reported_again :
  let show :=
    VDict [ (KStr "id", VInt 1027968345);
            (KStr "datetime", VStr "2025-06-01T19:00:00");
            (KStr "venue", VDict [ (KStr "name", VStr "PNC Arena");
                                   (KStr "city", VStr "Raleigh");
                                   (KStr "region", VStr "NC") ]) ] in
  let net := fun band : string =>
    if String.eqb band "Metallica" then Payload (VList [show])
    else Payload (VList []) in
  let info :=
    BandTour.make_show_info "Metallica" (VStr "PNC Arena") (VStr "Raleigh")
      (VStr "NC") (VStr "2025-06-01T19:00:00") (VStr EmptyString)
      (VInt 1027968345) in
  let first := BandTour.session net (mkWorld Missing None []) in
  let second := BandTour.session net (BandTour.env (snd first)) in
  fst first = Ok (Some [info]) /\
  data_file (BandTour.env (snd first))
    = Json (VDict [(KStr "1027968345", info)]) /\
  fst second = Ok (Some [info]) /\
  BandTour.new_shows (snd second) = [info].
Proof. vm_compute. repeat split. Qed.

(* ================================================================== *)
(** ** Bookkeeping of the band monitor *)
(* ================================================================== *)

Module BandBooks.
Import BandTour BandView.

Lemma dict_get_app_none (d1 d2 : dict) (k : key) :
  dict_get (d1 ++ d2)%list k = None -> dict_get d1 k = None.
Proof.
  induction d1 as [|[k' v] d1 IH]; cbn; [reflexivity|].
  destruct (key_eqb k k'); [discriminate|exact IH].
Qed.

Lemma subseq_refl {A : Type} (l : list A) : subseq l l.
Proof. induction l; constructor; assumption. Qed.

Lemma subseq_nil_l {A : Type} (l : list A) : subseq [] l.
Proof. induction l; constructor; assumption. Qed.

Lemma subseq_app {A : Type} (a1 a2 b1 b2 : list A) :
  subseq a1 a2 -> subseq b1 b2 -> subseq (a1 ++ b1)%list (a2 ++ b2)%list.
Proof.
  intros Ha Hb. induction Ha; cbn; [exact Hb| |]; constructor; assumption.
Qed.

(** What a batch does to a dictionary store and a delta, in one formula:
    it appends to both the records of some of its candidates, in batch
    order, under keys that are new and pairwise different. *)
Lemma detect_appends (net : string -> response) (band : string)
    (shows : list value) :
  (forall show, In show shows -> In show (shows_of net band)) ->
  forall (d : dict) (n : list value),
  exists ks items,
    detect band shows (d, n) = ((d ++ combine ks items)%list, (n ++ items)%list) /\
    Forall2 (recorded_from net band) ks items /\
    NoDup (map key_norm ks) /\
    (forall k, In k ks -> dict_get d k = None) /\
    subseq items (candidate_infos band shows).
Proof.
  induction shows as [|show rest IH]; intros Hsub d n.
  - exists [], []. cbn. rewrite !app_nil_r.
    repeat split; try constructor. intros k [].
  - assert (Hrest : forall sh, In sh rest -> In sh (shows_of net band))
      by (intros sh H; apply Hsub; right; exact H).
    unfold detect. cbn [fold_left]. fold (detect band rest).
    destruct (Detect.detect_step_cases band d n show)
      as [->|(id & info & k & Hc & Hh & Hnew & ->)].
    + destruct (IH Hrest d n) as (ks & items & E & Hrec & Hnd & Habs & Hsq).
      exists ks, items. repeat split; try assumption.
      unfold candidate_infos. cbn [flat_map]. fold (candidate_infos band rest).
      apply (subseq_app [] _ items _); [apply subseq_nil_l|exact Hsq].
    + rewrite (dict_set_new d k info Hnew).
      destruct (IH Hrest (d ++ [(k, info)])%list (n ++ [info])%list)
        as (ks & items & E & Hrec & Hnd & Habs & Hsq).
      exists (k :: ks), (info :: items).
      split; [etransitivity; [exact E|]; cbn [combine];
              rewrite <- !app_assoc; reflexivity|].
      split; [|split; [|split]].
      * constructor; [|exact Hrec]. exists show, id.
        split; [apply Hsub; left; reflexivity|]. auto.
      * cbn [map]. constructor; [|exact Hnd].
        intros Hin. apply in_map_iff in Hin. destruct Hin as (k' & Hn & Hin).
        specialize (Habs k' Hin).
        assert (Hk : key_eqb k' k = true) by (apply key_eqb_norm; exact Hn).
        rewrite (dict_get_cong _ _ _ Hk) in Habs.
        rewrite <- (dict_set_new d k info Hnew), dict_get_set_same in Habs.
        discriminate.
      * intros k' [<-|Hin]; [exact Hnew|].
        apply (dict_get_app_none d [(k, info)]). apply Habs, Hin.
      * unfold candidate_infos. cbn [flat_map]. rewrite Hc. cbn [app].
        apply subseq_take. exact Hsq.
Qed.

Lemma combine_app_eq {A B : Type} (a1 a2 : list A) (b1 b2 : list B) :
  List.length a1 = List.length b1 ->
  combine (a1 ++ a2) (b1 ++ b2) = (combine a1 b1 ++ combine a2 b2)%list.
Proof.
  revert b1. induction a1 as [|x a1 IH]; intros [|y b1] H; cbn in *;
    try discriminate; [reflexivity|].
  rewrite IH by (injection H; auto). reflexivity.
Qed.

Lemma dict_mem_combine (d : dict) (ks : list key) (items : list value) (k : key) :
  List.length ks = List.length items -> In k ks ->
  dict_mem (d ++ combine ks items)%list k = true.
Proof.
  intros Hlen Hin. unfold dict_mem.
  induction d as [|[k' v] d IH]; cbn [app dict_get].
  - revert items Hlen. induction ks as [|k0 ks IHk]; intros [|i items] Hlen;
      cbn in *; try discriminate; [destruct Hin|].
    destruct (key_eqb k k0) eqn:E; [reflexivity|].
    destruct Hin as [->|Hin]; [rewrite key_eqb_refl in E; discriminate|].
    apply IHk; [exact Hin|]. injection Hlen; auto.
  - destruct (key_eqb k k'); [reflexivity|exact IH].
Qed.

(** The same over the batches of several bands. *)
Lemma bands_append (net : string -> response) (bands : list string) :
  forall (d : dict) (n : list value),
  exists ks items,
    detect_bands net bands (d, n)
      = ((d ++ combine ks items)%list, (n ++ items)%list) /\
    Forall2 (fun k item => exists band,
                 In band bands /\ recorded_from net band k item) ks items /\
    NoDup (map key_norm ks) /\
    (forall k, In k ks -> dict_get d k = None) /\
    subseq items (all_candidate_infos net bands).
Proof.
  induction bands as [|band rest IH]; intros d n.
  - exists [], []. cbn. rewrite !app_nil_r.
    repeat split; try constructor. intros k [].
  - unfold detect_bands. cbn [fold_left]. fold (detect_bands net rest).
    destruct (detect_appends net band (shows_of net band) (fun _ H => H) d n)
      as (ks1 & it1 & E1 & Hrec1 & Hnd1 & Habs1 & Hsq1).
    destruct (IH (d ++ combine ks1 it1)%list (n ++ it1)%list)
      as (ks2 & it2 & E2 & Hrec2 & Hnd2 & Habs2 & Hsq2).
    pose proof (Forall2_length Hrec1) as Hlen1.
    exists (ks1 ++ ks2)%list, (it1 ++ it2)%list.
    split; [|split; [|split; [|split]]].
    + etransitivity; [apply (f_equal (detect_bands net rest)); exact E1|].
      etransitivity; [exact E2|].
      rewrite combine_app_eq by exact Hlen1. rewrite <- !app_assoc.
      reflexivity.
    + apply Forall2_app.
      * eapply Forall2_impl; [|exact Hrec1]. intros k item H.
        exists band. split; [left; reflexivity|exact H].
      * eapply Forall2_impl; [|exact Hrec2]. intros k item (b & Hb & H).
        exists b. split; [right; exact Hb|exact H].
    + rewrite map_app. apply NoDup_app; [exact Hnd1|exact Hnd2|].
      intros x H1 H2. apply in_map_iff in H1, H2.
      destruct H1 as (k1 & <- & Hin1). destruct H2 as (k2 & Hn & Hin2).
      specialize (Habs2 k2 Hin2).
      assert (Hk : key_eqb k2 k1 = true) by (apply key_eqb_norm; exact Hn).
      rewrite (dict_get_cong _ _ _ Hk) in Habs2.
      pose proof (dict_mem_combine d ks1 it1 k1 Hlen1 Hin1) as Hm.
      unfold dict_mem in Hm. rewrite Habs2 in Hm. discriminate.
    + intros k Hin. apply in_app_or in Hin. destruct Hin as [Hin|Hin].
      * apply Habs1, Hin.
      * eapply dict_get_app_none. apply Habs2, Hin.
    + unfold all_candidate_infos. cbn [flat_map].
      apply subseq_app; assumption.
Qed.

End BandBooks.

Module BandBooksRun.
Import BandTour BandView.

(** What a candidate that passes normalizes to. *)
Lemma classify_fields (band : string) (show id info : value) :
  classify band show = Ok (Candidate id info) ->
  exists venue city region date url,
    info = make_show_info band venue city region date url id /\
    is_in_north_carolina venue city region = Ok true /\
    py_truthy id = true.
Proof.
  unfold classify, and_then.
  destruct (py_get show "venue" _) as [vd|]; [|discriminate].
  destruct (py_get vd "name" _) as [vn|]; [|discriminate].
  destruct (py_get vd "city" _) as [c|]; [|discriminate].
  destruct (py_get vd "region" _) as [r|]; [|discriminate].
  destruct (is_in_north_carolina vn c r) as [[|]|] eqn:Hnc; cbn [negb];
    try discriminate.
  destruct (show_id_of band show vn) as [sid|] eqn:Hid; [|discriminate].
  destruct (py_get show "datetime" _) as [dt|]; [|discriminate].
  destruct (py_get show "url" _) as [u|]; [|discriminate].
  intros H. injection H as <- <-.
  exists vn, c, r, dt, u. split; [reflexivity|]. split; [exact Hnc|].
  unfold show_id_of in Hid.
  destruct (py_get show "id" VNone) as [idv|]; [|discriminate].
  destruct (py_truthy idv) eqn:Ht; [injection Hid as <-; exact Ht|].
  destruct (py_get show "datetime" (VStr EmptyString)); [|discriminate].
  injection Hid as <-. destruct band; reflexivity.
Qed.

End BandBooksRun.

(** X1.  Over a dictionary store a band-monitor run is append-only: the
    store it leaves is the store it found followed by the items of the
    delta, each under the key of its own identifier; these keys are
    pairwise different and none was in the store before. *)
Theorem band_run_appends :
  forall (net : string -> response) (s : BandTour.TourMonitor) (d : dict),
    BandTour.known_shows s = VDict d ->
    exists ks items,
      BandTour.known_shows (snd (BandTour.run net s))
        = VDict (d ++ combine ks items)%list /\
      BandTour.new_shows (snd (BandTour.run net s))
        = (BandTour.new_shows s ++ items)%list /\
      Forall2 (fun k item =>
                 exists id, item_field item "show_id" = Some id /\
                            hashable id = Some k) ks items /\
      NoDup (map key_norm ks) /\
      (forall k, In k ks -> dict_get d k = None).
Proof.
  intros net s d Hk.
  destruct (DetectAll.run_on_dict net d s Hk) as [Hk' Hn'].
  destruct (BandBooks.bands_append net BandTour.BANDS d (BandTour.new_shows s))
    as (ks & items & E & Hrec & Hnd & Habs & _).
  exists ks, items. rewrite Hk', Hn'. unfold BandTour.detect_all.
  split; [exact (f_equal (fun p => VDict (fst p)) E)|].
  split; [exact (f_equal snd E)|].
  split; [|split; assumption].
  eapply Forall2_impl; [|exact Hrec].
  intros k item (band & _ & show & id & _ & Hc & Hh).
  exists id. split; [eapply Detect.classify_show_id; exact Hc|exact Hh].
Qed.

Lemma band_run_appends_witness :
  let old := VDict [(KStr "venue", VStr "Red Hat Amphitheater")] in
  let show :=
    VDict [ (KStr "id", VStr "1002");
            (KStr "venue", VDict [(KStr "region", VStr "NC")]) ] in
  let net := fun _ : string => Payload (VList [show; show]) in
  let s := BandTour.mkMonitor (VDict [(KStr "1001", old)]) []
             (mkWorld Missing None []) in
  exists ks items,
    BandTour.known_shows (snd (BandTour.run net s))
      = VDict ([(KStr "1001", old)] ++ combine ks items)%list /\
    BandTour.new_shows (snd (BandTour.run net s)) = ([] ++ items)%list /\
    NoDup (map key_norm ks).
Proof.
  intros old show net s.
  destruct (band_run_appends net s [(KStr "1001", old)] eq_refl)
    as (ks & items & H1 & H2 & _ & H3 & _).
  exists ks, items. auto.
Defined.

(** X2.  The delta of a band-monitor run keeps the order of the source:
    what the run adds to the delta is, in order, the records of some of
    the candidates that pass the filter, taken band by band in the order
    of BANDS and within a band in the order of the fetched batch. *)
Theorem band_delta_in_source_order :
  forall (net : string -> response) (s : BandTour.TourMonitor) (d : dict),
    BandTour.known_shows s = VDict d ->
    exists items,
      BandTour.new_shows (snd (BandTour.run net s))
        = (BandTour.new_shows s ++ items)%list /\
      subseq items (BandView.all_candidate_infos net BandTour.BANDS).
Proof.
  intros net s d Hk.
  destruct (DetectAll.run_on_dict net d s Hk) as [_ Hn'].
  destruct (BandBooks.bands_append net BandTour.BANDS d (BandTour.new_shows s))
    as (ks & items & E & _ & _ & _ & Hsq).
  exists items. rewrite Hn'. split; [exact (f_equal snd E)|exact Hsq].
Qed.

Lemma band_delta_in_source_order_witness :
  let show := fun id : string =>
    VDict [ (KStr "id", VStr id);
            (KStr "venue", VDict [(KStr "region", VStr "NC")]) ] in
  let net := fun _ : string => Payload (VList [show "b"; show "a"]) in
  let s := BandTour.mkMonitor (VDict []) [] (mkWorld Missing None []) in
  exists items,
    BandTour.new_shows (snd (BandTour.run net s)) = ([] ++ items)%list /\
    subseq items (BandView.all_candidate_infos net BandTour.BANDS).
Proof.
  intros show net s.
  exact (band_delta_in_source_order net s [] eq_refl).
Defined.

(** X3.  Nothing reaches the delta of a band-monitor run without passing
    the filter: every item of the delta records one of BANDS, a venue,
    city and region that the location predicate accepts, and an
    identifier that is not empty. *)
Theorem band_delta_passed_filter :
  forall (net : string -> response) (s : BandTour.TourMonitor) (d : dict)
         (item : value),
    BandTour.known_shows s = VDict d ->
    BandTour.new_shows s = [] ->
    In item (BandTour.new_shows (snd (BandTour.run net s))) ->
    exists band venue city region id,
      In band BandTour.BANDS /\
      item_field item "band" = Some (VStr band) /\
      item_field item "venue" = Some venue /\
      item_field item "city" = Some city /\
      item_field item "region" = Some region /\
      BandTour.is_in_north_carolina venue city region = Ok true /\
      item_field item "show_id" = Some id /\
      py_truthy id = true.
Proof.
  intros net s d item Hk Hn Hin.
  destruct (DetectAll.run_on_dict net d s Hk) as [_ Hn'].
  rewrite Hn', Hn in Hin. unfold BandTour.detect_all in Hin.
  destruct (DetectAll.bands_new net _ _ _ _ Hin)
    as [[]|(band & show & id & k & Hb & _ & Hc & _ & _)].
  destruct (BandBooksRun.classify_fields band show id item Hc)
    as (venue & city & region & date & url & -> & Hnc & Ht).
  exists band, venue, city, region, id. repeat split; assumption.
Qed.

Lemma band_delta_passed_filter_witness :
  let show :=
    VDict [ (KStr "id", VStr "1002");
            (KStr "venue", VDict [(KStr "region", VStr "NC")]) ] in
  let net := fun band : string =>
    if String.eqb band "Metallica" then Payload (VList [show])
    else Failed OSError in
  let s := BandTour.mkMonitor (VDict []) [] (mkWorld Missing None []) in
  let item :=
    BandTour.make_show_info "Metallica" (VStr "Unknown Venue")
      (VStr EmptyString) (VStr "NC") (VStr "TBD") (VStr EmptyString)
      (VStr "1002") in
  exists band venue city region id,
    In band BandTour.BANDS /\
    item_field item "band" = Some (VStr band) /\
    item_field item "venue" = Some venue /\
    item_field item "city" = Some city /\
    item_field item "region" = Some region /\
    BandTour.is_in_north_carolina venue city region = Ok true /\
    item_field item "show_id" = Some id /\
    py_truthy id = true.
Proof.
  intros show net s item.
  apply (band_delta_passed_filter net s [] item eq_refl eq_refl).
  vm_compute. left. reflexivity.
Defined.

(* ================================================================== *)
(** ** The document after a save *)
(* ================================================================== *)

Section JsonImage.

(** Induction on values that reaches inside lists and dictionaries. *)
Lemma value_nested_ind (P : value -> Prop) :
  P VNone ->
  (forall b, P (VBool b)) ->
  (forall z, P (VInt z)) ->
  (forall s, P (VStr s)) ->
  (forall l, Forall P l -> P (VList l)) ->
  (forall d, Forall (fun p => P (snd p)) d -> P (VDict d)) ->
  forall v, P v.
Proof.
  intros HN HB HI HS HL HD.
  fix IH 1. intros [| b | z | s | l | d].
  - exact HN.
  - apply HB.
  - apply HI.
  - apply HS.
  - apply HL. induction l as [|x l IHl]; constructor; [apply IH|exact IHl].
  - apply HD. induction d as [|[k x] d IHd]; constructor; [apply IH|exact IHd].
Qed.

Lemma dict_get_snoc_none (d : dict) (k k' : key) (v : value) :
  dict_get d k' = None -> key_eqb k' k = false ->
  dict_get (d ++ [(k, v)])%list k' = None.
Proof.
  intros Hd Hk. induction d as [|[k0 v0] d IH]; cbn in *.
  - rewrite Hk. reflexivity.
  - destruct (key_eqb k' k0); [discriminate|apply IH, Hd].
Qed.

Lemma dict_mem_false_in (d : dict) (k k' : key) (v : value) :
  dict_mem d k = false -> In (k', v) d -> key_eqb k k' = false.
Proof.
  unfold dict_mem. induction d as [|[k0 v0] d IH]; cbn; [intros _ []|].
  destruct (key_eqb k k0) eqn:E; [discriminate|].
  intros H [Heq|Hin]; [injection Heq as <- <-; exact E|apply IH; assumption].
Qed.

(** Writing entries with distinct text keys, none of them present, into
    a dictionary appends them. *)
Lemma restring_appends (d : dict) :
  forall acc,
    text_keys d = true -> distinct_keys d = true ->
    Forall (fun p => json_image (snd p) = snd p) d ->
    (forall k v, In (k, v) d -> dict_get acc k = None) ->
    fold_left (fun a p => dict_set a (KStr (json_key (fst p)))
                                   (json_image (snd p))) d acc
      = (acc ++ d)%list.
Proof.
  induction d as [|[k x] d IH]; intros acc Ht Hd Hv Habs; cbn [fold_left].
  - rewrite app_nil_r. reflexivity.
  - cbn in Ht, Hd. apply andb_prop in Ht, Hd.
    destruct Ht as [Hk Ht], Hd as [Hm Hd].
    destruct k as [| | |t]; try discriminate.
    inversion Hv as [|? ? Hx Hv']; subst. cbn [fst snd json_key] in *.
    rewrite Hx, dict_set_new by (apply (Habs (KStr t) x); left; reflexivity).
    rewrite IH; try assumption.
    + rewrite <- app_assoc. reflexivity.
    + intros k v Hin. apply dict_get_snoc_none.
      * apply (Habs k v). right. exact Hin.
      * rewrite key_eqb_sym. apply negb_true_iff in Hm.
        eapply dict_mem_false_in; eassumption.
Qed.

(** A value as [json.load] returns them survives the round trip. *)
Lemma json_image_wf (v : value) : json_wf v = true -> json_image v = v.
Proof.
  induction v as [| b | z | s | l IHl | d IHd] using value_nested_ind;
    try reflexivity.
  - cbn [json_wf json_image]. intros H. f_equal.
    induction l as [|x l IH]; [reflexivity|].
    cbn in H. apply andb_prop in H. destruct H as [Hx Hl].
    inversion IHl; subst. cbn [map]. f_equal; auto.
  - cbn [json_wf]. intros H. apply andb_prop in H. destruct H as [H Hv].
    apply andb_prop in H. destruct H as [Ht Hd].
    rewrite BandTwice.json_image_dict. f_equal.
    rewrite restring_appends; try assumption; [reflexivity| |intros ? ? _; reflexivity].
    rewrite forallb_forall in Hv. rewrite Forall_forall in *.
    intros p Hin. apply IHd; [exact Hin|apply Hv, Hin].
Qed.

Lemma json_wf_get (d : dict) (k : key) (v : value) :
  json_wf (VDict d) = true -> dict_get d k = Some v -> json_wf v = true.
Proof.
  cbn [json_wf]. intros H. apply andb_prop in H. destruct H as [_ Hv].
  induction d as [|[k' x] d IH]; cbn in *; [discriminate|].
  apply andb_prop in Hv. destruct Hv as [Hx Hd].
  destruct (key_eqb k k'); [intros E; injection E as <-; exact Hx|apply IH, Hd].
Qed.

End JsonImage.

Module BandSaved.
Import BandTour BandView.

Lemma json_wf_field (fields : dict) (name : string) (default : value) :
  json_wf (VDict fields) = true -> json_wf default = true ->
  json_wf match dict_get fields (KStr name) with
          | Some v => v
          | None => default
          end = true.
Proof.
  intros Hf Hd. destruct (dict_get fields (KStr name)) eqn:E; [|exact Hd].
  eapply json_wf_get; eassumption.
Qed.

(** The record of a well-formed candidate is well formed. *)
Lemma classify_wf (band : string) (show id info : value) :
  json_wf show = true ->
  classify band show = Ok (Candidate id info) ->
  json_wf info = true.
Proof.
  intros Hw. unfold classify.
  destruct show as [| | | | |fields]; try discriminate.
  cbn [py_get and_then].
  pose proof (json_wf_field fields "venue" (VDict []) Hw eq_refl) as Hvd.
  destruct (match dict_get fields (KStr "venue") with
            | Some v => v
            | None => VDict []
            end) as [| | | | |vf]; try discriminate.
  cbn [py_get and_then].
  destruct (is_in_north_carolina _ _ _) as [[|]|]; cbn [negb and_then];
    try discriminate.
  unfold show_id_of. cbn [py_get and_then].
  pose proof (json_wf_field fields "id" VNone Hw eq_refl) as Hid.
  destruct (match dict_get fields (KStr "id") with
            | Some v => v
            | None => VNone
            end) as [| | | | |] eqn:Eid;
    destruct (py_truthy _); cbn [and_then];
    intros H; injection H as <- <-;
    cbn [json_wf make_show_info text_keys distinct_keys forallb fst snd
         dict_mem dict_get key_eqb String.eqb Ascii.eqb Bool.eqb negb andb];
    rewrite ?(json_wf_field vf "name" (VStr "Unknown Venue") Hvd eq_refl),
            ?(json_wf_field vf "city" (VStr EmptyString) Hvd eq_refl),
            ?(json_wf_field vf "region" (VStr EmptyString) Hvd eq_refl),
            ?(json_wf_field fields "datetime" (VStr "TBD") Hw eq_refl),
            ?(json_wf_field fields "url" (VStr EmptyString) Hw eq_refl);
    try reflexivity; cbn [json_wf] in Hid; rewrite ?Hid; reflexivity.
Qed.

Lemma dict_mem_app (d1 d2 : dict) (k : key) :
  dict_mem (d1 ++ d2)%list k = (dict_mem d1 k || dict_mem d2 k)%bool.
Proof.
  unfold dict_mem. induction d1 as [|[k' v] d1 IH]; cbn; [reflexivity|].
  destruct (key_eqb k k'); [reflexivity|exact IH].
Qed.

Lemma dict_mem_in_key (d : dict) (k : key) (v : value) :
  In (k, v) d -> dict_mem d k = true.
Proof.
  unfold dict_mem. induction d as [|[k' v'] d IH]; cbn; [intros []|].
  intros [H|H].
  - injection H as -> ->. rewrite key_eqb_refl. reflexivity.
  - destruct (key_eqb k k'); [reflexivity|apply IH, H].
Qed.

Lemma dict_mem_cong (d : dict) (a b : key) :
  key_eqb a b = true -> dict_mem d a = dict_mem d b.
Proof. intros H. unfold dict_mem. rewrite (dict_get_cong d a b H). reflexivity. Qed.

Lemma dict_mem_combine_in (ks : list key) (items : list value) (k : key) :
  dict_mem (combine ks items) k = true ->
  exists k', In k' ks /\ key_eqb k k' = true.
Proof.
  intros H. destruct (BandTwice.dict_mem_entry _ _ H) as ([k' v] & Hin & Hk).
  exists k'. split; [eapply in_combine_l; exact Hin|exact Hk].
Qed.

Lemma distinct_keys_app (d1 d2 : dict) :
  distinct_keys d1 = true -> distinct_keys d2 = true ->
  (forall k v, In (k, v) d1 -> dict_mem d2 k = false) ->
  distinct_keys (d1 ++ d2)%list = true.
Proof.
  induction d1 as [|[k v] d1 IH]; intros H1 H2 Hx; cbn in *; [exact H2|].
  apply andb_prop in H1. destruct H1 as [Hk H1].
  rewrite dict_mem_app. apply negb_true_iff in Hk.
  rewrite Hk, (Hx k v (or_introl eq_refl)). cbn.
  apply IH; try assumption. intros k' v' Hin. apply (Hx k' v'). right. exact Hin.
Qed.

Lemma distinct_keys_combine (ks : list key) (items : list value) :
  NoDup (map key_norm ks) -> distinct_keys (combine ks items) = true.
Proof.
  revert items. induction ks as [|k ks IH]; intros [|i items] Hnd; cbn;
    try reflexivity.
  inversion Hnd as [|? ? Hnot Hnd']; subst.
  rewrite IH by exact Hnd'. rewrite andb_true_r. apply negb_true_iff.
  destruct (dict_mem (combine ks items) k) eqn:E; [|reflexivity].
  destruct (dict_mem_combine_in _ _ _ E) as (k' & Hin & Hk).
  exfalso. apply Hnot. apply key_eqb_norm in Hk. rewrite Hk.
  apply in_map, Hin.
Qed.

(** The store a run leaves is well formed when the store it found, the
    payloads and the identifiers are. *)
Lemma run_store_wf (net : string -> response) (s : TourMonitor) (d : dict) :
  known_shows s = VDict d ->
  json_wf (VDict d) = true ->
  (forall band show, In band BANDS -> In show (shows_of net band) ->
                     json_wf show = true) ->
  (forall band show id info k,
      In band BANDS -> In show (shows_of net band) ->
      classify band show = Ok (Candidate id info) ->
      hashable id = Some k -> exists t, k = KStr t) ->
  json_wf (known_shows (snd (run net s))) = true.
Proof.
  intros Hk Hwf Hpay Hids.
  destruct (DetectAll.run_on_dict net d s Hk) as [-> _].
  destruct (BandBooks.bands_append net BANDS d (new_shows s))
    as (ks & items & E & Hrec & Hnd & Habs & _).
  unfold detect_all.
  replace (fst (detect_bands net BANDS (d, new_shows s)))
    with (d ++ combine ks items)%list by (symmetry; exact (f_equal fst E)).
  cbn [json_wf] in *.
  apply andb_prop in Hwf. destruct Hwf as [Hwf Hv].
  apply andb_prop in Hwf. destruct Hwf as [Ht Hd].
  assert (Hall : Forall2 (fun k item => (exists t, k = KStr t) /\
                                       json_wf item = true) ks items).
  { eapply Forall2_impl; [|exact Hrec].
    intros k item (band & Hb & show & id & Hs & Hc & Hh). split.
    - eapply Hids; eassumption.
    - eapply classify_wf; [eapply Hpay; eassumption|exact Hc]. }
  unfold text_keys in *. rewrite !forallb_app, Ht, Hv. cbn [andb].
  rewrite distinct_keys_app; try assumption.
  - clear -Hall. induction Hall as [|k item ks items [[t ->] Hi] _ IH];
      [reflexivity|].
    cbn in *. apply andb_prop in IH. destruct IH as [-> ->]. rewrite Hi.
    reflexivity.
  - apply distinct_keys_combine, Hnd.
  - intros k v Hin.
    destruct (dict_mem (combine ks items) k) eqn:E'; [|reflexivity].
    destruct (dict_mem_combine_in _ _ _ E') as (k' & Hin' & Hkk).
    pose proof (dict_mem_in_key d k v Hin) as Hm.
    rewrite (dict_mem_cong d k k' Hkk) in Hm.
    unfold dict_mem in Hm. rewrite (Habs k' Hin') in Hm. discriminate.
Qed.

Lemma run_appends (net : string -> response) (s : TourMonitor) (d : dict) :
  known_shows s = VDict d ->
  exists ks items,
    known_shows (snd (run net s)) = VDict (d ++ combine ks items)%list /\
    new_shows (snd (run net s)) = (new_shows s ++ items)%list /\
    List.length ks = List.length items.
Proof.
  intros Hk.
  destruct (DetectAll.run_on_dict net d s Hk) as [Hk' Hn'].
  destruct (BandBooks.bands_append net BANDS d (new_shows s))
    as (ks & items & E & Hrec & _).
  exists ks, items. rewrite Hk', Hn'. unfold detect_all.
  split; [exact (f_equal (fun p => VDict (fst p)) E)|].
  split; [exact (f_equal snd E)|eapply Forall2_length; exact Hrec].
Qed.

End BandSaved.

(** X4.  A band-monitor run that cannot write its document raises the
    write error out of [run], and only after the whole loop over [BANDS]
    has run: the state at the raise is the state the banner and the loop
    leave, with the one save attempt traced after it, and nothing was
    saved before.  A failure at [open] leaves the document as it was; a
    failure during the dump leaves the cut file.  No delta is
    returned. *)
Theorem band_write_failure_is_fatal :
  forall (net : string -> response) (s : BandTour.TourMonitor)
         (fault : write_fault),
    write_error (BandTour.env s) = Some fault ->
    exists (s1 : BandTour.TourMonitor) (pre : list event),
      for_each (BandTour.check_band net) BandTour.BANDS
        (BandTour.on_env (log (Print MsgBanner)) s) = (Ok tt, s1) /\
      BandTour.env s1 = logs pre (BandTour.env s) /\
      no_save pre = true /\
      BandTour.run net s
        = (Raise (fault_error fault),
           BandTour.on_env (fault_leaves fault)
             (BandTour.on_env (log (StoreSave (BandTour.known_shows s1))) s1)).
Proof.
  intros net s fault Hw.
  destruct (BandRun.run_spec net s) as (s1 & Hloop & (evs & Henv & Hq) & Hrun).
  exists s1, evs. split; [exact Hloop|]. split; [exact Henv|].
  split; [exact Hq|].
  rewrite Hrun, Henv. cbn [write_error logs]. rewrite Hw.
  destruct fault; reflexivity.
Qed.

Lemma band_write_failure_is_fatal_witness :
  let show :=
    VDict [ (KStr "id", VStr "1002");
            (KStr "venue", VDict [(KStr "region", VStr "NC")]) ] in
  let net := fun _ : string => Payload (VList [show]) in
  let old := Json (VDict [(KStr "1001", VDict [])]) in
  let s := fun fault =>
    BandTour.mkMonitor (VDict [(KStr "1001", VDict [])]) []
      (mkWorld old (Some fault) []) in
  (fst (BandTour.run net (s (AtOpen OSError))) = Raise OSError /\
   data_file (BandTour.env (snd (BandTour.run net (s (AtOpen OSError)))))
     = old) /\
  (fst (BandTour.run net (s (AtDump OSError (Corrupt ValueError))))
     = Raise OSError /\
   data_file
     (BandTour.env
        (snd (BandTour.run net (s (AtDump OSError (Corrupt ValueError))))))
     = Corrupt ValueError).
Proof.
  intros show net old s. split.
  - destruct (band_write_failure_is_fatal net (s (AtOpen OSError))
                (AtOpen OSError) eq_refl) as (s1 & pre & _ & He & _ & ->).
    cbn [fst snd fault_error fault_leaves BandTour.env BandTour.on_env
         log data_file].
    rewrite He. split; reflexivity.
  - destruct (band_write_failure_is_fatal net
                (s (AtDump OSError (Corrupt ValueError)))
                (AtDump OSError (Corrupt ValueError)) eq_refl)
      as (s1 & pre & _ & He & _ & ->).
    split; reflexivity.
Defined.

(** X5.  Load then save is a no-op: when a band-monitor process starts
    from a document holding a JSON object and finds nothing new, the
    document it leaves holds the same object. *)
Theorem band_quiet_run_keeps_document :
  forall (net : string -> response) (w : world) (d : dict),
    data_file w = Json (VDict d) ->
    json_wf (VDict d) = true ->
    fst (BandTour.session net w) = Ok None ->
    data_file (BandTour.env (snd (BandTour.session net w))) = Json (VDict d).
Proof.
  intros net w d Hdoc Hwf Hret.
  rewrite (BandRun.session_loaded net w d) in *
    by (rewrite Hdoc; reflexivity).
  set (s0 := BandTour.mkMonitor (VDict d) [] (log StoreLoad w)) in *.
  destruct (BandTrace.run_trace net s0) as (_ & _ & _ & _ & _ & Hok).
  destruct (Hok None Hret) as (_ & -> & Hnone).
  destruct (BandSaved.run_appends net s0 d eq_refl) as (ks & items & -> & Hn & Hlen).
  rewrite Hn in Hnone. cbn [BandTour.new_shows s0 app] in Hnone.
  destruct items; [|discriminate].
  destruct ks; [|discriminate]. cbn [combine]. rewrite app_nil_r.
  rewrite (json_image_wf _ Hwf). reflexivity.
Qed.

Lemma band_quiet_run_keeps_document_witness :
  let old := VDict [(KStr "venue", VStr "Red Hat Amphitheater")] in
  let show :=
    VDict [ (KStr "id", VStr "1001");
            (KStr "venue", VDict [(KStr "region", VStr "NC")]) ] in
  let net := fun _ : string => Payload (VList [show]) in
  let w := mkWorld (Json (VDict [(KStr "1001", old)])) None [] in
  data_file (BandTour.env (snd (BandTour.session net w)))
    = Json (VDict [(KStr "1001", old)]).
Proof.
  intros old show net w.
  exact (band_quiet_run_keeps_document net w [(KStr "1001", old)]
           eq_refl eq_refl eq_refl).
Defined.

(** X6.  Nothing is lost in a save when identifiers are text: if the
    document a band-monitor process starts from and the payloads it
    fetches are JSON as [json.load] returns it, every identifier it
    resolves is a string, and the write succeeds, then the document it
    leaves reads back as exactly its in-memory store. *)
Theorem band_saved_document_is_the_store :
  forall (net : string -> response) (w : world) (d : dict),
    loaded (data_file w) = VDict d ->
    json_wf (VDict d) = true ->
    write_error w = None ->
    (forall band show,
        In band BandTour.BANDS -> In show (BandTour.shows_of net band) ->
        json_wf show = true) ->
    (forall band show id info k,
        In band BandTour.BANDS -> In show (BandTour.shows_of net band) ->
        BandTour.classify band show = Ok (BandTour.Candidate id info) ->
        hashable id = Some k -> exists t, k = KStr t) ->
    data_file (BandTour.env (snd (BandTour.session net w)))
      = Json (BandTour.known_shows (snd (BandTour.session net w))).
Proof.
  intros net w d Hl Hwf Hw Hpay Hids.
  rewrite (BandRun.session_loaded net w d Hl).
  set (s0 := BandTour.mkMonitor (VDict d) [] (log StoreLoad w)).
  destruct (BandTwice.run_ok net s0 Hw) as (_ & -> & _).
  rewrite json_image_wf; [reflexivity|].
  apply (BandSaved.run_store_wf net s0 d eq_refl Hwf Hpay Hids).
Qed.

Lemma band_saved_document_is_the_store_witness :
  let show :=
    VDict [ (KStr "id", VStr "1002");
            (KStr "venue", VDict [(KStr "region", VStr "NC")]) ] in
  let net := fun _ : string => Payload (VList [show]) in
  let w := mkWorld Missing None [] in
  data_file (BandTour.env (snd (BandTour.session net w)))
    = Json (BandTour.known_shows (snd (BandTour.session net w))).
Proof.
  intros show net w.
  apply (band_saved_document_is_the_store net w [] eq_refl eq_refl eq_refl).
  - intros band sh _ [<-|[]]. reflexivity.
  - intros band sh id info k _ [<-|[]] Hc Hh.
    vm_compute in Hc. injection Hc as <- _. injection Hh as <-.
    eexists. reflexivity.
Defined.

(* ================================================================== *)
(** ** The filter and the resolver, field by field *)
(* ================================================================== *)

Section Strings.

Lemma lower_app (a b : string) : lower (a ++ b) = (lower a ++ lower b)%string.
Proof. induction a as [|c a IH]; cbn; [reflexivity|]. rewrite IH. reflexivity. Qed.

Lemma lower_empty (a b : string) :
  lower a = lower b -> String.eqb a EmptyString = String.eqb b EmptyString.
Proof. destruct a, b; cbn; intros H; try reflexivity; discriminate. Qed.

End Strings.

Module LocationFacts.

Lemma text_region_returns (venue city : value) (region : string) :
  exists b, BandTour.is_in_north_carolina venue city (VStr region) = Ok b.
Proof.
  unfold BandTour.is_in_north_carolina.
  destruct (existsb _ _); [eexists; reflexivity|].
  destruct (py_truthy _); eexists; reflexivity.
Qed.

Lemma falsy_region_returns (venue city region : value) :
  py_truthy region = false ->
  exists b, BandTour.is_in_north_carolina venue city region = Ok b.
Proof.
  intros Hf. unfold BandTour.is_in_north_carolina.
  rewrite Hf. destruct (existsb _ _); eexists; reflexivity.
Qed.

Lemma raise_inv (venue city region : value) (e : exn) :
  BandTour.is_in_north_carolina venue city region = Raise e ->
  e = AttributeError /\ py_truthy region = true /\
  forall r, region <> VStr r.
Proof.
  unfold BandTour.is_in_north_carolina.
  destruct (existsb _ _); [discriminate|].
  destruct (py_truthy region) eqn:Ht; [|discriminate].
  destruct region; try discriminate; intros H; injection H as <-;
    repeat split; discriminate.
Qed.

End LocationFacts.

(** X7.  The location predicate tolerates missing and odd fields: it
    returns whenever the region is text, and whenever the region is
    empty, zero, false or None, whatever venue and city are.  When it
    raises, it raises [AttributeError], and the region is a non-empty
    value that is not text. *)
Theorem location_predicate_raises_only_on_odd_region :
  (forall (venue city : value) (region : string),
      exists b,
        BandTour.is_in_north_carolina venue city (VStr region) = Ok b) /\
  (forall venue city region : value,
      py_truthy region = false ->
      exists b, BandTour.is_in_north_carolina venue city region = Ok b) /\
  (forall (venue city region : value) (e : exn),
      BandTour.is_in_north_carolina venue city region = Raise e ->
      e = AttributeError /\ py_truthy region = true /\
      forall r, region <> VStr r).
Proof.
  split; [|split].
  - exact LocationFacts.text_region_returns.
  - exact LocationFacts.falsy_region_returns.
  - exact LocationFacts.raise_inv.
Qed.

Lemma location_predicate_raises_only_on_odd_region_witness :
  (exists b,
      BandTour.is_in_north_carolina (VStr "PNC Arena") (VInt 7) VNone = Ok b) /\
  py_truthy (VInt 37) = true.
Proof.
  split.
  - apply (proj1 (proj2 location_predicate_raises_only_on_odd_region)).
    reflexivity.
  - apply (proj2 (proj2 location_predicate_raises_only_on_odd_region)
             (VStr "PNC Arena") (VStr "Raleigh") (VInt 37) AttributeError).
    vm_compute. reflexivity.
Defined.

(** X8.  The location predicate of the band monitor reads its text
    fields through their lower case only: fields that differ in case
    alone get the same answer. *)
Theorem location_predicate_ignores_case :
  forall venue city region venue' city' region' : string,
    lower venue = lower venue' ->
    lower city = lower city' ->
    lower region = lower region' ->
    BandTour.is_in_north_carolina (VStr venue) (VStr city) (VStr region)
      = BandTour.is_in_north_carolina (VStr venue') (VStr city') (VStr region').
Proof.
  intros v c r v' c' r' Hv Hc Hr. unfold BandTour.is_in_north_carolina.
  cbn [py_str py_truthy]. rewrite !lower_app, Hv, Hc, Hr.
  rewrite (lower_empty r r' Hr). reflexivity.
Qed.

Lemma location_predicate_ignores_case_witness :
  BandTour.is_in_north_carolina (VStr "PNC ARENA") (VStr "RALEIGH") (VStr "nc")
    = BandTour.is_in_north_carolina (VStr "pnc arena") (VStr "Raleigh") (VStr "NC").
Proof.
  apply location_predicate_ignores_case; reflexivity.
Defined.

(** X9.  A candidate with fields missing is no error of its own.  Over
    a dictionary store, take a candidate that is an object whose venue,
    if present, is an object, whose region, if present, is text or
    empty, and whose id, if present, is hashable or empty; every other
    field may be absent or of any type.  The loop body returns on it,
    unless the output stream refuses the line that announces it: then
    the body raises the stream's error, the item being already in the
    delta. *)
Theorem well_shaped_candidate_raises_only_from_print :
  forall (band : string) (fields d : dict) (s : BandTour.TourMonitor),
    BandTour.known_shows s = VDict d ->
    (forall v,
        dict_get fields (KStr "venue") = Some v ->
        exists vf,
          v = VDict vf /\
          forall r, dict_get vf (KStr "region") = Some r ->
                    py_truthy r = false \/ exists t, r = VStr t) ->
    (forall id,
        dict_get fields (KStr "id") = Some id ->
        py_truthy id = false \/ hashable id <> None) ->
    exists s',
      BandTour.check_show band (VDict fields) s = (Ok tt, s') \/
      exists e info,
        stdout_error (BandTour.env s) info = Some e /\
        BandTour.new_shows s' = (BandTour.new_shows s ++ [info])%list /\
        BandTour.check_show band (VDict fields) s = (Raise e, s').
Proof.
  intros band fields d s Hk Hvenue Hid.
  rewrite (BandFacts.check_show_dict band (VDict fields) d s Hk).
  unfold BandTour.check_show_on_dict, BandTour.classify.
  cbn [py_get and_then].
  assert (Hvd : exists vf,
             match dict_get fields (KStr "venue") with
             | Some v => v
             | None => VDict []
             end = VDict vf /\
             forall r, dict_get vf (KStr "region") = Some r ->
                       py_truthy r = false \/ exists t, r = VStr t).
  { destruct (dict_get fields (KStr "venue")) as [v|].
    - destruct (Hvenue v eq_refl) as (vf & -> & H). exists vf. auto.
    - exists []. split; [reflexivity|]. intros r H. discriminate. }
  destruct Hvd as (vf & -> & Hregion). cbn [py_get and_then].
  assert (Hnc : exists b,
             BandTour.is_in_north_carolina
               match dict_get vf (KStr "name") with
               | Some v => v
               | None => VStr "Unknown Venue"
               end
               match dict_get vf (KStr "city") with
               | Some v => v
               | None => VStr EmptyString
               end
               match dict_get vf (KStr "region") with
               | Some v => v
               | None => VStr EmptyString
               end = Ok b).
  { destruct (dict_get vf (KStr "region")) as [r|].
    - destruct (Hregion r eq_refl) as [Hf|[t ->]].
      + apply LocationFacts.falsy_region_returns, Hf.
      + apply LocationFacts.text_region_returns.
    - apply LocationFacts.text_region_returns. }
  assert (Hend : forall (k : key) (id info : value),
             exists s',
               (if dict_mem d k
                then (Ok tt, BandTour.on_env (log (StoreContains id)) s)
                else
                  let s1 :=
                    BandTour.mkMonitor (VDict (dict_set d k info))
                      (BandTour.new_shows s ++ [info])
                      (log (StoreUpsert id info)
                         (log (StoreContains id) (BandTour.env s))) in
                  match stdout_error (BandTour.env s) info with
                  | Some e => (Raise e, s1)
                  | None =>
                      (Ok tt, BandTour.on_env (log (Print (MsgNew info))) s1)
                  end) = (Ok tt, s') \/
               exists e info0,
                 stdout_error (BandTour.env s) info0 = Some e /\
                 BandTour.new_shows s' = (BandTour.new_shows s ++ [info0])%list /\
                 (if dict_mem d k
                  then (Ok tt, BandTour.on_env (log (StoreContains id)) s)
                  else
                    let s1 :=
                      BandTour.mkMonitor (VDict (dict_set d k info))
                        (BandTour.new_shows s ++ [info])
                        (log (StoreUpsert id info)
                           (log (StoreContains id) (BandTour.env s))) in
                    match stdout_error (BandTour.env s) info with
                    | Some e => (Raise e, s1)
                    | None =>
                        (Ok tt, BandTour.on_env (log (Print (MsgNew info))) s1)
                    end) = (Raise e, s')).
  { intros k id info. destruct (dict_mem d k); [eexists; left; reflexivity|].
    cbv zeta. destruct (stdout_error (BandTour.env s) info) as [e|] eqn:Hout.
    - eexists. right. exists e, info. split; [exact Hout|].
      split; [|reflexivity]. reflexivity.
    - eexists. left. reflexivity. }
  destruct Hnc as [[|] ->]; cbn [negb and_then];
    [|eexists; left; reflexivity].
  unfold BandTour.show_id_of. cbn [py_get and_then].
  destruct (dict_get fields (KStr "id")) as [id|] eqn:Eid.
  - destruct (Hid id eq_refl) as [Hf|Hh].
    + rewrite Hf. cbn [and_then hashable]. apply Hend.
    + destruct (py_truthy id); cbn [and_then hashable].
      * destruct (hashable id); [|congruence]. apply Hend.
      * apply Hend.
  - cbn [py_truthy and_then hashable]. apply Hend.
Qed.

Lemma well_shaped_candidate_raises_only_from_print_witness :
  let s := BandTour.mkMonitor (VDict []) [] (mkWorld Missing None []) in
  (exists s', BandTour.check_show "Metallica" (VDict []) s = (Ok tt, s')) /\
  (exists s',
      BandTour.check_show "Metallica"
        (VDict [(KStr "venue", VDict [(KStr "region", VStr "NC")])]) s
        = (Ok tt, s')).
Proof.
  intros s. split.
  - destruct (well_shaped_candidate_raises_only_from_print
                "Metallica" [] [] s eq_refl) as [s' [H|(e & info & Hout & _)]].
    + intros v H. discriminate.
    + intros id H. discriminate.
    + exists s'. exact H.
    + discriminate Hout.
  - destruct (well_shaped_candidate_raises_only_from_print "Metallica"
                [(KStr "venue", VDict [(KStr "region", VStr "NC")])] [] s
                eq_refl) as [s' [H|(e & info & Hout & _)]].
    + intros v H. injection H as <-. eexists. split; [reflexivity|].
      intros r Hr. injection Hr as <-. right. eexists. reflexivity.
    + intros id H. discriminate.
    + exists s'. exact H.
    + discriminate Hout.
Defined.

(** X10.  Within a batch the first occurrence of an identifier wins.
    When two candidates of one batch pass the filter and resolve to
    identifiers that compare equal, and the store does not hold that
    identifier, only the first is reported, and the store keeps the
    first one's record under it, whatever the second one's attributes. *)
Theorem first_occurrence_wins :
  forall (net : string -> response) (band : string)
         (show1 show2 id1 id2 info1 info2 : value) (k1 k2 : key) (d : dict)
         (s : BandTour.TourMonitor),
    net band = Payload (VList [show1; show2]) ->
    BandTour.classify band show1 = Ok (BandTour.Candidate id1 info1) ->
    BandTour.classify band show2 = Ok (BandTour.Candidate id2 info2) ->
    hashable id1 = Some k1 ->
    hashable id2 = Some k2 ->
    key_eqb k2 k1 = true ->
    BandTour.known_shows s = VDict d ->
    dict_mem d k1 = false ->
    BandTour.new_shows s = [] ->
    exists s',
      BandTour.check_band net band s = (Ok tt, s') /\
      BandTour.new_shows s' = [info1] /\
      store_lookup (BandTour.known_shows s') k2 = Some info1.
Proof.
  intros net band show1 show2 id1 id2 info1 info2 k1 k2 d s
         Hnet Hc1 Hc2 Hh1 Hh2 Hkk Hk Hm Hn.
  destruct (BandFacts.check_band_on_dict net band d s Hk) as (evs & _ & H).
  unfold BandTour.shows_of in H. rewrite Hnet, Hn in H.
  unfold BandTour.detect in H. cbn [fold_left] in H.
  assert (E1 : BandTour.detect_step band (d, []) show1
               = (dict_set d k1 info1, [info1])).
  { unfold BandTour.detect_step. rewrite Hc1, Hh1. cbn [fst snd]. rewrite Hm.
    reflexivity. }
  assert (E2 : BandTour.detect_step band (dict_set d k1 info1, [info1]) show2
               = (dict_set d k1 info1, [info1])).
  { unfold BandTour.detect_step. rewrite Hc2, Hh2. cbn [fst snd].
    unfold dict_mem. rewrite (dict_get_cong _ _ _ Hkk), dict_get_set_same.
    reflexivity. }
  rewrite E1, E2 in H. cbn [fst snd] in H.
  eexists. split; [exact H|].
  cbn [BandTour.new_shows BandTour.known_shows store_lookup].
  split; [reflexivity|].
  rewrite (dict_get_cong _ _ _ Hkk). apply dict_get_set_same.
Qed.

Lemma first_occurrence_wins_witness :
  let show := fun city : string =>
    VDict [ (KStr "datetime", VStr "2025-06-01T19:00:00");
            (KStr "venue", VDict [ (KStr "name", VStr "Coliseum");
                                   (KStr "city", VStr city);
                                   (KStr "region", VStr "NC") ]) ] in
  let info := fun city : string =>
    BandTour.make_show_info "Metallica" (VStr "Coliseum") (VStr city)
      (VStr "NC") (VStr "2025-06-01T19:00:00") (VStr EmptyString)
      (VStr "Metallica-2025-06-01T19:00:00-Coliseum") in
  let net := fun _ : string =>
    Payload (VList [show "Greensboro"; show "Charlotte"]) in
  let s := BandTour.mkMonitor (VDict []) [] (mkWorld Missing None []) in
  exists s',
    BandTour.check_band net "Metallica" s = (Ok tt, s') /\
    BandTour.new_shows s' = [info "Greensboro"] /\
    store_lookup (BandTour.known_shows s')
      (KStr "Metallica-2025-06-01T19:00:00-Coliseum")
      = Some (info "Greensboro").
Proof.
  intros show info net s.
  exact (first_occurrence_wins net "Metallica" (show "Greensboro")
           (show "Charlotte") _ _ (info "Greensboro") (info "Charlotte") _ _
           [] s eq_refl eq_refl eq_refl eq_refl eq_refl eq_refl eq_refl
           eq_refl eq_refl).
Defined.

(* ================================================================== *)
(** ** More on the hurricanes monitor *)
(* ================================================================== *)

(** X11.  The hurricanes monitor touches its document only when it has
    a delta to save.  A run that returns a delta has replaced the
    document by the serialized store.  A run that returns nothing new,
    and a run that raises inside the loop or when the file cannot be
    opened, leaves the document as it was.  The one other case is a save
    cut short: the delta is not empty, the write fails after the file
    was opened, and the document is what the cut file holds. *)
Theorem hurricanes_document_changes_only_with_delta :
  forall (net : response) (s : Hurricanes.HurricanesMonitor),
    match fst (Hurricanes.run net s) with
    | Ok (Some delta) =>
        delta = Hurricanes.new_games (snd (Hurricanes.run net s)) /\
        delta <> [] /\
        data_file (Hurricanes.env (snd (Hurricanes.run net s)))
          = Json (json_image
                    (Hurricanes.known_games (snd (Hurricanes.run net s))))
    | Ok None =>
        data_file (Hurricanes.env (snd (Hurricanes.run net s)))
          = data_file (Hurricanes.env s)
    | Raise e =>
        data_file (Hurricanes.env (snd (Hurricanes.run net s)))
          = data_file (Hurricanes.env s) \/
        exists cut,
          write_error (Hurricanes.env s) = Some (AtDump e cut) /\
          Hurricanes.new_games (snd (Hurricanes.run net s)) <> [] /\
          data_file (Hurricanes.env (snd (Hurricanes.run net s))) = cut
    end.
Proof.
  intros net s. rewrite HurricanesRun.games_run_spec.
  pose proof (HurricanesFacts.check_games_quiet (Hurricanes.env s) net
                (Hurricanes.on_env (log (Print MsgBanner)) s)) as Hq.
  unfold Hurricanes.quiet_since in Hq.
  specialize (Hq (extends_quietly_log _ _ (Print MsgBanner) eq_refl
                    (extends_quietly_refl _))).
  destruct (Hurricanes.check_games net _) as [[[]|e] [known news w1]];
    cbn [fst snd Hurricanes.env] in *;
    destruct Hq as (evs & -> & _); [|left; reflexivity].
  cbn [Hurricanes.new_games Hurricanes.known_games Hurricanes.env
       write_error logs].
  destruct news as [|g news]; [reflexivity|].
  destruct (write_error (Hurricanes.env s)) as [[e|e cut]|]; cbn.
  - left. reflexivity.
  - right. exists cut. repeat split. discriminate.
  - repeat split. discriminate.
Qed.

Module GamesTwice.
Import Hurricanes GamesView.

Lemma games_known_mono (d d' : dict) (games : list value) :
  (forall t, dict_mem d (KStr t) = true -> dict_mem d' (KStr t) = true) ->
  games_known d games -> games_known d' games.
Proof.
  intros Hm H game Hin. destruct (H game Hin) as (pk & Hpk & Hk).
  exists pk. auto.
Qed.

Lemma dates_known_mono (d d' : dict) (dates : list value) :
  (forall t, dict_mem d (KStr t) = true -> dict_mem d' (KStr t) = true) ->
  dates_known d dates -> dates_known d' dates.
Proof.
  intros Hm H di Hin. destruct (H di Hin) as (date & gv & games & ? & ? & ? & Hg).
  exists date, gv, games. repeat split; try assumption.
  eapply games_known_mono; eassumption.
Qed.

(** A game that is processed without error ends up in the store. *)
Lemma game_ok (date game : value) (d : dict) (s s' : HurricanesMonitor) :
  known_games s = VDict d ->
  check_game date game s = (Ok tt, s') ->
  exists d' items,
    known_games s' = VDict d' /\
    new_games s' = (new_games s ++ items)%list /\
    (items = [] -> d' = d) /\
    (forall k, dict_mem d k = true -> dict_mem d' k = true) /\
    games_known d' [game].
Proof.
  intros Hk. rewrite (HurricanesFacts.check_game_dict date game d s Hk).
  unfold check_game_on_dict.
  destruct (py_getitem game "gamePk") as [pk|e] eqn:Hpk; [|discriminate].
  destruct (dict_mem d (KStr (py_str pk))) eqn:Hm.
  - intros H. injection H as <-. exists d, []. cbn. rewrite app_nil_r.
    repeat split; auto.
    intros g [<-|[]]. exists pk. auto.
  - destruct (game_info_of _ _ _) as [info|e]; [|discriminate].
    cbv zeta. destruct (stdout_error (env s) info); [discriminate|].
    intros H. injection H as <-.
    exists (dict_set d (KStr (py_str pk)) info), [info]. cbn.
    repeat split.
    + discriminate.
    + intros k. apply dict_mem_set.
    + intros g [<-|[]]. exists pk. split; [exact Hpk|apply dict_mem_set_same].
Qed.

Lemma games_ok (date : value) (games : list value) :
  forall (d : dict) (s s' : HurricanesMonitor),
    known_games s = VDict d ->
    for_each (check_game date) games s = (Ok tt, s') ->
    exists d' items,
      known_games s' = VDict d' /\
      new_games s' = (new_games s ++ items)%list /\
      (items = [] -> d' = d) /\
      (forall k, dict_mem d k = true -> dict_mem d' k = true) /\
      games_known d' games.
Proof.
  induction games as [|game rest IH]; intros d s s' Hk H.
  - cbn in H. injection H as <-. exists d, []. rewrite app_nil_r.
    repeat split; auto. intros g [].
  - cbn [for_each] in H. unfold bind in H.
    destruct (check_game date game s) as [[[]|e] s1] eqn:E1; [|discriminate].
    destruct (game_ok date game d s s1 Hk E1)
      as (d1 & it1 & Hk1 & Hn1 & Hz1 & Hm1 & Hg1).
    destruct (IH d1 s1 s' Hk1 H) as (d2 & it2 & Hk2 & Hn2 & Hz2 & Hm2 & Hg2).
    exists d2, (it1 ++ it2)%list. split; [exact Hk2|].
    split; [rewrite Hn2, Hn1, app_assoc; reflexivity|].
    split; [|split].
    + intros Hz. apply app_eq_nil in Hz. destruct Hz as [-> ->].
      rewrite Hz2, Hz1; reflexivity.
    + auto.
    + intros g [<-|Hin]; [|apply Hg2, Hin].
      destruct (Hg1 game (or_introl eq_refl)) as (pk & ? & ?). exists pk. auto.
Qed.

Lemma check_date_spec (date_info : value) (s : HurricanesMonitor) :
  check_date date_info s =
    match py_getitem date_info "date" with
    | Raise e => (Raise e, s)
    | Ok date =>
        match py_getitem date_info "games" with
        | Raise e => (Raise e, s)
        | Ok games_value =>
            match py_iter games_value with
            | Raise e => (Raise e, s)
            | Ok games => for_each (check_game date) games s
            end
        end
    end.
Proof.
  unfold check_date, bind, lift.
  destruct (py_getitem date_info "date"); [|reflexivity].
  destruct (py_getitem date_info "games") as [gv|]; [|reflexivity].
  destruct (py_iter gv); reflexivity.
Qed.

Lemma dates_ok (dates : list value) :
  forall (d : dict) (s s' : HurricanesMonitor),
    known_games s = VDict d ->
    for_each check_date dates s = (Ok tt, s') ->
    exists d' items,
      known_games s' = VDict d' /\
      new_games s' = (new_games s ++ items)%list /\
      (items = [] -> d' = d) /\
      (forall k, dict_mem d k = true -> dict_mem d' k = true) /\
      dates_known d' dates.
Proof.
  induction dates as [|di rest IH]; intros d s s' Hk H.
  - cbn in H. injection H as <-. exists d, []. rewrite app_nil_r.
    repeat split; auto. intros g [].
  - cbn [for_each] in H. unfold bind in H.
    destruct (check_date di s) as [[[]|e] s1] eqn:E1; [|discriminate].
    rewrite check_date_spec in E1.
    destruct (py_getitem di "date") as [date|] eqn:Hd; [|discriminate].
    destruct (py_getitem di "games") as [gv|] eqn:Hg; [|discriminate].
    destruct (py_iter gv) as [games|] eqn:Hi; [|discriminate].
    destruct (games_ok date games d s s1 Hk E1)
      as (d1 & it1 & Hk1 & Hn1 & Hz1 & Hm1 & Hg1).
    destruct (IH d1 s1 s' Hk1 H) as (d2 & it2 & Hk2 & Hn2 & Hz2 & Hm2 & Hg2).
    exists d2, (it1 ++ it2)%list. split; [exact Hk2|].
    split; [rewrite Hn2, Hn1, app_assoc; reflexivity|].
    split; [|split].
    + intros Hz. apply app_eq_nil in Hz. destruct Hz as [-> ->].
      rewrite Hz2, Hz1; reflexivity.
    + auto.
    + intros x [<-|Hin]; [|apply Hg2, Hin].
      exists date, gv, games. repeat split; try assumption.
      eapply games_known_mono; [|eassumption]. intros t. apply Hm2.
Qed.

(** Games that are all known are all skipped. *)
Lemma games_skip (date : value) (games : list value) :
  forall (d : dict) (s : HurricanesMonitor),
    known_games s = VDict d ->
    games_known d games ->
    exists evs,
      no_save evs = true /\
      for_each (check_game date) games s = (Ok tt, on_env (logs evs) s).
Proof.
  induction games as [|game rest IH]; intros d s Hk H.
  - exists []. split; [reflexivity|]. cbn. unfold on_env. rewrite logs_nil.
    destruct s; reflexivity.
  - destruct (H game (or_introl eq_refl)) as (pk & Hpk & Hm).
    assert (E : check_game date game s
                = (Ok tt, on_env (log (StoreContains (VStr (py_str pk)))) s)).
    { rewrite (HurricanesFacts.check_game_dict date game d s Hk).
      unfold check_game_on_dict. rewrite Hpk, Hm. reflexivity. }
    rewrite (for_each_cons_ok _ _ _ _ _ E).
    destruct (IH d (on_env (log (StoreContains (VStr (py_str pk)))) s) Hk)
      as (evs & Hq & ->).
    { intros g Hin. apply H. right. exact Hin. }
    exists (StoreContains (VStr (py_str pk)) :: evs). split; [exact Hq|].
    unfold on_env. cbn [known_games new_games env].
    rewrite log_as_logs, logs_logs. reflexivity.
Qed.

Lemma dates_skip (dates : list value) :
  forall (d : dict) (s : HurricanesMonitor),
    known_games s = VDict d ->
    dates_known d dates ->
    exists evs,
      no_save evs = true /\
      for_each check_date dates s = (Ok tt, on_env (logs evs) s).
Proof.
  induction dates as [|di rest IH]; intros d s Hk H.
  - exists []. split; [reflexivity|]. cbn. unfold on_env. rewrite logs_nil.
    destruct s; reflexivity.
  - destruct (H di (or_introl eq_refl)) as (date & gv & games & Hd & Hg & Hi & Hkn).
    destruct (games_skip date games d s Hk Hkn) as (e1 & Hq1 & E1).
    assert (E : check_date di s = (Ok tt, on_env (logs e1) s)).
    { rewrite check_date_spec, Hd, Hg, Hi. exact E1. }
    rewrite (for_each_cons_ok _ _ _ _ _ E).
    destruct (IH d (on_env (logs e1) s) Hk) as (e2 & Hq2 & ->).
    { intros x Hin. apply H. right. exact Hin. }
    exists (e1 ++ e2)%list. split; [rewrite no_save_app, Hq1, Hq2; reflexivity|].
    unfold on_env. cbn [known_games new_games env].
    rewrite logs_logs. reflexivity.
Qed.

Lemma check_games_spec (v : value) (s : HurricanesMonitor) :
  check_games (Payload v) s =
    match no_schedule v with
    | Raise e => (Raise e, s)
    | Ok true => (Ok tt, on_env (log (Print MsgNoData)) s)
    | Ok false =>
        match py_getitem v "dates" with
        | Raise e => (Raise e, s)
        | Ok dates_value =>
            match py_iter dates_value with
            | Raise e => (Raise e, s)
            | Ok dates => for_each check_date dates s
            end
        end
    end.
Proof.
  unfold check_games, fetch_schedule, try_except, bind, lift. cbn.
  destruct (no_schedule v) as [[|]|]; reflexivity.
Qed.

(** Once a check has returned, a check of the same answer against a
    store that has kept the text keys only reads the store. *)
Lemma first_settles (net : response) (d : dict) (s s1 : HurricanesMonitor) :
  known_games s = VDict d ->
  check_games net s = (Ok tt, s1) ->
  exists d1 items,
    known_games s1 = VDict d1 /\
    new_games s1 = (new_games s ++ items)%list /\
    (items = [] -> d1 = d) /\
    forall d2 s2,
      (forall t, dict_mem d1 (KStr t) = true -> dict_mem d2 (KStr t) = true) ->
      known_games s2 = VDict d2 ->
      exists evs,
        no_save evs = true /\
        check_games net s2 = (Ok tt, on_env (logs evs) s2).
Proof.
  intros Hk. destruct net as [e|v].
  - intros H. cbn in H. injection H as <-. exists d, [].
    cbn [known_games new_games on_env]. rewrite app_nil_r.
    repeat split; auto. intros d2 s2 _ _.
    exists [Print (MsgFetchError TEAM_NAME e); Print MsgNoData].
    split; [reflexivity|].
    destruct s2 as [k2 n2 [doc we tr]]. cbn.
    unfold print, emit, modify, on_env, log, logs. cbn.
    rewrite <- app_assoc. reflexivity.
  - rewrite check_games_spec.
    destruct (no_schedule v) as [[|]|] eqn:Hns; [| |discriminate].
    + intros H. injection H as <-. exists d, [].
      cbn [known_games new_games on_env]. rewrite app_nil_r.
      repeat split; auto. intros d2 s2 _ _. exists [Print MsgNoData].
      split; [reflexivity|]. rewrite check_games_spec, Hns. reflexivity.
    + destruct (py_getitem v "dates") as [dv|] eqn:Hd; [|discriminate].
      destruct (py_iter dv) as [dates|] eqn:Hi; [|discriminate].
      intros H.
      destruct (dates_ok dates d s s1 Hk H) as (d1 & items & Hk1 & Hn1 & Hz & _ & Hkn).
      exists d1, items. repeat split; try assumption.
      intros d2 s2 Hm Hk2. rewrite check_games_spec, Hns, Hd, Hi.
      apply (dates_skip dates d2 s2 Hk2).
      eapply dates_known_mono; eassumption.
Qed.

Lemma games_init_spec (s : HurricanesMonitor) :
  init s =
    match data_file (env s) with
    | Unreachable e => (Raise e, on_env (log StoreLoad) s)
    | doc => (Ok tt, mkMonitor (loaded doc) [] (log StoreLoad (env s)))
    end.
Proof.
  unfold init, load_known_games, emit, modify, get, bind, try_except, lift, ret.
  cbn [env on_env log data_file].
  destruct (data_file (env s)); reflexivity.
Qed.

Lemma games_session_loaded (net : response) (w : world) (d : dict) :
  loaded (data_file w) = VDict d ->
  session net w = run net (mkMonitor (VDict d) [] (log StoreLoad w)).
Proof.
  intros H. unfold session, bind. rewrite games_init_spec. cbn [blank env].
  destruct (data_file w); cbn [loaded] in H; try discriminate;
    rewrite <- H; reflexivity.
Qed.

(** A run over a store for which the answer is settled returns nothing. *)
Lemma settled_run (net : response) (s : HurricanesMonitor) :
  new_games s = [] ->
  (exists evs,
      no_save evs = true /\
      check_games net (on_env (log (Print MsgBanner)) s)
        = (Ok tt, on_env (logs evs) (on_env (log (Print MsgBanner)) s))) ->
  fst (run net s) = Ok None /\ new_games (snd (run net s)) = [].
Proof.
  intros Hn (evs & _ & E). rewrite HurricanesRun.games_run_spec, E.
  cbn [new_games on_env]. rewrite Hn. split; [reflexivity|exact Hn].
Qed.

(** After a run that returns, the document loads to a store for which
    the same answer is settled. *)
Lemma first_run_outcome (net : response) (s : HurricanesMonitor) (d : dict)
    (r : option (list value)) :
  known_games s = VDict d ->
  loaded (data_file (env s)) = VDict d ->
  new_games s = [] ->
  fst (run net s) = Ok r ->
  exists d2,
    loaded (data_file (env (snd (run net s)))) = VDict d2 /\
    forall s2,
      known_games s2 = VDict d2 ->
      exists evs,
        no_save evs = true /\
        check_games net s2 = (Ok tt, on_env (logs evs) s2).
Proof.
  intros Hk Hl Hn. rewrite HurricanesRun.games_run_spec.
  pose proof (HurricanesFacts.check_games_quiet (env s) net
                (on_env (log (Print MsgBanner)) s)) as Hq.
  unfold quiet_since in Hq.
  specialize (Hq (extends_quietly_log _ _ (Print MsgBanner) eq_refl
                    (extends_quietly_refl _))).
  destruct (check_games net (on_env (log (Print MsgBanner)) s))
    as [[[]|e] s1] eqn:E1; [|discriminate].
  destruct (first_settles net d (on_env (log (Print MsgBanner)) s) s1 Hk E1)
    as (d1 & items & Hk1 & Hn1 & Hz & Hsettle).
  cbn [snd] in Hq. destruct Hq as (evs & Henv & _).
  destruct s1 as [known news w1].
  cbn [known_games new_games env on_env] in *. rewrite Hn in Hn1.
  cbn [app] in Hn1. subst known news w1.
  destruct items as [|g items].
  - specialize (Hz eq_refl). subst d1. intros _.
    exists d. cbn [snd env on_env log logs data_file]. split; [exact Hl|].
    intros s2 Hk2. apply (Hsettle d); auto.
  - cbn [write_error logs].
    destruct (write_error (env s)) as [[e|e cut]|];
      [discriminate|discriminate|]. intros _.
    cbn [snd env on_env known_games overwrite log logs data_file loaded].
    destruct (json_image (VDict d1)) as [| | | | |d2] eqn:Himg;
      try (rewrite BandTwice.json_image_dict in Himg; discriminate).
    exists d2. split; [reflexivity|].
    intros s2 Hk2. apply (Hsettle d2); [|exact Hk2].
    intros t. apply (BandTwice.saved_string_key d1 d2 t Himg).
Qed.

End GamesTwice.

(** X12.  The hurricanes monitor reports an unchanged schedule once: if
    a process starting from a dictionary store returns, the next process
    given the same answer of the schedule service returns an empty delta,
    whether the first one saved or not. *)
Theorem hurricanes_unchanged_schedule_reports_nothing :
  forall (net : response) (w : world) (d : dict) (r : option (list value)),
    loaded (data_file w) = VDict d ->
    fst (Hurricanes.session net w) = Ok r ->
    fst (Hurricanes.session net
           (Hurricanes.env (snd (Hurricanes.session net w)))) = Ok None /\
    Hurricanes.new_games
      (snd (Hurricanes.session net
              (Hurricanes.env (snd (Hurricanes.session net w))))) = [].
Proof.
  intros net w d r Hl Hret.
  rewrite (GamesTwice.games_session_loaded net w d Hl) in *.
  set (s0 := Hurricanes.mkMonitor (VDict d) [] (log StoreLoad w)) in *.
  destruct (GamesTwice.first_run_outcome net s0 d r eq_refl Hl eq_refl Hret)
    as (d2 & Hl2 & Hsettle).
  rewrite (GamesTwice.games_session_loaded net _ d2 Hl2).
  apply GamesTwice.settled_run; [reflexivity|].
  apply Hsettle. reflexivity.
Qed.

Lemma hurricanes_unchanged_schedule_reports_nothing_witness :
  let game :=
    VDict [ (KStr "gamePk", VInt 2024020001);
            (KStr "teams",
             VDict [ (KStr "home",
                      VDict [(KStr "team",
                              VDict [(KStr "name", VStr "Carolina Hurricanes")])]);
                     (KStr "away",
                      VDict [(KStr "team",
                              VDict [(KStr "name", VStr "Boston Bruins")])]) ]) ] in
  let net :=
    Payload (VDict [(KStr "dates",
                     VList [VDict [ (KStr "date", VStr "2024-10-11");
                                    (KStr "games", VList [game]) ]])]) in
  let w := mkWorld Missing None [] in
  fst (Hurricanes.session net w) <> Ok None /\
  fst (Hurricanes.session net
         (Hurricanes.env (snd (Hurricanes.session net w)))) = Ok None.
Proof.
  intros game net w. split; [vm_compute; discriminate|].
  eapply (proj1 (hurricanes_unchanged_schedule_reports_nothing net w []
                   _ eq_refl _)).
  Unshelve. 2: vm_compute; reflexivity.
Defined.


(** X13.  What the hurricanes monitor makes of the shape of an answer
    that parses.  An empty answer (null, false, 0, empty text, list or
    object) and an object without a "dates" entry count as no data: one
    line is printed and nothing else happens.  A number or [true] cannot
    be searched for "dates", and a list or a text that contains "dates"
    passes the guard but cannot be subscripted: in both cases
    [TypeError] ends the run before anything is stored or saved. *)
Theorem hurricanes_payload_shapes :
  (forall (v : value) (s : Hurricanes.HurricanesMonitor),
      py_truthy v = false \/
      (exists d, v = VDict d /\ dict_mem d (KStr "dates") = false) ->
      Hurricanes.check_games (Payload v) s
        = (Ok tt, Hurricanes.on_env (log (Print MsgNoData)) s)) /\
  (forall (v : value) (s : Hurricanes.HurricanesMonitor),
      (exists z, v = VInt z /\ z <> 0) \/
      v = VBool true \/
      (exists l, v = VList l /\
                 existsb (fun y => py_eq y (VStr "dates")) l = true) \/
      (exists t, v = VStr t /\ str_contains "dates" t = true) ->
      Hurricanes.run (Payload v) s
        = (Raise TypeError, Hurricanes.on_env (log (Print MsgBanner)) s)).
Proof.
  split.
  - intros v s H. rewrite GamesTwice.check_games_spec.
    unfold Hurricanes.no_schedule.
    destruct H as [Hf|(d & -> & Hm)].
    + rewrite Hf. reflexivity.
    + cbn [py_contains hashable]. rewrite Hm.
      destruct (py_truthy (VDict d)); reflexivity.
  - intros v s H. rewrite HurricanesRun.games_run_spec.
    rewrite GamesTwice.check_games_spec. unfold Hurricanes.no_schedule.
    destruct H as [(z & -> & Hz)|[->|[(l & -> & Hl)|(t & -> & Ht)]]].
    + cbn [py_truthy]. apply Z.eqb_neq in Hz. rewrite Hz. reflexivity.
    + reflexivity.
    + cbn [py_contains]. rewrite Hl.
      destruct l; [discriminate|]. reflexivity.
    + cbn [py_contains]. rewrite Ht.
      destruct t; [discriminate|]. reflexivity.
Qed.

Lemma hurricanes_payload_shapes_witness :
  let s := Hurricanes.mkMonitor (VDict []) [] (mkWorld Missing None []) in
  Hurricanes.check_games (Payload (VDict [(KStr "message", VStr "Not Found")])) s
    = (Ok tt, Hurricanes.on_env (log (Print MsgNoData)) s) /\
  Hurricanes.run (Payload (VStr "no dates scheduled")) s
    = (Raise TypeError, Hurricanes.on_env (log (Print MsgBanner)) s).
Proof.
  intros s. split.
  - apply (proj1 hurricanes_payload_shapes). right. eexists. split; reflexivity.
  - apply (proj2 hurricanes_payload_shapes). right. right. right.
    eexists. split; reflexivity.
Defined.

(* ================================================================== *)
(** ** The comic events monitor *)
(* ================================================================== *)

Section MoreStrings.

Lemma string_length_app (a b : string) :
  String.length (a ++ b) = (String.length a + String.length b)%nat.
Proof. induction a as [|c a IH]; cbn; [reflexivity|]. rewrite IH. reflexivity. Qed.

Lemma string_app_assoc (a b c : string) :
  ((a ++ b) ++ c = a ++ (b ++ c))%string.
Proof. induction a as [|x a IH]; cbn; [reflexivity|]. rewrite IH. reflexivity. Qed.

Lemma string_app_inv_tail (a b c : string) :
  (a ++ c = b ++ c)%string -> a = b.
Proof.
  revert b. induction a as [|x a IH]; intros [|y b] H; cbn in H.
  - reflexivity.
  - apply (f_equal String.length) in H. cbn in H.
    rewrite string_length_app in H.
    exfalso. clear -H. induction (String.length c) as [|n IHn].
    + rewrite Nat.add_0_r in H. discriminate.
    + rewrite Nat.add_succ_r in H. injection H as H. apply IHn.
      rewrite H at 1. reflexivity.
  - apply (f_equal String.length) in H. cbn in H.
    rewrite string_length_app in H.
    exfalso. clear -H. induction (String.length c) as [|n IHn].
    + rewrite Nat.add_0_r in H. discriminate.
    + rewrite Nat.add_succ_r in H. injection H as H. apply IHn.
      rewrite <- H at 2. reflexivity.
  - injection H as -> H. f_equal. apply IH, H.
Qed.

End MoreStrings.

Module ComicFacts.
Import ComicEvents ComicRun.

Lemma con_id_inj (c1 c2 : convention) (year : Z) :
  con_id_of c1 year = con_id_of c2 year -> name c1 = name c2.
Proof. unfold con_id_of. apply string_app_inv_tail. Qed.

(** One convention, over a dictionary store. *)
Lemma check_con_dict (now : clock) (i : nat) (con : convention) (d : dict)
    (s : ComicEventsMonitor) :
  known_events s = VDict d ->
  let id := con_id_of con (year_at now i) in
  check_con now i con s =
    if (negb (dict_mem d (KStr id)) && in_season con (month_at now i))%bool
    then (Ok tt,
          mkMonitor (VDict (dict_set d (KStr id) (make_event con id)))
                    (new_events s ++ [make_event con id])
                    (log (Print (MsgNew (make_event con id)))
                       (log (StoreUpsert (VStr id) (make_event con id))
                          (log (StoreContains (VStr id)) (env s)))))
    else (Ok tt, on_env (log (StoreContains (VStr id))) s).
Proof.
  intros Hk id. unfold check_con, known_contains, append_new, known_upsert,
    print, emit, modify, get, bind, lift, ret.
  cbn [known_events new_events env on_env]. rewrite Hk. cbn [py_contains hashable].
  fold id. destruct (dict_mem d (KStr id)); [reflexivity|].
  cbn [negb andb]. destruct (in_season con (month_at now i)); [|reflexivity].
  cbn. rewrite Hk. reflexivity.
Qed.

Lemma fresh_cons_ext (d d' : dict) (year : Z) (month : string)
    (cons : list convention) :
  (forall con, In con cons ->
               dict_mem d' (KStr (con_id_of con year))
               = dict_mem d (KStr (con_id_of con year))) ->
  fresh_cons d' year month cons = fresh_cons d year month cons.
Proof.
  intros H. unfold fresh_cons. apply filter_ext_in. intros con Hin.
  rewrite (H con Hin). reflexivity.
Qed.

(** The loop under a steady clock, over a dictionary store and any list
    of conventions with different names: it appends the fresh ones. *)
Lemma check_cons_steady (year : Z) (month : string) (cons : list convention) :
  NoDup (map name cons) ->
  forall (i : nat) (d : dict) (s : ComicEventsMonitor),
    known_events s = VDict d ->
    exists evs,
      no_save evs = true /\
      check_cons (steady year month) i cons s =
        (Ok tt,
         mkMonitor
           (VDict (d ++ map (con_entry year) (fresh_cons d year month cons)))
           (new_events s
              ++ map (fun con => make_event con (con_id_of con year))
                     (fresh_cons d year month cons))
           (logs evs (env s))).
Proof.
  induction cons as [|con rest IH]; intros Hnd i d s Hk.
  - exists []. split; [reflexivity|]. cbn. rewrite !app_nil_r, logs_nil.
    destruct s; cbn in *; subst; reflexivity.
  - inversion Hnd as [|? ? Hnot Hnd']; subst.
    cbn [check_cons]. unfold bind at 1.
    rewrite (check_con_dict (steady year month) i con d s Hk).
    cbn [steady year_at month_at].
    set (id := con_id_of con year).
    unfold fresh_cons. cbn [filter]. fold (fresh_cons d year month rest).
    fold id. rewrite (andb_comm (in_season con month)).
    destruct (negb (dict_mem d (KStr id)) && in_season con month)%bool eqn:Hf.
    + apply andb_prop in Hf. destruct Hf as [Hm _].
      apply negb_true_iff in Hm. rewrite dict_mem_get in Hm.
      rewrite (dict_set_new d (KStr id) _ Hm).
      match goal with
      | |- context [check_cons _ _ rest ?s1] =>
          destruct (IH Hnd' (S i) (d ++ [(KStr id, make_event con id)])%list
                       s1 eq_refl) as (evs & Hq & ->)
      end.
      rewrite (fresh_cons_ext d (d ++ [(KStr id, make_event con id)])%list).
      * exists ([StoreContains (VStr id); StoreUpsert (VStr id) (make_event con id);
                 Print (MsgNew (make_event con id))] ++ evs)%list.
        split; [rewrite no_save_app, Hq; reflexivity|].
        cbn [known_events new_events env map con_entry].
        fold id. rewrite <- !app_assoc. cbn [app].
        rewrite !log_as_logs, !logs_logs. reflexivity.
      * intros c Hin. rewrite BandSaved.dict_mem_app.
        unfold dict_mem at 2. cbn [dict_get key_eqb].
        destruct (String.eqb (con_id_of c year) id) eqn:E;
          [|apply orb_false_r].
        exfalso. apply Hnot. apply String.eqb_eq in E.
        apply con_id_inj in E. rewrite <- E. apply in_map, Hin.
    + match goal with
      | |- context [check_cons _ _ rest ?s1] =>
          destruct (IH Hnd' (S i) d s1 Hk) as (evs & Hq & ->)
      end.
      exists (StoreContains (VStr id) :: evs). split; [exact Hq|].
      cbn [known_events new_events env on_env].
      rewrite log_as_logs, logs_logs. reflexivity.
Qed.

Lemma major_cons_names : NoDup (map name major_cons).
Proof.
  cbn. repeat constructor; cbn; intuition discriminate.
Qed.

Lemma filter_none {A : Type} (f : A -> bool) (l : list A) :
  (forall x, In x l -> f x = false) -> filter f l = [].
Proof.
  induction l as [|a l IH]; intros H; [reflexivity|].
  cbn. rewrite (H a (or_introl eq_refl)). apply IH.
  intros x Hx. apply H. right. exact Hx.
Qed.

End ComicFacts.

(** X14.  What the comic monitor reports in a given month.  Over a
    dictionary store, with the clock showing one year and one month
    during the loop, [check_manual_events] returns, and it appends to the
    store and to the delta, in the order of the list, the conventions
    that are in season (typical of that month, or of "Various") and whose
    identifier for that year the store does not hold.  Conventions out
    of season are neither reported nor stored. *)
Theorem comic_reports_conventions_in_season :
  forall (year : Z) (month : string) (s : ComicEvents.ComicEventsMonitor)
         (d : dict),
    ComicEvents.known_events s = VDict d ->
    exists evs,
      no_save evs = true /\
      ComicRun.check_manual_events (ComicRun.steady year month) s =
        (Ok tt,
         ComicEvents.mkMonitor
           (VDict (d ++ map (ComicRun.con_entry year)
                            (ComicRun.fresh_cons d year month
                               ComicRun.major_cons)))
           (ComicEvents.new_events s
              ++ map (fun con =>
                        ComicRun.make_event con (ComicRun.con_id_of con year))
                     (ComicRun.fresh_cons d year month ComicRun.major_cons))
           (logs evs (ComicEvents.env s))).
Proof.
  intros year month s d Hk.
  apply (ComicFacts.check_cons_steady year month ComicRun.major_cons
           ComicFacts.major_cons_names 0 d s Hk).
Qed.

Lemma comic_reports_conventions_in_season_witness :
  let s := ComicEvents.mkMonitor (VDict []) [] (mkWorld Missing None []) in
  let heroes := nth 0 ComicRun.major_cons (ComicRun.mkCon "" "" "" "" "") in
  let charlotte := nth 4 ComicRun.major_cons (ComicRun.mkCon "" "" "" "" "") in
  ComicEvents.new_events
    (snd (ComicRun.check_manual_events (ComicRun.steady 2025 "June") s))
    = [ ComicRun.make_event heroes "Heroes Convention-2025";
        ComicRun.make_event charlotte "Charlotte Comicon-2025" ].
Proof.
  intros s heroes charlotte.
  destruct (comic_reports_conventions_in_season 2025 "June" s [] eq_refl)
    as (evs & _ & ->).
  reflexivity.
Defined.

Module ComicTwice.
Import ComicEvents ComicRun.

Lemma comic_init_spec (s : ComicEventsMonitor) :
  init s =
    match data_file (env s) with
    | Unreachable e => (Raise e, on_env (log StoreLoad) s)
    | doc => (Ok tt, mkMonitor (loaded doc) [] (log StoreLoad (env s)))
    end.
Proof.
  unfold init, load_known_events, emit, modify, get, bind, try_except, lift, ret.
  cbn [env on_env log data_file].
  destruct (data_file (env s)); reflexivity.
Qed.

Lemma comic_session_loaded (now : clock) (w : world) (d : dict) :
  loaded (data_file w) = VDict d ->
  session now w = run now (mkMonitor (VDict d) [] (log StoreLoad w)).
Proof.
  intros H. unfold session, bind. rewrite comic_init_spec. cbn [blank env].
  destruct (data_file w); cbn [loaded] in H; try discriminate;
    rewrite <- H; reflexivity.
Qed.

(** A run that can write, under a steady clock, over a dictionary store. *)
Lemma comic_run_steady (year : Z) (month : string) (d : dict)
    (s : ComicEventsMonitor) :
  known_events s = VDict d ->
  write_error (env s) = None ->
  let fresh := fresh_cons d year month major_cons in
  let d1 := (d ++ map (con_entry year) fresh)%list in
  let n1 := (new_events s
               ++ map (fun con => make_event con (con_id_of con year)) fresh)%list in
  fst (run (steady year month) s)
    = Ok match n1 with [] => None | _ :: _ => Some n1 end /\
  known_events (snd (run (steady year month) s)) = VDict d1 /\
  new_events (snd (run (steady year month) s)) = n1 /\
  data_file (env (snd (run (steady year month) s))) = Json (json_image (VDict d1)) /\
  write_error (env (snd (run (steady year month) s))) = None.
Proof.
  intros Hk Hw fresh d1 n1.
  assert (E : exists w1,
             write_error w1 = None /\
             data_file w1 = Json (json_image (VDict d1)) /\
             run (steady year month) s
               = (Ok match n1 with [] => None | _ :: _ => Some n1 end,
                  mkMonitor (VDict d1) n1 w1)).
  { unfold run, print, emit, modify. unfold bind at 1 2. cbn [fst snd].
    destruct (ComicFacts.check_cons_steady year month major_cons
                ComicFacts.major_cons_names 0 d
                (on_env (log (Print MsgBanner)) s) Hk) as (evs & _ & E).
    unfold check_manual_events. rewrite E. fold fresh.
    cbn [new_events on_env]. fold d1 n1.
    unfold check_local_comic_shops, save_known_events, print, emit, modify,
      get, bind, raise, lift, ret.
    cbn [known_events new_events env on_env write_error log logs].
    rewrite Hw. cbn [new_events on_env known_events env].
    clearbody n1 d1. destruct n1; eexists; (split; [|split; [|reflexivity]]);
      cbn; try reflexivity; exact Hw. }
  destruct E as (w1 & Hw1 & Hd1 & ->). cbn [fst snd known_events new_events env].
  repeat split; assumption.
Qed.

End ComicTwice.

(** X15.  The comic monitor announces a convention once a season: when a
    process starts from a dictionary store and can write, and the clock
    shows the same year and month during it and during the next process,
    the next process returns an empty delta. *)
Theorem comic_second_run_reports_nothing :
  forall (year : Z) (month : string) (w : world) (d : dict),
    loaded (data_file w) = VDict d ->
    write_error w = None ->
    let now := ComicRun.steady year month in
    fst (ComicRun.session now (ComicEvents.env (snd (ComicRun.session now w))))
      = Ok None /\
    ComicEvents.new_events
      (snd (ComicRun.session now
              (ComicEvents.env (snd (ComicRun.session now w))))) = [].
Proof.
  intros year month w d Hl Hw now. subst now.
  rewrite (ComicTwice.comic_session_loaded _ w d Hl).
  set (s0 := ComicEvents.mkMonitor (VDict d) [] (log StoreLoad w)).
  destruct (ComicTwice.comic_run_steady year month d s0 eq_refl Hw)
    as (_ & _ & _ & Hdoc & Hw1).
  set (d1 := (d ++ map (ComicRun.con_entry year)
                       (ComicRun.fresh_cons d year month ComicRun.major_cons))%list)
    in *.
  destruct (json_image (VDict d1)) as [| | | | |d2] eqn:Himg;
    try (rewrite BandTwice.json_image_dict in Himg; discriminate).
  rewrite (ComicTwice.comic_session_loaded _ _ d2)
    by (rewrite Hdoc; reflexivity).
  set (s2 := ComicEvents.mkMonitor (VDict d2) [] _).
  destruct (ComicTwice.comic_run_steady year month d2 s2 eq_refl Hw1)
    as (Hr & _ & Hn & _ & _).
  assert (Hfresh : ComicRun.fresh_cons d2 year month ComicRun.major_cons = []).
  { unfold ComicRun.fresh_cons.
    apply ComicFacts.filter_none. intros con Hin.
    destruct (ComicRun.in_season con month) eqn:Hs; [|reflexivity].
    cbn [andb]. apply negb_false_iff.
    apply (BandTwice.saved_string_key d1 d2 _ Himg).
    subst d1. rewrite BandSaved.dict_mem_app.
    destruct (dict_mem d (KStr (ComicRun.con_id_of con year))) eqn:Hm;
      [reflexivity|]. cbn [orb].
    apply (BandSaved.dict_mem_in_key _ _
             (ComicRun.make_event con (ComicRun.con_id_of con year))).
    apply (in_map (ComicRun.con_entry year)).
    unfold ComicRun.fresh_cons. apply filter_In. split; [exact Hin|].
    rewrite Hs, Hm. reflexivity. }
  rewrite Hfresh in Hr, Hn. cbn in Hr, Hn. split; assumption.
Qed.

Lemma comic_second_run_reports_nothing_witness :
  let now := ComicRun.steady 2025 "June" in
  let w := mkWorld Missing None [] in
  fst (ComicRun.session now w) <> Ok None /\
  fst (ComicRun.session now (ComicEvents.env (snd (ComicRun.session now w))))
    = Ok None.
Proof.
  intros now w. split; [vm_compute; discriminate|].
  exact (proj1 (comic_second_run_reports_nothing 2025 "June" w []
                  eq_refl eq_refl)).
Defined.

(* ================================================================== *)
(** ** Substrings, and the comic keywords *)
(* ================================================================== *)

Section Substrings.

Lemma prefix_split (n h : string) :
  String.prefix n h = true <-> exists post, h = (n ++ post)%string.
Proof.
  revert h. induction n as [|c n IH]; intros h.
  - split; [intros _; exists h; reflexivity|intros _; destruct h; reflexivity].
  - destruct h as [|c' h]; cbn.
    + split; [discriminate|intros [post H]; discriminate].
    + destruct (Ascii.ascii_dec c c') as [->|Hne]; split.
      * intros H. apply IH in H. destruct H as [post ->]. exists post.
        reflexivity.
      * intros [post H]. injection H as ->. apply IH. exists post.
        reflexivity.
      * discriminate.
      * intros [post H]. injection H as H _. congruence.
Qed.

Lemma str_contains_split (n h : string) :
  str_contains n h = true <-> exists pre post, h = (pre ++ n ++ post)%string.
Proof.
  induction h as [|c h IH].
  - cbn [str_contains]. rewrite orb_false_r. rewrite prefix_split. split.
    + intros [post H]. exists EmptyString, post. exact H.
    + intros (pre & post & H). destruct pre; [exists post; exact H|discriminate].
  - cbn [str_contains]. rewrite orb_true_iff, prefix_split, IH. split.
    + intros [[post H]|(pre & post & H)].
      * exists EmptyString, post. exact H.
      * exists (String c pre), post. cbn. rewrite H. reflexivity.
    + intros (pre & post & H). destruct pre as [|c' pre].
      * left. exists post. exact H.
      * right. cbn in H. injection H as _ H. exists pre, post. exact H.
Qed.

Lemma str_contains_trans (a b t : string) :
  str_contains a b = true -> str_contains b t = true ->
  str_contains a t = true.
Proof.
  intros Hab Hbt. apply str_contains_split in Hab, Hbt.
  destruct Hab as (p1 & q1 & ->). destruct Hbt as (p2 & q2 & ->).
  apply str_contains_split. exists (p2 ++ p1)%string, (q1 ++ q2)%string.
  rewrite !string_app_assoc. reflexivity.
Qed.

(** A needle whose part [a] is missing from the text is missing too. *)
Lemma str_contains_none (a b t : string) :
  str_contains a b = true -> str_contains a t = false ->
  str_contains b t = false.
Proof.
  intros Hab Hat. destruct (str_contains b t) eqn:Hbt; [|reflexivity].
  rewrite (str_contains_trans a b t Hab Hbt) in Hat. discriminate.
Qed.

End Substrings.

(** X16.  Three of the eight keywords of the comic monitor never decide:
    [comicon], [comic con] and [dc comics] all contain [comic], so the
    answer of [is_comic_related] is the answer over the other five. *)
Theorem comic_keywords_that_never_decide :
  forall event_title event_description : string,
    ComicRun.is_comic_related event_title event_description
    = existsb
        (fun keyword =>
           str_contains keyword
             (lower (event_title ++ " " ++ event_description)))
        ["comic"; "graphic novel"; "anime"; "cosplay"; "marvel"].
Proof.
  intros title description. unfold ComicRun.is_comic_related, ComicRun.KEYWORDS.
  cbv zeta. set (text := lower _). cbn [existsb].
  destruct (str_contains "comic" text) eqn:Hc; [reflexivity|].
  rewrite (str_contains_none "comic" "comicon" text eq_refl Hc).
  rewrite (str_contains_none "comic" "comic con" text eq_refl Hc).
  rewrite (str_contains_none "comic" "dc comics" text eq_refl Hc).
  cbn [orb]. rewrite !orb_false_r. reflexivity.
Qed.

(* ================================================================== *)
(** ** The Telegram notifier of the band monitor *)
(* ================================================================== *)

Module TelegramFacts.
Import Telegram.

Lemma env_get_set_same (e : list (string * string)) (name v : string) :
  env_get (env_set e name v) name = Some v.
Proof.
  induction e as [|[n v'] e IH]; cbn.
  - rewrite String.eqb_refl. reflexivity.
  - destruct (String.eqb n name) eqn:E; cbn; rewrite E; [reflexivity|exact IH].
Qed.

Lemma env_get_set_other (e : list (string * string)) (name v other : string) :
  other <> name ->
  env_get (env_set e name v) other = env_get e other.
Proof.
  intros Hne. induction e as [|[n v'] e IH]; cbn.
  - destruct (String.eqb name other) eqn:E; [|reflexivity].
    apply String.eqb_eq in E. congruence.
  - destruct (String.eqb n name) eqn:E; cbn.
    + apply String.eqb_eq in E. subst n.
      destruct (String.eqb name other) eqn:E'; [|reflexivity].
      apply String.eqb_eq in E'. congruence.
    + rewrite IH. reflexivity.
Qed.

Lemma or_environ_spec (arg : value) (name : string) (h : host) :
  or_environ arg name h = (Ok (credential arg h name), h).
Proof.
  unfold or_environ, credential. destruct (py_truthy arg); reflexivity.
Qed.

Lemma send_spec (message bot_token chat_id : value) (h : host) :
  let token := credential bot_token h "TELEGRAM_BOT_TOKEN" in
  let chat := credential chat_id h "TELEGRAM_CHAT_ID" in
  send_telegram_message message bot_token chat_id h =
    if configured token chat then
      let r := api h (send_url token) (send_data message chat) in
      (Ok (fst (outcome r)),
       with_actions h [Post (send_url token) (send_data message chat);
                       Say (snd (outcome r))])
    else
      match message_error h message with
      | Some e => (Raise e, with_actions h [Say NotConfigured])
      | None => (Ok false, with_actions h [Say NotConfigured;
                                          Say (Unsent message)])
      end.
Proof.
  intros token chat. unfold send_telegram_message.
  unfold bind at 1. rewrite or_environ_spec. fold token.
  unfold bind at 1. rewrite or_environ_spec. fold chat.
  unfold configured.
  assert (Hno : (say NotConfigured ;; show message ;; ret false) h
                = match message_error h message with
                  | Some e => (Raise e, with_actions h [Say NotConfigured])
                  | None => (Ok false, with_actions h [Say NotConfigured;
                                                      Say (Unsent message)])
                  end).
  { unfold show, say, act, modify, get, bind, raise, lift, ret, with_actions.
    cbn [api environ config_file config_write_error actions message_error].
    destruct (message_error h message);
      cbn [api environ config_file config_write_error actions message_error
           fst snd];
      [reflexivity|].
    rewrite <- app_assoc. reflexivity. }
  destruct (py_truthy token), (py_truthy chat); cbn [negb orb andb];
    try exact Hno.
  clear Hno.
  unfold try_except, act, say, act, modify, get, bind, lift, ret, with_actions.
  cbn [api environ config_file config_write_error actions message_error].
  destruct (api h (send_url token) (send_data message chat)) as [e|result];
    cbn [http_get_json outcome fst snd].
  - cbn [api environ config_file config_write_error actions message_error].
    rewrite <- app_assoc. reflexivity.
  - destruct (py_get result "ok" VNone) as [ok|e]; cbn [fst snd].
    + destruct (py_truthy ok);
        cbn [fst snd api environ config_file config_write_error actions
             message_error];
        rewrite <- app_assoc; reflexivity.
    + cbn [api environ config_file config_write_error actions message_error].
      rewrite <- app_assoc. reflexivity.
Qed.

Lemma outcome_accepted (r : response) : fst (outcome r) = accepted r.
Proof.
  destruct r as [e|result]; [reflexivity|].
  destruct result; try reflexivity. cbn.
  destruct (dict_get d (KStr "ok")) as [ok|]; [|reflexivity].
  destruct (py_truthy ok); reflexivity.
Qed.

(** [load_telegram_config], case by case. *)
Lemma load_spec (h : host) :
  load_telegram_config h =
    match config_file h with
    | Unreachable e => (Raise e, h)
    | Json (VDict c) =>
        match config_text c "bot_token" with
        | Some token =>
            match config_text c "chat_id" with
            | Some chat =>
                (Ok true,
                 with_environ h
                   (env_set (env_set (environ h) "TELEGRAM_BOT_TOKEN" token)
                            "TELEGRAM_CHAT_ID" chat))
            | None =>
                (Ok false,
                 with_environ h
                   (env_set (environ h) "TELEGRAM_BOT_TOKEN" token))
            end
        | None => (Ok false, h)
        end
    | _ => (Ok false, h)
    end.
Proof.
  unfold load_telegram_config, get. unfold bind at 1.
  destruct h as [e doc we a acts out]. cbn [config_file environ].
  unfold bind at 1. unfold lift at 1.
  destruct doc as [|x|x|v]; try reflexivity.
  cbn [doc_exists read_json].
  destruct v as [| | | | |c]; try reflexivity.
  unfold try_except, bind, lift, ret, config_text, with_environ. cbn [py_get].
  destruct (dict_get c (KStr "bot_token")) as [[| | |t| |]|]; try reflexivity.
  - unfold putenv at 1. destruct (has_char nul t); [reflexivity|].
    unfold modify.
    cbn [environ config_file config_write_error api actions message_error].
    destruct (dict_get c (KStr "chat_id")) as [[| | |t'| |]|]; try reflexivity.
    + unfold putenv. destruct (has_char nul t'); reflexivity.
  - unfold putenv at 1. cbn [has_char]. unfold modify.
    cbn [environ config_file config_write_error api actions message_error].
    destruct (dict_get c (KStr "chat_id")) as [[| | |t'| |]|]; try reflexivity.
    + unfold putenv. destruct (has_char nul t'); reflexivity.
Qed.

Lemma with_environ_same (h : host) : with_environ h (environ h) = h.
Proof. destruct h; reflexivity. Qed.

(** What a load that returned True has done. *)
Lemma load_true (h : host) :
  fst (load_telegram_config h) = Ok true ->
  exists c token chat,
    config_file h = Json (VDict c) /\
    config_text c "bot_token" = Some token /\
    config_text c "chat_id" = Some chat /\
    load_telegram_config h =
      (Ok true,
       with_environ h
         (env_set (env_set (environ h) "TELEGRAM_BOT_TOKEN" token)
                  "TELEGRAM_CHAT_ID" chat)).
Proof.
  rewrite load_spec.
  destruct (config_file h) as [|x|x|[| | | | |c]]; try discriminate.
  destruct (config_text c "bot_token") as [token|] eqn:Ht; [|discriminate].
  destruct (config_text c "chat_id") as [chat|] eqn:Hch; [|discriminate].
  intros _. exists c, token, chat.
  split; [reflexivity|]. split; [exact Ht|]. split; [exact Hch|reflexivity].
Qed.

End TelegramFacts.

(** X17.  The notifier of the band monitor asks the Bot API at most once
    and changes nothing but the output.  With both credentials (the
    argument when it is true, the environment variable otherwise) it
    never raises, whatever the message and whatever the exchange does:
    it posts once, to the URL of that token, and returns True exactly
    when the answer is an object whose [ok] is true.  Without them it
    posts nothing and prints the message instead: it returns False, or
    raises what [print] raises when the stream cannot encode the
    message. *)
Theorem notifier_raises_only_from_print :
  forall (message bot_token chat_id : value) (h : Telegram.host),
    let token := Telegram.credential bot_token h "TELEGRAM_BOT_TOKEN" in
    let chat := Telegram.credential chat_id h "TELEGRAM_CHAT_ID" in
    exists done : list Telegram.action,
      snd (Telegram.send_telegram_message message bot_token chat_id h)
        = Telegram.with_actions h done /\
      Telegram.posts done
        = (if Telegram.configured token chat
           then [(Telegram.send_url token, Telegram.send_data message chat)]
           else []) /\
      fst (Telegram.send_telegram_message message bot_token chat_id h)
        = (if Telegram.configured token chat
           then Ok (Telegram.accepted
                      (Telegram.api h (Telegram.send_url token)
                         (Telegram.send_data message chat)))
           else match Telegram.message_error h message with
                | Some e => Raise e
                | None => Ok false
                end).
Proof.
  intros message bot_token chat_id h token chat.
  rewrite TelegramFacts.send_spec. fold token chat.
  destruct (Telegram.configured token chat).
  - eexists. split; [reflexivity|]. split; [reflexivity|].
    cbn [fst]. rewrite TelegramFacts.outcome_accepted. reflexivity.
  - destruct (Telegram.message_error h message);
      eexists; (split; [reflexivity|]); split; reflexivity.
Qed.

(** X18.  [load_telegram_config] raises only what the existence test of
    the file raises.  Otherwise it returns a boolean, prints nothing and
    leaves every variable other than the two credentials as it was.
    When it returns True, the file parsed to an object whose [bot_token]
    and [chat_id], where present, are texts without a null byte, and the
    environment holds both (the empty text for an absent one).  When it
    returns False the chat id is as before, but the token may already
    have been replaced. *)
Theorem load_config_true_means_both_set :
  forall h : Telegram.host,
    (forall e,
        Telegram.config_file h = Unreachable e ->
        Telegram.load_telegram_config h = (Raise e, h)) /\
    ((forall e, Telegram.config_file h <> Unreachable e) ->
     exists (loaded_ok : bool) (e' : list (string * string)),
       Telegram.load_telegram_config h
         = (Ok loaded_ok, Telegram.with_environ h e') /\
       (forall name,
           name <> "TELEGRAM_BOT_TOKEN" -> name <> "TELEGRAM_CHAT_ID" ->
           Telegram.env_get e' name
           = Telegram.env_get (Telegram.environ h) name) /\
       (loaded_ok = true ->
        exists c token chat,
          Telegram.config_file h = Json (VDict c) /\
          Telegram.config_text c "bot_token" = Some token /\
          Telegram.config_text c "chat_id" = Some chat /\
          Telegram.env_get e' "TELEGRAM_BOT_TOKEN" = Some token /\
          Telegram.env_get e' "TELEGRAM_CHAT_ID" = Some chat) /\
       (loaded_ok = false ->
        Telegram.env_get e' "TELEGRAM_CHAT_ID"
        = Telegram.env_get (Telegram.environ h) "TELEGRAM_CHAT_ID")).
Proof.
  intros h. split.
  - intros e He. rewrite TelegramFacts.load_spec, He. reflexivity.
  - intros Hex. rewrite TelegramFacts.load_spec.
    pose proof (TelegramFacts.with_environ_same h) as Hsame.
    assert (Hne : "TELEGRAM_CHAT_ID" <> "TELEGRAM_BOT_TOKEN") by discriminate.
    assert (Hne' : "TELEGRAM_BOT_TOKEN" <> "TELEGRAM_CHAT_ID") by discriminate.
    destruct (Telegram.config_file h) as [|x|x|[| | | | |c]] eqn:Hdoc;
      try (exists false, (Telegram.environ h); rewrite Hsame;
           split; [reflexivity|]; split; [reflexivity|];
           split; [discriminate|reflexivity]).
    { destruct (Hex x eq_refl). }
    destruct (Telegram.config_text c "bot_token") as [token|] eqn:Ht.
    + destruct (Telegram.config_text c "chat_id") as [chat|] eqn:Hch.
      * eexists true, _. split; [reflexivity|]. split; [|split].
        -- intros name H1 H2.
           rewrite !TelegramFacts.env_get_set_other by assumption. reflexivity.
        -- intros _. exists c, token, chat.
           repeat split; try assumption.
           ++ rewrite TelegramFacts.env_get_set_other by assumption.
              apply TelegramFacts.env_get_set_same.
           ++ apply TelegramFacts.env_get_set_same.
        -- discriminate.
      * eexists false, _. split; [reflexivity|]. split; [|split].
        -- intros name H1 H2.
           rewrite TelegramFacts.env_get_set_other by assumption. reflexivity.
        -- discriminate.
        -- intros _. apply TelegramFacts.env_get_set_other, Hne.
    + exists false, (Telegram.environ h). rewrite Hsame.
      split; [reflexivity|]. split; [reflexivity|].
      split; [discriminate|reflexivity].
Qed.

Lemma load_config_true_means_both_set_witness :
  let h := Telegram.mkHost [("HOME", "/root"); ("TELEGRAM_CHAT_ID", "42")]
             (Json (VDict [(KStr "bot_token", VStr "123:abc");
                           (KStr "chat_id", VInt 42)]))
             None (fun _ _ => Failed OSError) [] in
  fst (Telegram.load_telegram_config h) = Ok false /\
  Telegram.env_get (Telegram.environ (snd (Telegram.load_telegram_config h)))
    "HOME" = Some "/root" /\
  Telegram.env_get (Telegram.environ (snd (Telegram.load_telegram_config h)))
    "TELEGRAM_CHAT_ID" = Some "42" /\
  Telegram.env_get (Telegram.environ (snd (Telegram.load_telegram_config h)))
    "TELEGRAM_BOT_TOKEN" = Some "123:abc".
Proof.
  intros h.
  destruct (proj2 (load_config_true_means_both_set h))
    as (b & e' & Heq & Hother & _ & Hchat).
  { intros e H. discriminate H. }
  split; [reflexivity|]. rewrite Heq.
  cbn [snd Telegram.with_environ Telegram.environ].
  assert (Hb : b = false).
  { apply (f_equal fst) in Heq. cbn in Heq. injection Heq as <-. reflexivity. }
  split; [|split].
  - rewrite (Hother "HOME"); [reflexivity|discriminate|discriminate].
  - rewrite (Hchat Hb). reflexivity.
  - apply (f_equal (fun p => Telegram.env_get (Telegram.environ (snd p))
                                "TELEGRAM_BOT_TOKEN")) in Heq.
    cbn in Heq. symmetry. exact Heq.
Defined.

(** X19.  A configuration that loads replaces the credentials of the
    environment, empty ones included.  When [load_telegram_config]
    returns True, a send with no credentials passed, as [main] does it,
    works with the token and the chat id of the file (the empty text for
    an absent one), whatever the environment held: it posts with them
    when both are non-empty, and posts nothing when one is absent or
    empty in the file. *)
Theorem config_file_replaces_environment :
  forall (message : value) (h : Telegram.host),
    fst (Telegram.load_telegram_config h) = Ok true ->
    exists (c : dict) (token chat : string) (done : list Telegram.action)
           (e' : list (string * string)),
      Telegram.config_file h = Json (VDict c) /\
      Telegram.config_text c "bot_token" = Some token /\
      Telegram.config_text c "chat_id" = Some chat /\
      snd (Telegram.load_then_send message h)
        = Telegram.with_actions (Telegram.with_environ h e') done /\
      Telegram.posts done
        = (if Telegram.configured (VStr token) (VStr chat)
           then [(Telegram.send_url (VStr token),
                  Telegram.send_data message (VStr chat))]
           else []) /\
      fst (Telegram.load_then_send message h)
        = (if Telegram.configured (VStr token) (VStr chat)
           then Ok (Telegram.accepted
                      (Telegram.api h (Telegram.send_url (VStr token))
                         (Telegram.send_data message (VStr chat))))
           else match Telegram.message_error h message with
                | Some e => Raise e
                | None => Ok false
                end).
Proof.
  intros message h Hload.
  destruct (TelegramFacts.load_true h Hload)
    as (c & token & chat & Hc & Ht & Hch & Heq).
  exists c, token, chat.
  unfold Telegram.load_then_send, bind. rewrite Heq.
  rewrite TelegramFacts.send_spec.
  unfold Telegram.credential.
  cbn [py_truthy Telegram.with_environ Telegram.environ Telegram.api
       Telegram.message_error].
  rewrite TelegramFacts.env_get_set_same.
  rewrite TelegramFacts.env_get_set_other by discriminate.
  rewrite TelegramFacts.env_get_set_same.
  destruct (Telegram.configured (VStr token) (VStr chat)).
  - eexists _, _. repeat (split; [first [assumption|reflexivity]|]).
    cbn [fst]. rewrite TelegramFacts.outcome_accepted. reflexivity.
  - destruct (Telegram.message_error h message);
      eexists _, _; repeat (split; [first [assumption|reflexivity]|]);
      reflexivity.
Qed.

Lemma config_file_replaces_environment_witness :
  let h := Telegram.mkHost
             [("TELEGRAM_BOT_TOKEN", "123:abc"); ("TELEGRAM_CHAT_ID", "42")]
             (Json (VDict [(KStr "chat_id", VStr "42")]))
             None (fun _ _ => Payload (VDict [(KStr "ok", VBool true)])) [] in
  fst (Telegram.send_telegram_message (VStr "hello") VNone VNone h) = Ok true /\
  fst (Telegram.load_then_send (VStr "hello") h) = Ok false.
Proof.
  intros h. split; [reflexivity|].
  destruct (config_file_replaces_environment (VStr "hello") h eq_refl)
    as (c & token & chat & done & e' & Hc & Ht & Hch & _ & _ & Hsent).
  injection Hc as <-. injection Ht as <-. injection Hch as <-.
  rewrite Hsent. reflexivity.
Defined.

(** X20.  Setup and load round trip.  After [setup_telegram] has written
    the two answers, [load_telegram_config] returns True and the
    environment holds exactly those two texts, provided the file can be
    written and neither text has a null byte. *)
Theorem setup_then_load_round_trip :
  forall (token chat_id : string) (h : Telegram.host),
    Telegram.config_write_error h = None ->
    has_char Telegram.nul token = false ->
    has_char Telegram.nul chat_id = false ->
    exists h',
      (Telegram.setup_telegram token chat_id ;; Telegram.load_telegram_config) h
        = (Ok true, h') /\
      Telegram.env_get (Telegram.environ h') "TELEGRAM_BOT_TOKEN" = Some token /\
      Telegram.env_get (Telegram.environ h') "TELEGRAM_CHAT_ID" = Some chat_id /\
      forall name,
        name <> "TELEGRAM_BOT_TOKEN" -> name <> "TELEGRAM_CHAT_ID" ->
        Telegram.env_get (Telegram.environ h') name
        = Telegram.env_get (Telegram.environ h) name.
Proof.
  intros token chat_id h Hw Ht Hc.
  unfold Telegram.setup_telegram, get. unfold bind at 1 2. rewrite Hw.
  unfold Telegram.say, Telegram.act, Telegram.with_config, modify, bind.
  rewrite TelegramFacts.load_spec.
  cbn [Telegram.config_file Telegram.environ json_image fold_left dict_set
       fst snd json_key key_eqb String.eqb Ascii.eqb Bool.eqb].
  unfold Telegram.config_text. cbn [dict_get key_eqb String.eqb Ascii.eqb Bool.eqb].
  rewrite Ht, Hc.
  eexists. split; [reflexivity|].
  cbn [Telegram.with_environ Telegram.environ].
  split; [|split].
  - rewrite TelegramFacts.env_get_set_other by discriminate.
    apply TelegramFacts.env_get_set_same.
  - apply TelegramFacts.env_get_set_same.
  - intros name H1 H2.
    rewrite !TelegramFacts.env_get_set_other by assumption. reflexivity.
Qed.

Lemma setup_then_load_round_trip_witness :
  let h := Telegram.mkHost [("TELEGRAM_BOT_TOKEN", "old")] Missing None
             (fun _ _ => Failed OSError) [] in
  exists h',
    (Telegram.setup_telegram "123:abc" "42" ;; Telegram.load_telegram_config) h
      = (Ok true, h') /\
    Telegram.env_get (Telegram.environ h') "TELEGRAM_BOT_TOKEN" = Some "123:abc".
Proof.
  intros h.
  destruct (setup_then_load_round_trip "123:abc" "42" h eq_refl eq_refl eq_refl)
    as (h' & Heq & Ht & _).
  exists h'. split; assumption.
Defined.
